(** * DinoTube: the player control engine of [src/App.tsx]

    A shallow embedding of the [App] component: its [useState] cells and
    refs become one record, every handler becomes a function on that
    record, the [useEffect] blocks become functions run by a commit phase
    after each event, and [window.setTimeout] becomes a queue of pending
    timers driven by a millisecond clock.

    Conventions of the embedding.
    - A JavaScript [number] is a rational ([Q]): arithmetic is exact, and
      [NaN] and the infinities are outside the model.  A number is falsy
      exactly when it is zero.
    - A JavaScript [string] is a Rocq [string]; every separator the code
      searches for is ASCII.
    - [undefined] and [null] are [None]. *)

From Stdlib Require Import Bool Arith ZArith QArith List String Ascii Lia Lqa.
From Stdlib Require Import DecimalString DecimalZ DecimalPos Qround.
Import ListNotations.

Open Scope string_scope.
Open Scope Q_scope.

(** ** JavaScript numbers *)

Module Js.

(** Truthiness of a number that may be [undefined]. *)
Definition truthy (a : option Q) : bool :=
  match a with
  | Some x => negb (Qeq_bool x 0)
  | None => false
  end.

(** [a || b] between numbers that may be [undefined]. *)
Definition or (a b : option Q) : option Q := if truthy a then a else b.

(** [a || b] where [b] is a number, so that the result is one. *)
Definition orNum (a : option Q) (b : Q) : Q :=
  match or a (Some b) with
  | Some x => x
  | None => b
  end.

(** [a ?? b]. *)
Definition nullish (a : option Q) (b : Q) : Q :=
  match a with
  | Some x => x
  | None => b
  end.

(** [x > y] and [x < y] as the booleans an [if] tests. *)
Definition gt (x y : Q) : bool := negb (Qle_bool x y).
Definition lt (x y : Q) : bool := negb (Qle_bool y x).

(** [Math.max] and [Math.min] on two numbers. *)
Definition max (x y : Q) : Q := if Qle_bool x y then y else x.
Definition min (x y : Q) : Q := if Qle_bool x y then x else y.

(** [l.findIndex(p)], counting from [i]. *)
Fixpoint findIndexFrom {A : Type} (p : A -> bool) (l : list A) (i : Z) : Z :=
  match l with
  | [] => (-1)%Z
  | x :: r => if p x then i else findIndexFrom p r (i + 1)%Z
  end.

Definition findIndex {A : Type} (p : A -> bool) (l : list A) : Z :=
  findIndexFrom p l 0%Z.

End Js.

(** ** JavaScript strings *)

Module JsString.

(** [s.startsWith(p)]. *)
Fixpoint startsWith (p s : string) : bool :=
  match p, s with
  | EmptyString, _ => true
  | String _ _, EmptyString => false
  | String a p', String b s' => Ascii.eqb a b && startsWith p' s'
  end.

(** [s.includes(p)]. *)
Fixpoint includes (p s : string) : bool :=
  startsWith p s ||
  match s with
  | EmptyString => false
  | String _ s' => includes p s'
  end.

(** [s.split(sep)] for a non-empty separator, scanning left to right:
    [skip] counts the characters of a matched separator still to be
    passed over and [cur] is the piece collected so far. *)
Fixpoint splitFrom (sep : string) (skip : nat) (cur s : string)
  : list string :=
  match s with
  | EmptyString => [cur]
  | String c s' =>
      match skip with
      | S k => splitFrom sep k cur s'
      | O =>
          if startsWith sep s
          then cur :: splitFrom sep (String.length sep - 1) "" s'
          else splitFrom sep 0 (cur ++ String c "") s'
      end
  end.

Definition split (sep s : string) : list string := splitFrom sep 0 "" s.

(** [s.split(/[...]/)] for a character class given as a predicate. *)
Fixpoint splitClassFrom (cls : ascii -> bool) (cur s : string)
  : list string :=
  match s with
  | EmptyString => [cur]
  | String c s' =>
      if cls c
      then cur :: splitClassFrom cls "" s'
      else splitClassFrom cls (cur ++ String c "") s'
  end.

Definition splitClass (cls : ascii -> bool) (s : string) : list string :=
  splitClassFrom cls "" s.

(** Truthiness of an optional string: defined and non-empty. *)
Definition truthy (o : option string) : bool :=
  match o with
  | Some (String _ _) => true
  | _ => false
  end.

End JsString.

(** ** The video-id resolver *)

(** The character class of the regular expression [/[?&]/]. *)
Definition queryDelim (c : ascii) : bool :=
  Ascii.eqb c "?" || Ascii.eqb c "&".

(** [url.split(marker)[1]?.split(/[?&]/)[0]]. *)
Definition idAfter (marker url : string) : option string :=
  match nth_error (JsString.split marker url) 1 with
  | Some rest => nth_error (JsString.splitClass queryDelim rest) 0
  | None => None
  end.

(** One of the three [if (url.includes(marker)) { ...; if (id) return id; }]
    blocks: [Some id] when the block returns, [None] when control falls
    through to the next block. *)
Definition tryShape (marker url : string) : option string :=
  if JsString.includes marker url
  then let id := idAfter marker url in
       if JsString.truthy id then id else None
  else None.

Definition getYouTubeId (url fallback : string) : string :=
  match tryShape "embed/" url with
  | Some id => id
  | None =>
      match tryShape "watch?v=" url with
      | Some id => id
      | None =>
          match tryShape "youtu.be/" url with
          | Some id => id
          | None => fallback
          end
      end
  end.

(** *** The resolver as the specification words it *)

Module ResolverSpec.

Fixpoint drop (n : nat) (s : string) : string :=
  match n, s with
  | O, _ => s
  | S _, EmptyString => EmptyString
  | S k, String _ s' => drop k s'
  end.

(** The text that follows the first occurrence of [marker]. *)
Fixpoint textAfter (marker s : string) : option string :=
  if JsString.startsWith marker s
  then Some (drop (String.length marker) s)
  else match s with
       | EmptyString => None
       | String _ s' => textAfter marker s'
       end.

(** The text that precedes the first occurrence of [marker]; all of [s]
    when there is none. *)
Fixpoint textBefore (marker s : string) : string :=
  if JsString.startsWith marker s
  then EmptyString
  else match s with
       | EmptyString => EmptyString
       | String c s' => String c (textBefore marker s')
       end.

(** The substring up to the first ['?'] or ['&']. *)
Fixpoint cutAtDelim (s : string) : string :=
  match s with
  | EmptyString => EmptyString
  | String c s' => if queryDelim c then EmptyString else String c (cutAtDelim s')
  end.

Definition nonEmpty (o : option string) : option string :=
  match o with
  | Some (String c r) => Some (String c r)
  | _ => None
  end.

Definition firstOf (a b c : option string) (fallback : string) : string :=
  match a, b, c with
  | Some id, _, _ => id
  | None, Some id, _ => id
  | None, None, Some id => id
  | None, None, None => fallback
  end.

(** As written: the segment after the marker, cut at the first ['?'] or
    ['&']. *)
Definition segment (marker url : string) : option string :=
  nonEmpty (option_map cutAtDelim (textAfter marker url)).

Definition resolve (url fallbackId : string) : string :=
  firstOf (segment "embed/" url) (segment "watch?v=" url)
          (segment "youtu.be/" url) fallbackId.

(** As the code has it: the segment also ends where the marker occurs
    again. *)
Definition segmentUpToMarker (marker url : string) : option string :=
  nonEmpty (option_map (fun rest => cutAtDelim (textBefore marker rest))
                       (textAfter marker url)).

Definition resolveUpToMarker (url fallbackId : string) : string :=
  firstOf (segmentUpToMarker "embed/" url)
          (segmentUpToMarker "watch?v=" url)
          (segmentUpToMarker "youtu.be/" url) fallbackId.

End ResolverSpec.

(** ** The catalog *)

(** Modelled from the spec: the catalog module [./data/videos], which
    declares the types [VideoItem] and [CategoryGroup] and the constants
    [allVideos] and [categoryGroups], is not among the sources.  The
    records carry the fields [App.tsx] reads, and the two constants are
    carried by the world as its [catalog]. *)
Record Category := {
  category_slug : string;
  category_name : string;
  category_iconUrl : string }.

Record VideoItem := {
  id : string;
  slug : string;
  title : string;
  category : Category;
  mediaType : string;
  mediaUrl : string;
  playbackUrl : string;
  thumbnailUrl : string;
  durationSeconds : Q }.

Record CategoryGroup := {
  group_category : Category;
  contents : list VideoItem }.

Record Catalog := {
  allVideos : list VideoItem;
  categoryGroups : list CategoryGroup }.

(** The catalog is static, one object per item, so that two items are the
    same object ([Object.is]) exactly when they are equal. *)
Definition Q_eq_dec (a b : Q) : {a = b} + {a <> b}.
Proof. decide equality; [apply Pos.eq_dec | apply Z.eq_dec]. Defined.

Definition Category_eq_dec (a b : Category) : {a = b} + {a <> b}.
Proof. decide equality; apply string_dec. Defined.

Definition VideoItem_eq_dec (a b : VideoItem) : {a = b} + {a <> b}.
Proof.
  decide equality;
    first [apply string_dec | apply Q_eq_dec | apply Category_eq_dec].
Defined.

Definition sameVideo (a b : option VideoItem) : bool :=
  match a, b with
  | Some x, Some y => if VideoItem_eq_dec x y then true else false
  | None, None => true
  | _, _ => false
  end.

(** ** The two playback backends *)

(** The [<video>] element behind [videoRef]. *)
Record VideoElement := {
  el_currentTime : Q;
  el_paused : bool }.

Definition freshVideoElement : VideoElement :=
  {| el_currentTime := 0; el_paused := true |}.

(** The object [new window.YT.Player(...)] returns.  Its methods are
    attached only once the remote player is ready ([yt_api]), which is why
    the code calls each one through [?.]; [yt_faulty] says that [seekTo]
    throws. *)
Record YTPlayer := {
  yt_videoId : string;
  yt_time : Q;
  yt_length : Q;
  yt_api : bool;
  yt_faulty : bool }.

(** [window.YT.PlayerState]. *)
Inductive PlayerState := UNSTARTED | ENDED | PLAYING | PAUSED | BUFFERING | CUED.

Inductive Outcome (A : Type) :=
  | Returned (a : A)
  | Threw.
Arguments Returned {A} a.
Arguments Threw {A}.

Module YT.

Definition construct (videoId : string) : YTPlayer :=
  {| yt_videoId := videoId; yt_time := 0; yt_length := 0;
     yt_api := false; yt_faulty := false |}.

(** [player.getCurrentTime?.()] *)
Definition getCurrentTime (p : YTPlayer) : option Q :=
  if yt_api p then Some (yt_time p) else None.

(** [player.getDuration?.()] *)
Definition getDuration (p : YTPlayer) : option Q :=
  if yt_api p then Some (yt_length p) else None.

(** [player.seekTo?.(t, true)] *)
Definition seekTo (t : Q) (p : YTPlayer) : Outcome YTPlayer :=
  if yt_api p
  then if yt_faulty p
       then Threw
       else Returned {| yt_videoId := yt_videoId p; yt_time := t;
                        yt_length := yt_length p; yt_api := true;
                        yt_faulty := false |}
  else Returned p.

(** What the remote player does on its own: it becomes ready, plays on. *)
Definition attach (length : Q) (p : YTPlayer) : YTPlayer :=
  {| yt_videoId := yt_videoId p; yt_time := yt_time p;
     yt_length := length; yt_api := true; yt_faulty := yt_faulty p |}.

Definition progress (t length : Q) (p : YTPlayer) : YTPlayer :=
  {| yt_videoId := yt_videoId p; yt_time := t;
     yt_length := length; yt_api := yt_api p; yt_faulty := yt_faulty p |}.

End YT.

(** ** The component's state *)

Inductive PlayerMode := hidden | full | mini.

Definition PlayerMode_eqb (a b : PlayerMode) : bool :=
  match a, b with
  | hidden, hidden | full, full | mini, mini => true
  | _, _ => false
  end.

Record Countdown := {
  seconds : Z;
  nextVideo : VideoItem }.

(** The [useState] cells.  [pipSupported] and [isPiP] belong to the
    picture-in-picture controller, which nothing below depends on. *)
Record State := {
  activeVideo : option VideoItem;
  playerMode : PlayerMode;
  isPlaying : bool;
  currentTime : Q;
  duration : Q;
  relatedOpen : bool;
  dragOffset : Q;
  isDragging : bool;
  skipIndicator : option string;
  nextCountdown : option Countdown;
  visibleCategoryCount : nat;
  ytReady : bool;
  ytLoaded : bool }.

(** Functional update of one [useState] cell. *)

Definition with_activeVideo (v : option VideoItem) (s : State) : State :=
  Build_State v (playerMode s) (isPlaying s) (currentTime s)
    (duration s) (relatedOpen s) (dragOffset s) (isDragging s)
    (skipIndicator s) (nextCountdown s) (visibleCategoryCount s)
    (ytReady s) (ytLoaded s).

Definition with_playerMode (v : PlayerMode) (s : State) : State :=
  Build_State (activeVideo s) v (isPlaying s) (currentTime s)
    (duration s) (relatedOpen s) (dragOffset s) (isDragging s)
    (skipIndicator s) (nextCountdown s) (visibleCategoryCount s)
    (ytReady s) (ytLoaded s).

Definition with_isPlaying (v : bool) (s : State) : State :=
  Build_State (activeVideo s) (playerMode s) v (currentTime s)
    (duration s) (relatedOpen s) (dragOffset s) (isDragging s)
    (skipIndicator s) (nextCountdown s) (visibleCategoryCount s)
    (ytReady s) (ytLoaded s).

Definition with_currentTime (v : Q) (s : State) : State :=
  Build_State (activeVideo s) (playerMode s) (isPlaying s) v
    (duration s) (relatedOpen s) (dragOffset s) (isDragging s)
    (skipIndicator s) (nextCountdown s) (visibleCategoryCount s)
    (ytReady s) (ytLoaded s).

Definition with_duration (v : Q) (s : State) : State :=
  Build_State (activeVideo s) (playerMode s) (isPlaying s)
    (currentTime s) v (relatedOpen s) (dragOffset s) (isDragging s)
    (skipIndicator s) (nextCountdown s) (visibleCategoryCount s)
    (ytReady s) (ytLoaded s).

Definition with_relatedOpen (v : bool) (s : State) : State :=
  Build_State (activeVideo s) (playerMode s) (isPlaying s)
    (currentTime s) (duration s) v (dragOffset s) (isDragging s)
    (skipIndicator s) (nextCountdown s) (visibleCategoryCount s)
    (ytReady s) (ytLoaded s).

Definition with_dragOffset (v : Q) (s : State) : State :=
  Build_State (activeVideo s) (playerMode s) (isPlaying s)
    (currentTime s) (duration s) (relatedOpen s) v (isDragging s)
    (skipIndicator s) (nextCountdown s) (visibleCategoryCount s)
    (ytReady s) (ytLoaded s).

Definition with_isDragging (v : bool) (s : State) : State :=
  Build_State (activeVideo s) (playerMode s) (isPlaying s)
    (currentTime s) (duration s) (relatedOpen s) (dragOffset s) v
    (skipIndicator s) (nextCountdown s) (visibleCategoryCount s)
    (ytReady s) (ytLoaded s).

Definition with_skipIndicator (v : option string) (s : State) : State :=
  Build_State (activeVideo s) (playerMode s) (isPlaying s)
    (currentTime s) (duration s) (relatedOpen s) (dragOffset s)
    (isDragging s) v (nextCountdown s) (visibleCategoryCount s)
    (ytReady s) (ytLoaded s).

Definition with_nextCountdown (v : option Countdown) (s : State) : State :=
  Build_State (activeVideo s) (playerMode s) (isPlaying s)
    (currentTime s) (duration s) (relatedOpen s) (dragOffset s)
    (isDragging s) (skipIndicator s) v (visibleCategoryCount s)
    (ytReady s) (ytLoaded s).

Definition with_visibleCategoryCount (v : nat) (s : State) : State :=
  Build_State (activeVideo s) (playerMode s) (isPlaying s)
    (currentTime s) (duration s) (relatedOpen s) (dragOffset s)
    (isDragging s) (skipIndicator s) (nextCountdown s) v (ytReady s)
    (ytLoaded s).

Definition with_ytReady (v : bool) (s : State) : State :=
  Build_State (activeVideo s) (playerMode s) (isPlaying s)
    (currentTime s) (duration s) (relatedOpen s) (dragOffset s)
    (isDragging s) (skipIndicator s) (nextCountdown s)
    (visibleCategoryCount s) v (ytLoaded s).

Definition with_ytLoaded (v : bool) (s : State) : State :=
  Build_State (activeVideo s) (playerMode s) (isPlaying s)
    (currentTime s) (duration s) (relatedOpen s) (dragOffset s)
    (isDragging s) (skipIndicator s) (nextCountdown s)
    (visibleCategoryCount s) (ytReady s) v.

(** The refs: [ytWrapperRef] and [sentinelRef] point to elements that are
    mounted exactly when their JSX condition holds and carry no data. *)
Record Refs := {
  videoRef : option VideoElement;
  ytPlayerRef : option YTPlayer;
  dragStartY : Q;
  touchStartY : Q }.

Inductive TimerAction :=
  | ClearActiveVideo     (* () => setActiveVideo(null) *)
  | ClearSkipIndicator   (* () => setSkipIndicator(null) *)
  | CountdownTick.       (* the countdown effect's callback *)

Record Timer := {
  timer_id : nat;
  due : Z;
  action : TimerAction }.

(** The component together with what surrounds it: the catalog, the pending
    [window.setTimeout] callbacks and the clock (in milliseconds),
    [window.innerHeight], and what React keeps for the countdown effect: the
    [timeout] its cleanup clears, and whether [nextCountdown] was given a
    new object since the effect last ran. *)
Record World := {
  catalog : Catalog;
  state : State;
  refs : Refs;
  timers : list Timer;
  nextTimerId : nat;
  now : Z;
  innerHeight : Q;
  countdownTimeout : option nat;
  countdownChanged : bool }.

Definition onState (f : State -> State) (w : World) : World :=
  {| catalog := catalog w; state := f (state w); refs := refs w;
     timers := timers w; nextTimerId := nextTimerId w; now := now w;
     innerHeight := innerHeight w;
     countdownTimeout := countdownTimeout w;
     countdownChanged := countdownChanged w |}.

Definition onRefs (f : Refs -> Refs) (w : World) : World :=
  {| catalog := catalog w; state := state w; refs := f (refs w);
     timers := timers w; nextTimerId := nextTimerId w; now := now w;
     innerHeight := innerHeight w;
     countdownTimeout := countdownTimeout w;
     countdownChanged := countdownChanged w |}.

Definition with_videoRef (v : option VideoElement) (r : Refs) : Refs :=
  {| videoRef := v; ytPlayerRef := ytPlayerRef r;
     dragStartY := dragStartY r; touchStartY := touchStartY r |}.

Definition with_ytPlayerRef (v : option YTPlayer) (r : Refs) : Refs :=
  {| videoRef := videoRef r; ytPlayerRef := v;
     dragStartY := dragStartY r; touchStartY := touchStartY r |}.

Definition with_dragStartY (v : Q) (r : Refs) : Refs :=
  {| videoRef := videoRef r; ytPlayerRef := ytPlayerRef r;
     dragStartY := v; touchStartY := touchStartY r |}.

Definition with_touchStartY (v : Q) (r : Refs) : Refs :=
  {| videoRef := videoRef r; ytPlayerRef := ytPlayerRef r;
     dragStartY := dragStartY r; touchStartY := v |}.

(** *** Timers *)

(** [window.setTimeout(action, delay)]; the handle it returns is the
    [nextTimerId] of the world it is called in. *)
Definition setTimeout (a : TimerAction) (delay : Z) (w : World) : World :=
  {| catalog := catalog w; state := state w; refs := refs w;
     timers := timers w ++
               [{| timer_id := nextTimerId w; due := (now w + delay)%Z;
                   action := a |}];
     nextTimerId := S (nextTimerId w); now := now w;
     innerHeight := innerHeight w;
     countdownTimeout := countdownTimeout w;
     countdownChanged := countdownChanged w |}.

(** [window.clearTimeout(handle)] *)
Definition clearTimeout (handle : nat) (w : World) : World :=
  {| catalog := catalog w; state := state w; refs := refs w;
     timers := filter (fun t => negb (Nat.eqb (timer_id t) handle)) (timers w);
     nextTimerId := nextTimerId w; now := now w;
     innerHeight := innerHeight w;
     countdownTimeout := countdownTimeout w;
     countdownChanged := countdownChanged w |}.

Definition withCountdownEffect (handle : option nat) (changed : bool)
  (w : World) : World :=
  {| catalog := catalog w; state := state w; refs := refs w;
     timers := timers w; nextTimerId := nextTimerId w; now := now w;
     innerHeight := innerHeight w;
     countdownTimeout := handle;
     countdownChanged := changed |}.

Definition withNow (t : Z) (w : World) : World :=
  {| catalog := catalog w; state := state w; refs := refs w;
     timers := timers w; nextTimerId := nextTimerId w; now := t;
     innerHeight := innerHeight w;
     countdownTimeout := countdownTimeout w;
     countdownChanged := countdownChanged w |}.

(** *** The state setters *)

Definition setActiveVideo v := onState (with_activeVideo v).
Definition setPlayerMode v := onState (with_playerMode v).
Definition setIsPlaying v := onState (with_isPlaying v).
Definition setCurrentTime v := onState (with_currentTime v).
Definition setDuration v := onState (with_duration v).
Definition setRelatedOpen v := onState (with_relatedOpen v).
Definition setDragOffset v := onState (with_dragOffset v).
Definition setIsDragging v := onState (with_isDragging v).
Definition setSkipIndicator v := onState (with_skipIndicator v).
Definition setVisibleCategoryCount v := onState (with_visibleCategoryCount v).
Definition setYtReady v := onState (with_ytReady v).
Definition setYtLoaded v := onState (with_ytLoaded v).

(** [setNextCountdown(v)]: a countdown object is a new object each time,
    so the effect that depends on [nextCountdown] runs again unless [null]
    replaces [null]. *)
Definition setNextCountdown (v : option Countdown) (w : World) : World :=
  let changed :=
    match v, nextCountdown (state w) with
    | None, None => countdownChanged w
    | _, _ => true
    end in
  withCountdownEffect (countdownTimeout w) changed
    (onState (with_nextCountdown v) w).

(** *** Values derived at render *)

Definition isYouTube (s : State) : bool :=
  match activeVideo s with
  | Some v => String.eqb (mediaType v) "YOUTUBE"
  | None => false
  end.

Definition ytControlsDisabled (s : State) : bool :=
  isYouTube s && negb (ytLoaded s).

Definition relatedVideos (w : World) : list VideoItem :=
  match activeVideo (state w) with
  | None => []
  | Some active =>
      filter (fun video =>
                String.eqb (category_slug (category video))
                           (category_slug (category active)))
             (allVideos (catalog w))
  end.

(** The sentinel's JSX condition. *)
Definition sentinelRendered (w : World) : bool :=
  Nat.ltb (visibleCategoryCount (state w))
          (List.length (categoryGroups (catalog w))).

(** The guard [isYouTube && ytPlayerRef.current && ytLoaded] of
    [togglePlay], [skipBy] and [handleSeek]. *)
Definition embeddedPlayer (w : World) : option YTPlayer :=
  if isYouTube (state w)
  then match ytPlayerRef (refs w) with
       | Some player => if ytLoaded (state w) then Some player else None
       | None => None
       end
  else None.

(** ** The handlers *)

Definition playVideo (video : VideoItem) (w : World) : World :=
  let w := setActiveVideo (Some video) w in
  let w := setPlayerMode full w in
  let w := setRelatedOpen false w in
  let w := setCurrentTime 0 w in
  let w := setDuration 0 w in
  let w := setYtLoaded false w in
  setNextCountdown None w.

Definition closePlayer (w : World) : World :=
  let w := setPlayerMode hidden w in
  let w := setRelatedOpen false w in
  let w := setNextCountdown None w in
  setTimeout ClearActiveVideo 220 w.

(** [video.play()] and [video.pause()] called from a click. *)
Definition play (video : VideoElement) : VideoElement :=
  {| el_currentTime := el_currentTime video; el_paused := false |}.

Definition pause (video : VideoElement) : VideoElement :=
  {| el_currentTime := el_currentTime video; el_paused := true |}.

(** [video.currentTime = t] *)
Definition seek (t : Q) (video : VideoElement) : VideoElement :=
  {| el_currentTime := t; el_paused := el_paused video |}.

(** The commands [pauseVideo?.()] and [playVideo?.()] go to the remote
    player and change nothing the component reads back. *)
Definition togglePlay (w : World) : World :=
  match embeddedPlayer w with
  | Some _ =>
      if isPlaying (state w)
      then setIsPlaying false w
      else setIsPlaying true w
  | None =>
      match videoRef (refs w) with
      | None => w
      | Some video =>
          if el_paused video
          then setIsPlaying true
                 (onRefs (with_videoRef (Some (play video))) w)
          else setIsPlaying false
                 (onRefs (with_videoRef (Some (pause video))) w)
      end
  end.

(** [amount > 0 ? "+10s" : "-10s"] *)
Definition skipLabel (amount : Q) : string :=
  if Js.gt amount 0 then "+10s" else "-10s".

Definition skipBy (amount : Q) (w : World) : World :=
  let s := state w in
  match embeddedPlayer w with
  | Some player =>
      let current := Js.orNum (YT.getCurrentTime player) 0 in
      let total :=
        Js.orNum
          (Js.or (Js.or (YT.getDuration player) (Some (duration s)))
                 (option_map durationSeconds (activeVideo s)))
          0 in
      if Qeq_bool total 0 then w else
      let nextTime := Js.min (Js.max 0 (current + amount)) total in
      match YT.seekTo nextTime player with
      | Threw => w
      | Returned player' =>
          let w := onRefs (with_ytPlayerRef (Some player')) w in
          let w := setCurrentTime nextTime w in
          let w := setSkipIndicator (Some (skipLabel amount)) w in
          setTimeout ClearSkipIndicator 450 w
      end
  | None =>
      match videoRef (refs w) with
      | None => w
      | Some video =>
          let target :=
            Js.min
              (Js.max 0 (el_currentTime video + amount))
              (Js.orNum
                 (Js.or (Some (duration s))
                        (option_map durationSeconds (activeVideo s)))
                 0) in
          let w := onRefs (with_videoRef (Some (seek target video))) w in
          let w := setSkipIndicator (Some (skipLabel amount)) w in
          setTimeout ClearSkipIndicator 450 w
      end
  end.

Definition handleSeek (value : Q) (w : World) : World :=
  match embeddedPlayer w with
  | Some player =>
      match YT.seekTo value player with
      | Threw => w
      | Returned player' =>
          setCurrentTime value
            (onRefs (with_ytPlayerRef (Some player')) w)
      end
  | None =>
      match videoRef (refs w) with
      | None => w
      | Some video =>
          setCurrentTime value
            (onRefs (with_videoRef (Some (seek value video))) w)
      end
  end.

(** [noDrag] is [target.closest("[data-no-drag]")]. *)
Definition handlePlayerPointerDown (clientY : Q) (noDrag : bool)
  (w : World) : World :=
  if negb (PlayerMode_eqb (playerMode (state w)) full) then w else
  if noDrag then w else
  let w := setIsDragging true w in
  onRefs (with_dragStartY clientY) w.

Definition handlePlayerPointerMove (clientY : Q) (w : World) : World :=
  if negb (isDragging (state w)) then w else
  let delta := clientY - dragStartY (refs w) in
  setDragOffset (Js.max 0 delta) w.

Definition handlePlayerPointerUp (w : World) : World :=
  if negb (isDragging (state w)) then w else
  let committed := Js.gt (dragOffset (state w)) (innerHeight w * (22 # 100)) in
  let w := setIsDragging false w in
  let w := if committed
           then setRelatedOpen false (setPlayerMode mini w)
           else w in
  setDragOffset 0 w.

Definition handleWheel (deltaY : Q) (w : World) : World :=
  if negb (PlayerMode_eqb (playerMode (state w)) full) then w else
  let opened := relatedOpen (state w) in
  let w := if Js.gt deltaY 20 && negb opened
           then setRelatedOpen true w else w in
  if Js.lt deltaY (-20) && opened then setRelatedOpen false w else w.

(** [clientY] is [event.touches[0]?.clientY]. *)
Definition handleTouchStart (clientY : option Q) (w : World) : World :=
  onRefs (with_touchStartY (Js.nullish clientY 0)) w.

(** [clientY] is [event.changedTouches[0]?.clientY]. *)
Definition handleTouchEnd (clientY : option Q) (w : World) : World :=
  let endY := Js.nullish clientY 0 in
  let delta := touchStartY (refs w) - endY in
  let w := if Js.gt delta 50 then setRelatedOpen true w else w in
  if Js.lt delta (-50) then setRelatedOpen false w else w.

Definition handleVideoEnded (w : World) : World :=
  match activeVideo (state w) with
  | None => w
  | Some active =>
      let related := relatedVideos w in
      if Nat.ltb (List.length related) 2 then w else
      let currentIndex :=
        Js.findIndex (fun video => String.eqb (id video) (id active))
                     related in
      let nextVideo :=
        nth (Z.to_nat (Z.rem (currentIndex + 1)
                             (Z.of_nat (List.length related))))
            related active in
      setNextCountdown (Some {| seconds := 2; nextVideo := nextVideo |}) w
  end.

Definition handleMiniRestore (w : World) : World := setPlayerMode full w.

Definition handleMiniClose (w : World) : World := closePlayer w.

Definition handleMiniToggle (w : World) : World := togglePlay w.

(** *** Callbacks of the backends, the observer and the timers *)

(** The [IntersectionObserver] callback; [isIntersecting] is
    [entries[0]?.isIntersecting]. *)
Definition onIntersection (isIntersecting : option bool) (w : World)
  : World :=
  match isIntersecting with
  | Some true =>
      let prev := visibleCategoryCount (state w) in
      setVisibleCategoryCount
        (Nat.min (prev + 1) (List.length (categoryGroups (catalog w)))) w
  | _ => w
  end.

(** [events.onReady] of the embedded player. *)
Definition onReady (w : World) : World :=
  let length :=
    match ytPlayerRef (refs w) with
    | Some player => YT.getDuration player
    | None => None
    end in
  let w := setDuration (Js.orNum length 0) w in
  let w := setCurrentTime 0 w in
  let w := setIsPlaying true w in
  setYtLoaded true w.

(** [events.onStateChange] of the embedded player. *)
Definition onStateChange (data : PlayerState) (w : World) : World :=
  match data with
  | PLAYING => setYtLoaded true (setIsPlaying true w)
  | PAUSED => setIsPlaying false w
  | ENDED => handleVideoEnded (setIsPlaying false w)
  | _ => w
  end.

(** The callback of the 500 ms polling interval. *)
Definition onPoll (w : World) : World :=
  match ytPlayerRef (refs w) with
  | None => w
  | Some player =>
      match YT.getCurrentTime player with
      | None => w
      | Some time =>
          let total :=
            Js.orNum (YT.getDuration player) (duration (state w)) in
          let w := setCurrentTime time w in
          if Qeq_bool total 0 then w else setDuration total w
      end
  end.

(** The callback the countdown effect schedules. *)
Definition countdownTick (w : World) : World :=
  match nextCountdown (state w) with
  | Some prev =>
      setNextCountdown
        (Some {| seconds := seconds prev - 1;
                 nextVideo := nextVideo prev |}) w
  | None => w
  end.

Definition fire (a : TimerAction) (w : World) : World :=
  match a with
  | ClearActiveVideo => setActiveVideo None w
  | ClearSkipIndicator => setSkipIndicator None w
  | CountdownTick => countdownTick w
  end.

Definition timerFires (handle : nat) (w : World) : World :=
  match find (fun t => Nat.eqb (timer_id t) handle) (timers w) with
  | Some t => fire (action t) (clearTimeout handle w)
  | None => w
  end.

(** ** Rendering and effects *)

(** Mounting and unmounting of the [<video>] element: it is rendered for
    an active item that is not a YouTube one, and React keeps the same
    element from one render to the next. *)
Definition render (w : World) : World :=
  let s := state w in
  let video :=
    match activeVideo s with
    | Some _ =>
        if isYouTube s then None
        else match videoRef (refs w) with
             | Some el => Some el
             | None => Some freshVideoElement
             end
    | None => None
    end in
  onRefs (with_videoRef video) w.

(** Each effect compares its dependencies in the render [cur] with those
    of the render before, [prev], reads state from [cur], and writes to
    the world [acc] that the effects of one pass build up. *)

(** [useEffect(..., [activeVideo, isYouTube])]: start the native video.
    Whether [video.play()] succeeds is reported later. *)
Definition autoplayEffect (prev cur acc : World) : World :=
  if sameVideo (activeVideo (state prev)) (activeVideo (state cur))
     && Bool.eqb (isYouTube (state prev)) (isYouTube (state cur))
  then acc
  else
    match activeVideo (state cur) with
    | None => acc
    | Some _ =>
        if isYouTube (state cur) then acc
        else match videoRef (refs acc) with
             | None => acc
             | Some video =>
                 onRefs (with_videoRef (Some (seek 0 video))) acc
             end
    end.

(** [useEffect(..., [nextCountdown])]: first the cleanup of its previous
    run, then its body. *)
Definition countdownEffect (cur acc : World) : World :=
  if negb (countdownChanged cur) then acc else
  let acc :=
    match countdownTimeout acc with
    | Some timeout => clearTimeout timeout acc
    | None => acc
    end in
  let acc := withCountdownEffect None false acc in
  match nextCountdown (state cur) with
  | None => acc
  | Some countdown =>
      if (seconds countdown <=? 0)%Z
      then setNextCountdown None (playVideo (nextVideo countdown) acc)
      else
        let timeout := nextTimerId acc in
        withCountdownEffect (Some timeout) false
          (setTimeout CountdownTick 1000 acc)
  end.

(** [useEffect(..., [activeVideo, isYouTube, ytReady])]: replace the
    embedded player.  [ytReady] is set only once [window.YT.Player]
    exists, and the wrapper is mounted for an active YouTube item. *)
Definition youtubeEffect (prev cur acc : World) : World :=
  if sameVideo (activeVideo (state prev)) (activeVideo (state cur))
     && Bool.eqb (isYouTube (state prev)) (isYouTube (state cur))
     && Bool.eqb (ytReady (state prev)) (ytReady (state cur))
  then acc
  else
    match activeVideo (state cur) with
    | None => acc
    | Some active =>
        if isYouTube (state cur) && ytReady (state cur)
        then
          let videoId := getYouTubeId (mediaUrl active) (slug active) in
          onRefs (with_ytPlayerRef (Some (YT.construct videoId))) acc
        else acc
    end.

(** One render followed by its effects, in the order of declaration. *)
Definition pass (prev cur : World) : World :=
  let r := render cur in
  let acc := autoplayEffect prev r r in
  let acc := countdownEffect r acc in
  youtubeEffect prev r acc.

(** State set by an effect causes one more render; a second pass reaches
    a state that a third would leave as it is. *)
Definition commit (prev cur : World) : World :=
  pass (render cur) (pass prev cur).

(** ** Events *)

Inductive Event :=
  | ClickCard (video : VideoItem)
  | ClickSheetItem (video : VideoItem)
  | ClickClose
  | ClickSkipBack
  | ClickSkipForward
  | ClickTogglePlay
  | ChangeProgress (value : Q)
  | ClickCancelNext
  | PointerDown (clientY : Q) (noDrag : bool)
  | PointerMove (clientY : Q)
  | PointerUp
  | PointerCancel
  | Wheel (deltaY : Q)
  | TouchStart (clientY : option Q)
  | TouchEnd (clientY : option Q)
  | ClickMini
  | ClickMiniToggle
  | ClickMiniClose
  | VideoTimeUpdate (time : Q)
  | VideoLoadedMetadata (length : Q)
  | VideoPlay
  | VideoPause
  | VideoEnded
  | PlaySettled (started : bool)
  | YouTubeIframeAPIReady
  | YtReady (length : Q)
  | YtStateChange (data : PlayerState)
  | YtProgress (time length : Q)
  | YtPoll
  | Intersection (isIntersecting : option bool)
  | TimerFires (handle : nat).

(** The JSX conditions under which the element that receives an event is
    on the page. *)
Definition shellRendered (w : World) : bool :=
  match activeVideo (state w) with
  | Some _ => true
  | None => false
  end.

Definition inFull (w : World) : bool :=
  shellRendered w && PlayerMode_eqb (playerMode (state w)) full.

Definition inMini (w : World) : bool :=
  shellRendered w && PlayerMode_eqb (playerMode (state w)) mini.

Definition controlsUsable (w : World) : bool :=
  shellRendered w && negb (ytControlsDisabled (state w)).

Definition listed (video : VideoItem) (l : list VideoItem) : bool :=
  existsb (fun v => sameVideo (Some v) (Some video)) l.

Definition cardRendered (video : VideoItem) (w : World) : bool :=
  existsb (fun group => listed video (contents group))
          (firstn (visibleCategoryCount (state w))
                  (categoryGroups (catalog w))).

Definition embedOnPage (w : World) : bool :=
  isYouTube (state w) &&
  match ytPlayerRef (refs w) with
  | Some _ => true
  | None => false
  end.

Definition guarded (condition : bool) (f : World -> World) (w : World)
  : World :=
  if condition then f w else w.

(** What the handler bound to an event does; an event whose element is
    not rendered, or is disabled, reaches no handler. *)
Definition handle (e : Event) (w : World) : World :=
  match e with
  | ClickCard video => guarded (cardRendered video w) (playVideo video) w
  | ClickSheetItem video =>
      guarded (inFull w && listed video (relatedVideos w))
              (playVideo video) w
  | ClickClose => guarded (inFull w) closePlayer w
  | ClickSkipBack => guarded (controlsUsable w) (skipBy (-10)) w
  | ClickSkipForward => guarded (controlsUsable w) (skipBy 10) w
  | ClickTogglePlay => guarded (controlsUsable w) togglePlay w
  | ChangeProgress value => guarded (inFull w) (handleSeek value) w
  | ClickCancelNext =>
      guarded (inFull w &&
               match nextCountdown (state w) with
               | Some _ => true
               | None => false
               end)
              (setNextCountdown None) w
  | PointerDown clientY noDrag =>
      guarded (shellRendered w) (handlePlayerPointerDown clientY noDrag) w
  | PointerMove clientY =>
      guarded (shellRendered w) (handlePlayerPointerMove clientY) w
  | PointerUp => guarded (shellRendered w) handlePlayerPointerUp w
  | PointerCancel => guarded (shellRendered w) handlePlayerPointerUp w
  | Wheel deltaY => guarded (shellRendered w) (handleWheel deltaY) w
  | TouchStart clientY =>
      guarded (shellRendered w) (handleTouchStart clientY) w
  | TouchEnd clientY =>
      guarded (shellRendered w) (handleTouchEnd clientY) w
  | ClickMini => guarded (inMini w) handleMiniRestore w
  | ClickMiniToggle => guarded (inMini w) handleMiniToggle w
  | ClickMiniClose => guarded (inMini w) handleMiniClose w
  | VideoTimeUpdate time =>
      match videoRef (refs w) with
      | Some video =>
          setCurrentTime time
            (onRefs (with_videoRef (Some (seek time video))) w)
      | None => w
      end
  | VideoLoadedMetadata length =>
      match videoRef (refs w) with
      | Some _ => setDuration length w
      | None => w
      end
  | VideoPlay =>
      match videoRef (refs w) with
      | Some video =>
          setIsPlaying true (onRefs (with_videoRef (Some (play video))) w)
      | None => w
      end
  | VideoPause =>
      match videoRef (refs w) with
      | Some video =>
          setIsPlaying false (onRefs (with_videoRef (Some (pause video))) w)
      | None => w
      end
  | VideoEnded =>
      match videoRef (refs w) with
      | Some _ => handleVideoEnded w
      | None => w
      end
  | PlaySettled started =>
      match videoRef (refs w) with
      | Some video =>
          setIsPlaying started
            (onRefs (with_videoRef
                       (Some (if started then play video else video))) w)
      | None => w
      end
  | YouTubeIframeAPIReady => setYtReady true w
  | YtReady length =>
      guarded (embedOnPage w)
        (fun w =>
           onReady (onRefs (with_ytPlayerRef
                              (option_map (YT.attach length)
                                          (ytPlayerRef (refs w)))) w)) w
  | YtStateChange data => guarded (embedOnPage w) (onStateChange data) w
  | YtProgress time length =>
      guarded (embedOnPage w)
        (onRefs (with_ytPlayerRef
                   (option_map (YT.progress time length)
                               (ytPlayerRef (refs w))))) w
  | YtPoll => guarded (embedOnPage w) onPoll w
  | Intersection isIntersecting =>
      guarded (sentinelRendered w) (onIntersection isIntersecting) w
  | TimerFires handle => timerFires handle w
  end.

Definition dispatch (e : Event) (w : World) : World :=
  commit w (handle e w).

(** *** The clock *)

Definition dueHandles (w : World) : list nat :=
  map timer_id (filter (fun t => (due t <=? now w)%Z) (timers w)).

(** One millisecond passes and the timers that are due fire, oldest
    first, each as a task of its own. *)
Definition fireAll (handles : list nat) (w : World) : World :=
  fold_left (fun acc handle => dispatch (TimerFires handle) acc) handles w.

Definition tick (w : World) : World :=
  let w := withNow (now w + 1)%Z w in
  fireAll (dueHandles w) w.

Definition elapse (ms : nat) (w : World) : World := Nat.iter ms tick w.

(** *** The first render *)

(** [apiLoaded] says whether [window.YT.Player] exists when the component
    mounts, which is what the script-loading effect tests. *)
Definition initial (c : Catalog) (viewportHeight : Q) (apiLoaded : bool)
  : World :=
  {| catalog := c;
     state :=
       {| activeVideo := None; playerMode := hidden; isPlaying := false;
          currentTime := 0; duration := 0; relatedOpen := false;
          dragOffset := 0; isDragging := false; skipIndicator := None;
          nextCountdown := None; visibleCategoryCount := 2;
          ytReady := apiLoaded; ytLoaded := false |};
     refs := {| videoRef := None; ytPlayerRef := None;
                dragStartY := 0; touchStartY := 0 |};
     timers := []; nextTimerId := 0; now := 0;
     innerHeight := viewportHeight;
     countdownTimeout := None; countdownChanged := false |}.

(** *** Runs *)

(** What can happen next: an event, or a millisecond passing. *)
Inductive Input :=
  | Happens (e : Event)
  | Millisecond.

Definition advance (i : Input) (w : World) : World :=
  match i with
  | Happens e => dispatch e w
  | Millisecond => tick w
  end.

Definition feed (inputs : list Input) (w : World) : World :=
  fold_left (fun acc i => advance i acc) inputs w.

(** A world is reachable when inputs lead to it from a first render. *)
Inductive Reachable (c : Catalog) (h : Q) (api : bool) : World -> Prop :=
  | ReachInitial : Reachable c h api (initial c h api)
  | ReachAdvance (w : World) (i : Input) :
      Reachable c h api w -> Reachable c h api (advance i w).

(** What [playVideo] does to the [useState] cells. *)
Definition opened (video : VideoItem) (s : State) : State :=
  with_nextCountdown None
    (with_ytLoaded false
       (with_duration 0
          (with_currentTime 0
             (with_relatedOpen false
                (with_playerMode full
                   (with_activeVideo (Some video) s)))))).

(** A world is settled when the effects have nothing left to do: the
    countdown effect has seen the current [nextCountdown]. *)
Definition settled (w : World) : Prop := countdownChanged w = false.

(** The [<video>] element is mounted exactly for a native item. *)
Definition mounted (w : World) : Prop :=
  match activeVideo (state w) with
  | Some _ => if isYouTube (state w)
              then videoRef (refs w) = None
              else videoRef (refs w) <> None
  | None => videoRef (refs w) = None
  end.

(** The two halves of the countdown effect: the cleanup of its previous
    run, and the arming of the timer. *)
Definition cleanup (w : World) : World :=
  withCountdownEffect None false
    match countdownTimeout w with
    | Some timeout => clearTimeout timeout w
    | None => w
    end.

Definition arm (w : World) : World :=
  withCountdownEffect (Some (nextTimerId w)) false
    (setTimeout CountdownTick 1000 w).

(** What the effect does when the countdown has reached zero, as one
    step: cleanup, [playVideo], [setNextCountdown(null)], and the run of
    the effect that this causes. *)
Definition reopen (video : VideoItem) (w : World) : World :=
  withCountdownEffect None false
    (setNextCountdown None (playVideo video (cleanup w))).

Definition isCountdownTimer (t : Timer) : bool :=
  match action t with
  | CountdownTick => true
  | _ => false
  end.

Definition isTeardownTimer (t : Timer) : bool :=
  match action t with
  | ClearActiveVideo => true
  | _ => false
  end.

(** The handles of the pending timers are distinct and were issued by
    [setTimeout]. *)
Definition handlesIssued (w : World) : Prop :=
  NoDup (map timer_id (timers w))
  /\ forall t, In t (timers w) -> (timer_id t < nextTimerId w)%nat.

(** The only countdown timer that can be pending is the one whose handle
    the countdown effect keeps for its cleanup. *)
Definition timersSound (w : World) : Prop :=
  handlesIssued w
  /\ forall t,
      In t (timers w) -> isCountdownTimer t = true ->
      countdownTimeout w = Some (timer_id t).

(** The countdown is running: it shows [n] seconds, the effect has seen
    it, and the effect's timer, with handle [handle], is pending and due
    at [at_]. *)
Definition counting (handle : nat) (n : Z) (next : VideoItem) (at_ : Z)
  (w : World) : Prop :=
  nextCountdown (state w) = Some {| seconds := n; nextVideo := next |}
  /\ countdownChanged w = false
  /\ timersSound w
  /\ countdownTimeout w = Some handle
  /\ In {| timer_id := handle; due := at_; action := CountdownTick |}
        (timers w).

(** The countdown is over: no countdown and no countdown timer. *)
Definition counted (w : World) : Prop :=
  nextCountdown (state w) = None
  /\ countdownChanged w = false
  /\ forall t, In t (timers w) -> isCountdownTimer t = false.

(** No teardown scheduled by [closePlayer] is pending. *)
Definition noTeardown (w : World) : Prop :=
  forall t, In t (timers w) -> isTeardownTimer t = false.

(** ** Notions of the specification *)

(** Two catalog items share a category. *)
Definition sameCategory (a b : VideoItem) : Prop :=
  category_slug (category a) = category_slug (category b).

(** The position [findIndex] looks for: the first item with this id. *)
Definition hasId (active : VideoItem) (video : VideoItem) : bool :=
  String.eqb (id video) (id active).

(** [clamp(x, lo, hi)]. *)
Definition clamp (x lo hi : Q) : Q :=
  if Js.lt x lo then lo else if Js.gt x hi then hi else x.

(** The duration a skip on the native backend is bounded by: that of the
    session once the metadata have set it, before that the catalog's. *)
Definition sessionDuration (w : World) : Q :=
  if Qeq_bool (duration (state w)) 0
  then match activeVideo (state w) with
       | Some active => durationSeconds active
       | None => 0
       end
  else duration (state w).

(** On the embedded backend the duration the player reports comes first. *)
Definition reportedDuration (player : YTPlayer) (w : World) : Q :=
  if yt_api player && negb (Qeq_bool (yt_length player) 0)
  then yt_length player
  else sessionDuration w.

(** Whether the embedded player has announced [PLAYING] among the inputs. *)
Definition announcesPlaying (i : Input) : bool :=
  match i with
  | Happens (YtStateChange PLAYING) => true
  | _ => false
  end.

Definition announcesReady (i : Input) : bool :=
  match i with
  | Happens (YtReady _) => true
  | _ => false
  end.

(** An input that announces neither. *)
Definition silent (i : Input) : bool :=
  negb (announcesReady i || announcesPlaying i).

(** ** A small catalog to run the model on *)

Module Demo.

Definition dinosaurs : Category :=
  {| category_slug := "dinosaurs"; category_name := "Dinosaurs";
     category_iconUrl := "dino.png" |}.

Definition oceans : Category :=
  {| category_slug := "oceans"; category_name := "Oceans";
     category_iconUrl := "ocean.png" |}.

Definition rex : VideoItem :=
  {| id := "v1"; slug := "rex"; title := "Rex"; category := dinosaurs;
     mediaType := "MP4"; mediaUrl := "https://cdn.example/rex.mp4";
     playbackUrl := "https://cdn.example/rex.mp4";
     thumbnailUrl := "rex.jpg"; durationSeconds := 100 |}.

Definition raptor : VideoItem :=
  {| id := "v2"; slug := "raptor"; title := "Raptor";
     category := dinosaurs; mediaType := "YOUTUBE";
     mediaUrl := "https://www.youtube.com/embed/abc123?x=1";
     playbackUrl := ""; thumbnailUrl := "raptor.jpg";
     durationSeconds := 60 |}.

Definition whale : VideoItem :=
  {| id := "v3"; slug := "whale"; title := "Whale"; category := oceans;
     mediaType := "MP4"; mediaUrl := "https://cdn.example/whale.mp4";
     playbackUrl := "https://cdn.example/whale.mp4";
     thumbnailUrl := "whale.jpg"; durationSeconds := 30 |}.

(** A live stream: the catalog knows no duration for it. *)
Definition reef : VideoItem :=
  {| id := "v4"; slug := "reef"; title := "Reef, live";
     category := oceans; mediaType := "YOUTUBE";
     mediaUrl := "https://youtu.be/qrs456";
     playbackUrl := ""; thumbnailUrl := "reef.jpg";
     durationSeconds := 0 |}.

Definition space : Category :=
  {| category_slug := "space"; category_name := "Space";
     category_iconUrl := "space.png" |}.

Definition comet : VideoItem :=
  {| id := "v5"; slug := "comet"; title := "Comet"; category := space;
     mediaType := "MP4"; mediaUrl := "https://cdn.example/comet.mp4";
     playbackUrl := "https://cdn.example/comet.mp4";
     thumbnailUrl := "comet.jpg"; durationSeconds := 45 |}.

Definition shelf : Catalog :=
  {| allVideos := [rex; raptor; whale; reef; comet];
     categoryGroups :=
       [ {| group_category := dinosaurs; contents := [rex; raptor] |};
         {| group_category := oceans; contents := [whale; reef] |};
         {| group_category := space; contents := [comet] |} ] |}.

(** A catalog with a single category. *)
Definition single : Catalog :=
  {| allVideos := [whale];
     categoryGroups :=
       [ {| group_category := oceans; contents := [whale] |} ] |}.

Definition start : World := initial shelf 1000 true.

(** Rex is open and full screen. *)
Definition watchingRex : World := feed [Happens (ClickCard rex)] start.

(** Raptor is open and its embedded player has been constructed. *)
Definition watchingRaptor : World :=
  feed [Happens (ClickCard raptor)] start.

(** Raptor plays: the embedded player is ready, 25 s into 60 s. *)
Definition playingRaptor : World :=
  feed [Happens (YtReady 60); Happens (YtStateChange PLAYING);
        Happens (YtProgress 25 60); Happens YtPoll] watchingRaptor.

(** The live stream plays and its player reports no duration. *)
Definition watchingReef : World :=
  feed [Happens (ClickCard reef); Happens (YtReady 0)] start.

(** Rex plays: the metadata are loaded, 42 s into 95 s. *)
Definition playingRex : World :=
  feed [Happens (PlaySettled true); Happens (VideoLoadedMetadata 95);
        Happens (VideoTimeUpdate 42)] watchingRex.

(** Rex is being dragged down by 221 px, and by 219 px. *)
Definition draggedFar : World :=
  feed [Happens (PointerDown 100 false); Happens (PointerMove 321)]
       watchingRex.

Definition draggedNear : World :=
  feed [Happens (PointerDown 100 false); Happens (PointerMove 319)]
       watchingRex.

(** Comet, the only item of its category, is open. *)
Definition watchingComet : World :=
  feed [Happens (Intersection (Some true)); Happens (ClickCard comet)]
       start.

(** Rex is minimized. *)
Definition minimized : World := feed [Happens PointerUp] draggedFar.

End Demo.

(** ** The clock text *)

(** The argument of [formatTime]: a number that [Number.isFinite]
    accepts, or one of the three it rejects. *)
Inductive Number :=
  | Finite (x : Q)
  | NaN
  | Infinity
  | MinusInfinity.

(** [Number.isFinite(n)] *)
Definition isFinite (n : Number) : bool :=
  match n with
  | Finite _ => true
  | _ => false
  end.

Module Text.

(** [n.toString()], and [n] in a template string, for an integer: its
    decimal digits, with a minus sign in front when it is negative.
    JavaScript writes an integer this way up to 10^21. *)
Definition toString (n : Z) : string :=
  NilZero.string_of_int (Z.to_int n).

(** The first [n] characters of [pad] repeated; [rest] is what is left of
    the copy of [pad] being written. *)
Fixpoint filler (n : nat) (pad rest : string) : string :=
  match n with
  | O => ""
  | S k =>
      match rest with
      | String c r => String c (filler k pad r)
      | EmptyString =>
          match pad with
          | String c r => String c (filler k pad r)
          | EmptyString => ""
          end
      end
  end.

(** [s.padStart(targetLength, padString)] *)
Definition padStart (targetLength : nat) (padString s : string) : string :=
  if (targetLength <=? String.length s)%nat then s
  else (filler (targetLength - String.length s) padString padString
        ++ s)%string.

End Text.

(** [formatTime]; the division and the digits are exact, as those of
    the source are for a time below 2^53. *)
Definition formatTime (seconds : Number) : string :=
  if negb (isFinite seconds) then "0:00" else
  match seconds with
  | Finite x =>
      let clamped := Z.max 0 (Qfloor x) in
      let mins := Qfloor (inject_Z clamped / 60) in
      let secs := Z.rem clamped 60 in
      (Text.toString mins ++ ":"
       ++ Text.padStart 2 "0" (Text.toString secs))%string
  | _ => "0:00"
  end.

(** The whole seconds a clock text [M:SS] stands for; the inverse of
    [formatTime], used to say what its text means. *)
Definition readClock (text : string) : option Z :=
  match ResolverSpec.textAfter ":" text with
  | None => None
  | Some secs =>
      match NilZero.int_of_string (ResolverSpec.textBefore ":" text),
            NilZero.int_of_string secs with
      | Some m, Some s => Some (60 * Z.of_int m + Z.of_int s)%Z
      | _, _ => None
      end
  end.

(** A text without a colon. *)
Definition plain (c : ascii) : bool := negb (Ascii.eqb ":" c).

Fixpoint allPlain (s : string) : bool :=
  match s with
  | EmptyString => true
  | String c r => plain c && allPlain r
  end.

(** A text without ['?'] and ['&']. *)
Fixpoint noDelim (s : string) : bool :=
  match s with
  | EmptyString => true
  | String c r => negb (queryDelim c) && noDelim r
  end.

(** ** Worlds between two events *)

(** The handle the countdown effect keeps was issued by [setTimeout], and
    a pending timer that has it is the countdown's. *)
Definition handleKept (w : World) : Prop :=
  forall h,
    countdownTimeout w = Some h ->
    (h < nextTimerId w)%nat
    /\ forall t, In t (timers w) -> timer_id t = h ->
                 isCountdownTimer t = true.

(** What holds of a world once an event has been handled and its effects
    have run. *)
Definition steady (w : World) : Prop :=
  settled w /\ mounted w /\ timersSound w /\ handleKept w.

(** ** Gestures as runs of events *)

(** A drag on the shell: the pointer goes down at [y0] outside the
    [data-no-drag] elements, moves through [moves] to [y1], and is
    released. *)
Definition dragGesture (y0 : Q) (moves : list Q) (y1 : Q) : list Input :=
  Happens (PointerDown y0 false)
  :: map (fun y => Happens (PointerMove y)) (moves ++ [y1])
  ++ [Happens PointerUp].

(** A swipe: a touch starts at [y0] and ends at [y1]. *)
Definition swipeGesture (y0 y1 : option Q) : list Input :=
  [Happens (TouchStart y0); Happens (TouchEnd y1)].

(** The events of the gesture recognizers and of the miniature. *)
Definition isGesture (e : Event) : bool :=
  match e with
  | PointerDown _ _ | PointerMove _ | PointerUp | PointerCancel
  | Wheel _ | TouchStart _ | TouchEnd _ | ClickMini => true
  | _ => false
  end.

(** ** The clock without a countdown *)

(** No countdown is set, and the countdown effect knows it. *)
Definition idle (w : World) : Prop :=
  nextCountdown (state w) = None /\ countdownChanged w = false.

(** What a timer's callback does to the state when no countdown is
    set. *)
Definition fireState (a : TimerAction) (s : State) : State :=
  match a with
  | ClearActiveVideo => with_activeVideo None s
  | ClearSkipIndicator => with_skipIndicator None s
  | CountdownTick => s
  end.

(** The state with the two cells masked that a timer can clear. *)
Definition maskCleared (s : State) : State :=
  with_activeVideo None (with_skipIndicator None s).

Definition isIndicatorTimer (t : Timer) : bool :=
  match action t with
  | ClearSkipIndicator => true
  | _ => false
  end.

(** ** The embedded player and the active item *)

(** The player in [ytPlayerRef], when there is one, was built after the
    API had become ready, and for an embedded active item it is the
    player built for that item. *)
Definition built (s : State) (r : Refs) : Prop :=
  forall player,
    ytPlayerRef r = Some player ->
    ytReady s = true
    /\ (isYouTube s = true ->
        exists active,
          activeVideo s = Some active
          /\ yt_videoId player
             = getYouTubeId (mediaUrl active) (slug active)).

Definition playerBuilt (w : World) : Prop := built (state w) (refs w).

(** For an embedded active item there is a player once the API is
    ready. *)
Definition present (s : State) (r : Refs) : Prop :=
  isYouTube s = true -> ytReady s = true -> ytPlayerRef r <> None.

(** The countdown shows 2 or 1. *)
Definition countdownShown (s : State) : Prop :=
  forall cd,
    nextCountdown s = Some cd -> seconds cd = 1%Z \/ seconds cd = 2%Z.

(** ** Loading the player API *)

(** A [<script>] element, with the attributes the effect sets and
    queries. *)
Record ScriptElement := {
  script_src : string;
  script_async : bool;
  script_dataYtApi : option string }.

(** What the effect that loads the API reads and writes outside the
    component: whether [window.YT?.Player] is defined, the [<script>]
    elements of the document in document order, and whether
    [window.onYouTubeIframeAPIReady] is the callback that sets
    [ytReady]. *)
Record Page := {
  ytPlayerDefined : bool;
  scriptElements : list ScriptElement;
  readyCallbackSet : bool }.

(** The selector [script[data-yt-api]]. *)
Definition hasDataYtApi (s : ScriptElement) : bool :=
  match script_dataYtApi s with
  | Some _ => true
  | None => false
  end.

(** [document.querySelector("script[data-yt-api]")] *)
Definition querySelector (p : Page) : option ScriptElement :=
  find hasDataYtApi (scriptElements p).

Definition apiScript : ScriptElement :=
  {| script_src := "https://www.youtube.com/iframe_api";
     script_async := true;
     script_dataYtApi := Some "true" |}.

(** [useEffect(..., [])], run when the component mounts: the page it
    leaves, and whether it has called [setYtReady(true)]. *)
Definition loadApiEffect (p : Page) : Page * bool :=
  if ytPlayerDefined p then (p, true) else
  match querySelector p with
  | Some _ =>
      ({| ytPlayerDefined := ytPlayerDefined p;
          scriptElements := scriptElements p;
          readyCallbackSet := true |}, false)
  | None =>
      ({| ytPlayerDefined := ytPlayerDefined p;
          scriptElements := scriptElements p ++ [apiScript];
          readyCallbackSet := true |}, false)
  end.

(** The component mounted on a page: the effect has run, and [ytReady]
    is what it has set. *)
Definition mount (c : Catalog) (viewportHeight : Q) (p : Page)
  : Page * World :=
  (fst (loadApiEffect p), initial c viewportHeight (snd (loadApiEffect p))).

(** The number of API scripts in the document. *)
Definition apiScripts (p : Page) : nat :=
  List.length (filter hasDataYtApi (scriptElements p)).

(** Intersections of the sentinel, one after the other. *)
Definition intersections (n : nat) : list Input :=
  repeat (Happens (Intersection (Some true))) n.

(** ** Picture-in-picture *)

(** The two [useState] cells of the picture-in-picture controller, which
    the handlers above neither read nor write. *)
Record PipCells := {
  pipSupported : bool;
  isPiP : bool }.

(** What the controller reads of the document:
    [document.pictureInPictureEnabled], which an older browser does not
    have, and whether [document.pictureInPictureElement] is set. *)
Record Document := {
  pictureInPictureEnabled : option bool;
  pictureInPictureElement : bool }.

(** ["pictureInPictureEnabled" in document &&
    Boolean(document.pictureInPictureEnabled)] *)
Definition supported (d : Document) : bool :=
  match pictureInPictureEnabled d with
  | Some enabled => enabled
  | None => false
  end.

(** [useEffect(..., [activeVideo, isYouTube])]: [cur] is the render the
    effect runs after and [prev] the render before. *)
Definition pipEffect (d : Document) (prev cur : World) (p : PipCells)
  : PipCells :=
  if sameVideo (activeVideo (state prev)) (activeVideo (state cur))
     && Bool.eqb (isYouTube (state prev)) (isYouTube (state cur))
  then p
  else if isYouTube (state cur)
       then {| pipSupported := false; isPiP := isPiP p |}
       else match videoRef (refs cur) with
            | None => p
            | Some _ => {| pipSupported := supported d; isPiP := isPiP p |}
            end.

(** The effect in the two passes of a commit. *)
Definition pipCommit (d : Document) (prev cur : World) (p : PipCells)
  : PipCells :=
  pipEffect d (render cur) (render (pass prev cur))
    (pipEffect d prev (render cur) p).

(** What [handleTogglePiP] asks of the browser. *)
Inductive PipRequest :=
  | NoRequest
  | ExitPictureInPicture
  | RequestPictureInPicture.

Definition handleTogglePiP (d : Document) (w : World) (p : PipCells)
  : PipRequest :=
  match videoRef (refs w) with
  | None => NoRequest
  | Some _ =>
      if negb (pipSupported p) then NoRequest
      else if pictureInPictureElement d
           then ExitPictureInPicture
           else RequestPictureInPicture
  end.

(** The component with the controller's cells: an event of the
    component, with the controller's effect in its commit; a
    millisecond; and the two events the effect listens for on the
    [<video>] element. *)
Definition dispatchPip (d : Document) (e : Event) (x : World * PipCells)
  : World * PipCells :=
  (dispatch e (fst x), pipCommit d (fst x) (handle e (fst x)) (snd x)).

Definition tickPip (d : Document) (x : World * PipCells)
  : World * PipCells :=
  let w := withNow (now (fst x) + 1)%Z (fst x) in
  fold_left (fun acc handle => dispatchPip d (TimerFires handle) acc)
            (dueHandles w) (w, snd x).

Inductive PipInput :=
  | OfComponent (i : Input)
  | EnterPictureInPicture
  | LeavePictureInPicture.

Definition setIsPiP (v : bool) (x : World * PipCells) : World * PipCells :=
  match videoRef (refs (fst x)) with
  | Some _ => (fst x, {| pipSupported := pipSupported (snd x); isPiP := v |})
  | None => x
  end.

Definition advancePip (d : Document) (i : PipInput) (x : World * PipCells)
  : World * PipCells :=
  match i with
  | OfComponent (Happens e) => dispatchPip d e x
  | OfComponent Millisecond => tickPip d x
  | EnterPictureInPicture => setIsPiP true x
  | LeavePictureInPicture => setIsPiP false x
  end.

Inductive ReachablePip (d : Document) (c : Catalog) (h : Q) (api : bool)
  : World * PipCells -> Prop :=
  | ReachPipInitial :
      ReachablePip d c h api
        (initial c h api, {| pipSupported := false; isPiP := false |})
  | ReachPipAdvance (x : World * PipCells) (i : PipInput) :
      ReachablePip d c h api x -> ReachablePip d c h api (advancePip d i x).

(** Whether the button of the controller is rendered. *)
Definition pipButtonRendered (x : World * PipCells) : bool :=
  shellRendered (fst x) && pipSupported (snd x).

(** What the controller has announced when there is a session: support
    as the document has it for a native item, none for an embedded
    one. *)
Definition announced (d : Document) (w : World) (p : PipCells) : Prop :=
  forall active,
    activeVideo (state w) = Some active ->
    pipSupported p = negb (isYouTube (state w)) && supported d.

(** ** Facts about the string primitives *)

Section StringFacts.

Import JsString ResolverSpec.

Lemma append_empty_r (s : string) : (s ++ "")%string = s.
Proof. induction s as [|c s IH]; simpl; [reflexivity | now rewrite IH]. Qed.

Lemma append_assoc' (a b c : string) :
  ((a ++ b) ++ c)%string = (a ++ (b ++ c))%string.
Proof. induction a as [|x a IH]; simpl; [reflexivity | now rewrite IH]. Qed.

Lemma splitFrom_skip (sep : string) :
  forall s k cur, splitFrom sep k cur s = splitFrom sep 0 cur (drop k s).
Proof.
  induction s as [|c s IH]; intros k cur.
  - destruct k; reflexivity.
  - destruct k as [|k]; [reflexivity|].
    simpl splitFrom at 1. simpl drop. apply IH.
Qed.

Lemma startsWith_nonempty_nil (sep : string) :
  sep <> "" -> startsWith sep "" = false.
Proof. destruct sep; [congruence | reflexivity]. Qed.

(** [split] cuts off the text before the first separator and goes on
    in the text after it. *)
Lemma splitFrom_unfold (sep : string) (Hsep : sep <> "") :
  forall s cur,
    splitFrom sep 0 cur s =
    (cur ++ textBefore sep s)%string ::
    match textAfter sep s with
    | Some rest => split sep rest
    | None => []
    end.
Proof.
  induction s as [|c s IH]; intros cur.
  - simpl. rewrite (startsWith_nonempty_nil sep Hsep).
    now rewrite append_empty_r.
  - cbn [splitFrom textBefore textAfter].
    destruct (startsWith sep (String c s)) eqn:E.
    + rewrite append_empty_r. f_equal.
      rewrite splitFrom_skip. unfold split.
      destruct sep as [|a sep']; [congruence|].
      simpl. now rewrite Nat.sub_0_r.
    + rewrite IH. rewrite append_assoc'. reflexivity.
Qed.

Lemma split_second (sep s : string) :
  sep <> "" ->
  nth_error (split sep s) 1 = option_map (textBefore sep) (textAfter sep s).
Proof.
  intros Hsep. unfold split. rewrite (splitFrom_unfold sep Hsep).
  simpl. destruct (textAfter sep s) as [rest|]; [|reflexivity].
  unfold split. rewrite (splitFrom_unfold sep Hsep). reflexivity.
Qed.

Lemma splitClassFrom_first (cls : ascii -> bool) :
  forall s cur,
    (forall c, cls c = queryDelim c) ->
    nth_error (splitClassFrom cls cur s) 0 = Some (cur ++ cutAtDelim s)%string.
Proof.
  induction s as [|c s IH]; intros cur Hc; cbn [splitClassFrom cutAtDelim].
  - simpl. now rewrite append_empty_r.
  - rewrite Hc. destruct (queryDelim c).
    + simpl. now rewrite append_empty_r.
    + rewrite IH by assumption. now rewrite append_assoc'.
Qed.

Lemma includes_textAfter (sep s : string) :
  includes sep s = false -> textAfter sep s = None.
Proof.
  induction s as [|c s IH]; simpl.
  - rewrite orb_false_r. now intros ->.
  - intros H. apply orb_false_iff in H as [H1 H2].
    rewrite H1. now apply IH.
Qed.

Lemma idAfter_spec (marker url : string) :
  marker <> "" ->
  idAfter marker url =
  option_map (fun rest => cutAtDelim (textBefore marker rest))
             (textAfter marker url).
Proof.
  intros Hm. unfold idAfter. rewrite split_second by assumption.
  destruct (textAfter marker url) as [rest|]; cbn [option_map]; [|reflexivity].
  unfold splitClass. now rewrite splitClassFrom_first.
Qed.

Lemma tryShape_spec (marker url : string) :
  marker <> "" -> tryShape marker url = segmentUpToMarker marker url.
Proof.
  intros Hm. unfold tryShape, segmentUpToMarker.
  destruct (includes marker url) eqn:E.
  - rewrite idAfter_spec by assumption.
    destruct (option_map _ _) as [[|c r]|]; reflexivity.
  - now rewrite includes_textAfter.
Qed.

Lemma getYouTubeId_resolveUpToMarker (url fallback : string) :
  getYouTubeId url fallback = resolveUpToMarker url fallback.
Proof.
  unfold getYouTubeId, resolveUpToMarker, firstOf.
  rewrite !tryShape_spec by discriminate.
  destruct (segmentUpToMarker "embed/" url); [reflexivity|].
  destruct (segmentUpToMarker "watch?v=" url); [reflexivity|].
  destruct (segmentUpToMarker "youtu.be/" url); reflexivity.
Qed.

End StringFacts.

(** ** Facts about numbers *)

Section NumberFacts.

Lemma Qle_bool_false (x y : Q) : Qle_bool x y = false <-> y < x.
Proof.
  split; intros H.
  - apply Qnot_le_lt. intros L. apply Qle_bool_iff in L. congruence.
  - destruct (Qle_bool x y) eqn:E; [|reflexivity].
    apply Qle_bool_iff in E. lra.
Qed.

Lemma gt_true (x y : Q) : Js.gt x y = true <-> y < x.
Proof.
  unfold Js.gt. rewrite negb_true_iff. apply Qle_bool_false.
Qed.

Lemma gt_false (x y : Q) : Js.gt x y = false <-> x <= y.
Proof.
  unfold Js.gt. rewrite negb_false_iff. apply Qle_bool_iff.
Qed.

Lemma lt_true (x y : Q) : Js.lt x y = true <-> x < y.
Proof. unfold Js.lt. rewrite negb_true_iff. apply Qle_bool_false. Qed.

Lemma lt_false (x y : Q) : Js.lt x y = false <-> y <= x.
Proof. unfold Js.lt. rewrite negb_false_iff. apply Qle_bool_iff. Qed.

(** [Math.min(Math.max(0, x), hi)] is [clamp(x, 0, hi)] for a bound that
    is not negative. *)
Lemma min_max_clamp (x hi hi' : Q) :
  hi == hi' -> 0 <= hi -> Js.min (Js.max 0 x) hi == clamp x 0 hi'.
Proof.
  intros E H. unfold Js.min, Js.max, clamp.
  destruct (Js.lt x 0) eqn:L.
  - apply lt_true in L.
    destruct (Qle_bool 0 x) eqn:A.
    + apply Qle_bool_iff in A. lra.
    + destruct (Qle_bool 0 hi) eqn:B; [reflexivity|].
      apply Qle_bool_false in B. lra.
  - apply lt_false in L.
    destruct (Qle_bool 0 x) eqn:A.
    2:{ apply Qle_bool_false in A. lra. }
    destruct (Js.gt x hi') eqn:G.
    + apply gt_true in G.
      destruct (Qle_bool x hi) eqn:B; [|lra].
      apply Qle_bool_iff in B. lra.
    + apply gt_false in G.
      destruct (Qle_bool x hi) eqn:B; [reflexivity|].
      apply Qle_bool_false in B. lra.
Qed.

Lemma truthy_some (x : Q) : Js.truthy (Some x) = negb (Qeq_bool x 0).
Proof. reflexivity. Qed.

(** [duration || activeVideo?.durationSeconds || 0] *)
Lemma sessionDuration_code (w : World) :
  Js.orNum
    (Js.or (Some (duration (state w)))
           (option_map durationSeconds (activeVideo (state w)))) 0
  == sessionDuration w.
Proof.
  unfold sessionDuration, Js.orNum, Js.or. rewrite truthy_some.
  destruct (Qeq_bool (duration (state w)) 0) eqn:D; cbn [negb].
  - destruct (activeVideo (state w)) as [v|]; cbn [option_map].
    + rewrite truthy_some.
      destruct (Qeq_bool (durationSeconds v) 0) eqn:S; cbn [negb].
      * apply Qeq_bool_iff in S. now rewrite S.
      * reflexivity.
    + reflexivity.
  - rewrite truthy_some, D. reflexivity.
Qed.

(** [getDuration?.() || duration || activeVideo?.durationSeconds || 0] *)
Lemma reportedDuration_code (player : YTPlayer) (w : World) :
  Js.orNum
    (Js.or (Js.or (YT.getDuration player) (Some (duration (state w))))
           (option_map durationSeconds (activeVideo (state w)))) 0
  == reportedDuration player w.
Proof.
  unfold reportedDuration, YT.getDuration.
  destruct (yt_api player); cbn [andb].
  - unfold Js.or at 2. rewrite truthy_some.
    destruct (Qeq_bool (yt_length player) 0) eqn:L; cbn [negb].
    + apply sessionDuration_code.
    + unfold Js.orNum, Js.or. rewrite !truthy_some, L. cbn [negb].
      rewrite truthy_some, L. reflexivity.
  - unfold Js.or at 2. cbn [Js.truthy]. apply sessionDuration_code.
Qed.

(** [getCurrentTime?.() || 0] of a player whose methods are attached. *)
Lemma currentTime_code (player : YTPlayer) :
  yt_api player = true ->
  Js.orNum (YT.getCurrentTime player) 0 == yt_time player.
Proof.
  intros A. unfold YT.getCurrentTime, Js.orNum, Js.or. rewrite A.
  rewrite truthy_some.
  destruct (Qeq_bool (yt_time player) 0) eqn:T; cbn [negb].
  - apply Qeq_bool_iff in T. now rewrite T.
  - reflexivity.
Qed.

End NumberFacts.

(** ** The resolver *)

(** C2, as the code has it: [getYouTubeId] tries the markers ["embed/"],
    ["watch?v="] and ["youtu.be/"] in this order; for a marker that occurs
    in the URL it takes the text after the first occurrence, cut at the
    first ['?'] or ['&'] or where the marker occurs again, and returns it
    when it is not empty; when no marker yields an id it returns the
    fallback.  The four URLs of the specification resolve as it says. *)
Theorem getYouTubeId_resolves :
  (forall url fallback,
      getYouTubeId url fallback = ResolverSpec.resolveUpToMarker url fallback)
  /\ (forall fallback,
         getYouTubeId "https://www.youtube.com/embed/abc123?x=1" fallback
         = "abc123")
  /\ (forall fallback,
         getYouTubeId "https://www.youtube.com/watch?v=xyz789&t=5" fallback
         = "xyz789")
  /\ (forall fallback, getYouTubeId "youtu.be/qrs456" fallback = "qrs456")
  /\ (forall fallback,
         getYouTubeId "https://example.com/video" fallback = fallback).
Proof.
  split; [exact getYouTubeId_resolveUpToMarker|].
  repeat split; intros; reflexivity.
Qed.

(** C2 as written fails where the marker occurs twice before the first
    ['?'] or ['&']: the code stops at the second occurrence. *)
Lemma getYouTubeId_stops_at_marker :
  getYouTubeId "https://www.youtube.com/embed/abcembed/def" "fallback"
  = "abc"
  /\ ResolverSpec.resolve "https://www.youtube.com/embed/abcembed/def"
       "fallback"
     = "abcembed/def"
  /\ getYouTubeId "https://www.youtube.com/embed/abcembed/def" "fallback"
     <> ResolverSpec.resolve "https://www.youtube.com/embed/abcembed/def"
          "fallback".
Proof. repeat split. discriminate. Qed.

(** ** Skip and seek *)

Section SkipAndSeek.

Variable w : World.

Lemma skipBy_native (a : Q) (video : VideoElement) :
  embeddedPlayer w = None ->
  videoRef (refs w) = Some video ->
  0 <= sessionDuration w ->
  exists video',
    videoRef (refs (skipBy a w)) = Some video'
    /\ el_currentTime video'
       == clamp (el_currentTime video + a) 0 (sessionDuration w).
Proof.
  intros E V H. unfold skipBy. rewrite E, V.
  eexists. split; [reflexivity|]. cbn [seek el_currentTime].
  apply min_max_clamp.
  - apply sessionDuration_code.
  - now rewrite sessionDuration_code.
Qed.

Lemma skipBy_embedded (a : Q) (player : YTPlayer) :
  embeddedPlayer w = Some player ->
  yt_api player = true ->
  yt_faulty player = false ->
  0 < reportedDuration player w ->
  exists player',
    ytPlayerRef (refs (skipBy a w)) = Some player'
    /\ yt_time player'
       == clamp (yt_time player + a) 0 (reportedDuration player w)
    /\ currentTime (state (skipBy a w))
       == clamp (yt_time player + a) 0 (reportedDuration player w).
Proof.
  intros E A F H. unfold skipBy. rewrite E.
  pose proof (reportedDuration_code player w) as R.
  destruct (Qeq_bool _ 0) eqn:Z.
  - apply Qeq_bool_iff in Z. rewrite R in Z. lra.
  - unfold YT.seekTo. rewrite A, F.
    eexists. split; [reflexivity|]. cbn [yt_time].
    assert (Js.min
              (Js.max 0 (Js.orNum (YT.getCurrentTime player) 0 + a))
              (Js.orNum
                 (Js.or
                    (Js.or (YT.getDuration player)
                           (Some (duration (state w))))
                    (option_map durationSeconds (activeVideo (state w))))
                 0)
            == clamp (yt_time player + a) 0 (reportedDuration player w))
      as C.
    { rewrite min_max_clamp with (hi' := reportedDuration player w);
        [|exact R|rewrite R; lra].
      unfold clamp.
      pose proof (currentTime_code player A) as T.
      set (c := Js.orNum (YT.getCurrentTime player) 0) in *.
      destruct (Js.lt (c + a) 0) eqn:L1;
        destruct (Js.lt (yt_time player + a) 0) eqn:L2;
        try apply lt_true in L1; try apply lt_false in L1;
        try apply lt_true in L2; try apply lt_false in L2;
        try lra; try reflexivity.
      destruct (Js.gt (c + a) (reportedDuration player w)) eqn:G1;
        destruct (Js.gt (yt_time player + a) (reportedDuration player w))
          eqn:G2;
        try apply gt_true in G1; try apply gt_false in G1;
        try apply gt_true in G2; try apply gt_false in G2;
        try lra; try reflexivity. }
    split; exact C.
Qed.

Lemma skipBy_embedded_unknown_length (a : Q) (player : YTPlayer) :
  embeddedPlayer w = Some player ->
  reportedDuration player w == 0 ->
  skipBy a w = w.
Proof.
  intros E Z. unfold skipBy. rewrite E.
  rewrite <- (reportedDuration_code player w) in Z.
  apply Qeq_bool_iff in Z. now rewrite Z.
Qed.

Lemma skipBy_no_backend (a : Q) :
  embeddedPlayer w = None -> videoRef (refs w) = None -> skipBy a w = w.
Proof. intros E V. unfold skipBy. now rewrite E, V. Qed.

End SkipAndSeek.

(** C1, as the code has it: [skipBy a] moves the playback position to
    [clamp(t + a, 0, D)], where [t] is the position the backend reports
    and [D] is the first non-zero one of the duration the embedded player
    reports (embedded backend only), the session's [duration] and the
    catalog's [durationSeconds].  So once [duration] is set on the native
    backend the bound is [duration].  On the embedded backend nothing
    happens when [D] is zero, and nothing happens without a backend. *)
Theorem skipBy_clamps (a : Q) (w : World) :
  (forall video,
      embeddedPlayer w = None ->
      videoRef (refs w) = Some video ->
      0 <= sessionDuration w ->
      exists video',
        videoRef (refs (skipBy a w)) = Some video'
        /\ el_currentTime video'
           == clamp (el_currentTime video + a) 0 (sessionDuration w))
  /\ (~ duration (state w) == 0 -> sessionDuration w = duration (state w))
  /\ (forall player,
         embeddedPlayer w = Some player ->
         yt_api player = true ->
         yt_faulty player = false ->
         0 < reportedDuration player w ->
         exists player',
           ytPlayerRef (refs (skipBy a w)) = Some player'
           /\ yt_time player'
              == clamp (yt_time player + a) 0 (reportedDuration player w)
           /\ currentTime (state (skipBy a w))
              == clamp (yt_time player + a) 0 (reportedDuration player w))
  /\ (forall player,
         embeddedPlayer w = Some player ->
         reportedDuration player w == 0 ->
         skipBy a w = w)
  /\ (embeddedPlayer w = None -> videoRef (refs w) = None -> skipBy a w = w).
Proof.
  split; [intros; now apply skipBy_native|].
  split.
  { intros D. unfold sessionDuration.
    destruct (Qeq_bool (duration (state w)) 0) eqn:E; [|reflexivity].
    apply Qeq_bool_iff in E. contradiction. }
  split; [intros; now apply skipBy_embedded|].
  split; [intros; now apply skipBy_embedded_unknown_length with player|].
  apply skipBy_no_backend.
Qed.

Lemma skipBy_clamps_witness :
  (exists video',
      videoRef (refs (skipBy (-10) Demo.playingRex)) = Some video'
      /\ el_currentTime video' == clamp (42 + -10) 0 95)
  /\ sessionDuration Demo.playingRex = 95
  /\ (exists player',
         ytPlayerRef (refs (skipBy 10 Demo.playingRaptor)) = Some player'
         /\ yt_time player' == clamp (25 + 10) 0 60
         /\ currentTime (state (skipBy 10 Demo.playingRaptor))
            == clamp (25 + 10) 0 60)
  /\ skipBy 10 Demo.watchingReef = Demo.watchingReef
  /\ skipBy 10 Demo.start = Demo.start.
Proof.
  split.
  { apply (proj1 (skipBy_clamps (-10) Demo.playingRex)
             {| el_currentTime := 42; el_paused := false |});
      [reflexivity | reflexivity | vm_compute; discriminate]. }
  split.
  { apply (proj1 (proj2 (skipBy_clamps (-10) Demo.playingRex))).
    vm_compute. discriminate. }
  split.
  { apply (proj1 (proj2 (proj2 (skipBy_clamps 10 Demo.playingRaptor)))
             {| yt_videoId := "abc123"; yt_time := 25; yt_length := 60;
                yt_api := true; yt_faulty := false |});
      reflexivity. }
  split.
  { apply (proj1 (proj2 (proj2 (proj2 (skipBy_clamps 10 Demo.watchingReef))))
             {| yt_videoId := "qrs456"; yt_time := 0; yt_length := 0;
                yt_api := true; yt_faulty := false |});
      reflexivity. }
  apply (proj2 (proj2 (proj2 (proj2 (skipBy_clamps 10 Demo.start)))));
    reflexivity.
Defined.

(** C1 as written fails before the metadata are loaded: [duration] is
    still 0, and a skip forward from 0 lands on 10, not on
    [clamp(0 + 10, 0, 0) = 0]. *)
Lemma skipBy_before_metadata :
  currentTime (state Demo.watchingRex) = 0
  /\ duration (state Demo.watchingRex) = 0
  /\ videoRef (refs Demo.watchingRex)
     = Some {| el_currentTime := 0; el_paused := true |}
  /\ videoRef (refs (skipBy 10 Demo.watchingRex))
     = Some {| el_currentTime := 10; el_paused := true |}
  /\ videoRef (refs (dispatch ClickSkipForward Demo.watchingRex))
     = Some {| el_currentTime := 10; el_paused := true |}
  /\ ~ 10 == clamp (currentTime (state Demo.watchingRex) + 10) 0
                   (duration (state Demo.watchingRex)).
Proof.
  repeat split; try reflexivity. vm_compute. discriminate.
Qed.

(** ** Rendering and effects: what a commit changes *)

Section CommitFacts.

Lemma state_playVideo (video : VideoItem) (w : World) :
  state (playVideo video w) = opened video (state w).
Proof. reflexivity. Qed.

Lemma sameVideo_refl (a : option VideoItem) : sameVideo a a = true.
Proof.
  destruct a as [v|]; [|reflexivity]. unfold sameVideo.
  destruct (VideoItem_eq_dec v v); congruence.
Qed.

Lemma sameVideo_eq (a b : option VideoItem) : sameVideo a b = true -> a = b.
Proof.
  destruct a as [x|], b as [y|]; cbn; try congruence.
  destruct (VideoItem_eq_dec x y); congruence.
Qed.

(** The two backend effects touch the refs only. *)
Lemma autoplayEffect_refs (prev cur acc : World) :
  autoplayEffect prev cur acc
  = onRefs (fun _ => refs (autoplayEffect prev cur acc)) acc.
Proof.
  unfold autoplayEffect.
  destruct (_ && _); [now destruct acc|].
  destruct (activeVideo (state cur)); [|now destruct acc].
  destruct (isYouTube (state cur)); [now destruct acc|].
  destruct (videoRef (refs acc)); now destruct acc.
Qed.

Lemma youtubeEffect_refs (prev cur acc : World) :
  youtubeEffect prev cur acc
  = onRefs (fun _ => refs (youtubeEffect prev cur acc)) acc.
Proof.
  unfold youtubeEffect.
  destruct (_ && _ && _); [now destruct acc|].
  destruct (activeVideo (state cur)); [|now destruct acc].
  destruct (_ && _); now destruct acc.
Qed.

(** The countdown effect: nothing when [nextCountdown] is the object it
    has seen; otherwise its cleanup, and then one of three things. *)
Lemma countdownEffect_cases (cur acc : World) :
  state cur = state acc ->
  countdownChanged cur = countdownChanged acc ->
  (countdownChanged cur = false /\ countdownEffect cur acc = acc)
  \/ (countdownChanged cur = true
      /\ nextCountdown (state cur) = None
      /\ state (countdownEffect cur acc) = state acc
      /\ countdownChanged (countdownEffect cur acc) = false
      /\ countdownTimeout (countdownEffect cur acc) = None)
  \/ (exists c,
         countdownChanged cur = true
         /\ nextCountdown (state cur) = Some c
         /\ (0 < seconds c)%Z
         /\ state (countdownEffect cur acc) = state acc
         /\ countdownChanged (countdownEffect cur acc) = false
         /\ countdownTimeout (countdownEffect cur acc)
            = Some (nextTimerId acc))
  \/ (exists c,
         countdownChanged cur = true
         /\ nextCountdown (state cur) = Some c
         /\ (seconds c <= 0)%Z
         /\ state (countdownEffect cur acc)
            = opened (nextVideo c) (state acc)
         /\ countdownTimeout (countdownEffect cur acc) = None).
Proof.
  intros S F. unfold countdownEffect.
  destruct (countdownChanged cur) eqn:C; cbn [negb]; [|left; auto].
  right.
  destruct (nextCountdown (state cur)) as [c|] eqn:N.
  - right. destruct (seconds c <=? 0)%Z eqn:Z.
    + right. exists c. apply Z.leb_le in Z.
      repeat split; auto.
      clear. destruct acc as [cat st rf tm nid nw ih [h|] cc];
        destruct st; vm_compute; reflexivity.
    + left. exists c. apply Z.leb_gt in Z.
      repeat split; auto; destruct (countdownTimeout acc); reflexivity.
  - left. repeat split; auto; destruct (countdownTimeout acc); reflexivity.
Qed.

Lemma state_render (w : World) : state (render w) = state w.
Proof. reflexivity. Qed.

Lemma changed_render (w : World) :
  countdownChanged (render w) = countdownChanged w.
Proof. reflexivity. Qed.

(** What one pass does to the state. *)
Lemma pass_state (prev cur : World) :
  (state (pass prev cur) = state cur
   /\ countdownChanged (pass prev cur) = false)
  \/ (exists c,
         countdownChanged cur = true
         /\ nextCountdown (state cur) = Some c
         /\ (seconds c <= 0)%Z
         /\ state (pass prev cur) = opened (nextVideo c) (state cur)).
Proof.
  unfold pass.
  rewrite youtubeEffect_refs. cbn [state onRefs countdownChanged].
  set (r := render cur).
  destruct (countdownEffect_cases r (autoplayEffect prev r r))
    as [[C E]|[(C & N & S & F & _)|[(c & C & N & Z & S & F & _)
                                   |(c & C & N & Z & S & _)]]].
  - rewrite autoplayEffect_refs. reflexivity.
  - rewrite autoplayEffect_refs. reflexivity.
  - left. rewrite E. rewrite autoplayEffect_refs. cbn. auto.
  - left. rewrite S, F. rewrite autoplayEffect_refs. cbn. auto.
  - left. rewrite S, F. rewrite autoplayEffect_refs. cbn. auto.
  - right. exists c. rewrite S. rewrite autoplayEffect_refs. cbn. auto.
Qed.

Lemma pass_state_idle (prev cur : World) :
  countdownChanged cur = false \/ nextCountdown (state cur) = None ->
  state (pass prev cur) = state cur.
Proof.
  intros H. destruct (pass_state prev cur) as [[S _]|(c & C & N & _)];
    [assumption|].
  destruct H; congruence.
Qed.

(** After a commit the world is settled. *)
Lemma commit_settled (prev cur : World) : settled (commit prev cur).
Proof.
  unfold commit, settled.
  destruct (pass_state (render cur) (pass prev cur))
    as [[_ F]|(c & C & N & _)]; [assumption|].
  destruct (pass_state prev cur) as [[_ F]|(c' & _ & _ & _ & S)];
    [congruence|].
  rewrite S in N. discriminate.
Qed.

(** The second pass changes no state. *)
Lemma commit_state (prev cur : World) :
  state (commit prev cur) = state (pass prev cur).
Proof.
  unfold commit. apply pass_state_idle.
  destruct (pass_state prev cur) as [[_ F]|(c & _ & _ & _ & S)];
    [left; assumption|right].
  now rewrite S.
Qed.

(** A commit either keeps the state or opens the video the countdown
    held. *)
Lemma commit_state_cases (prev cur : World) :
  state (commit prev cur) = state cur
  \/ (exists c,
         countdownChanged cur = true
         /\ nextCountdown (state cur) = Some c
         /\ (seconds c <= 0)%Z
         /\ state (commit prev cur) = opened (nextVideo c) (state cur)).
Proof.
  rewrite commit_state.
  destruct (pass_state prev cur) as [[S _]|H]; [left|right]; assumption.
Qed.

Lemma catalog_pass (prev cur : World) : catalog (pass prev cur) = catalog cur.
Proof.
  unfold pass. rewrite youtubeEffect_refs. cbn [catalog onRefs].
  unfold countdownEffect.
  destruct (countdownChanged (render cur)); cbn [negb].
  - destruct (nextCountdown _) as [c|].
    + destruct (seconds c <=? 0)%Z;
        destruct (countdownTimeout _); cbn;
        rewrite autoplayEffect_refs; reflexivity.
    + destruct (countdownTimeout _); cbn;
        rewrite autoplayEffect_refs; reflexivity.
  - rewrite autoplayEffect_refs. reflexivity.
Qed.

Lemma catalog_commit (prev cur : World) :
  catalog (commit prev cur) = catalog cur.
Proof. unfold commit. now rewrite !catalog_pass. Qed.

End CommitFacts.

(** ** What the handlers leave alone *)

Ltac unfold_handlers :=
  unfold handle, guarded, handleMiniRestore, handleMiniClose,
    handleMiniToggle, onStateChange, timerFires, fire;
  unfold playVideo, closePlayer, togglePlay, skipBy, handleSeek,
    handlePlayerPointerDown, handlePlayerPointerMove,
    handlePlayerPointerUp, handleWheel, handleTouchStart, handleTouchEnd,
    handleVideoEnded, onIntersection, onReady, onPoll, countdownTick,
    YT.seekTo.

Ltac split_branches :=
  repeat match goal with
         | |- context [match ?x with _ => _ end] => destruct x
         end.

Section HandlerFacts.

Lemma catalog_handle (e : Event) (w : World) :
  catalog (handle e w) = catalog w.
Proof. destruct e; unfold_handlers; split_branches; reflexivity. Qed.

Lemma catalog_dispatch (e : Event) (w : World) :
  catalog (dispatch e w) = catalog w.
Proof. unfold dispatch. now rewrite catalog_commit, catalog_handle. Qed.

(** Only the observer's callback writes [visibleCategoryCount]. *)
Lemma count_handle (e : Event) (w : World) :
  (forall b, e <> Intersection b) ->
  visibleCategoryCount (state (handle e w))
  = visibleCategoryCount (state w).
Proof.
  intros H. destruct e; try (now (exfalso; eapply H));
    unfold_handlers; split_branches; reflexivity.
Qed.

Lemma count_commit (prev cur : World) :
  visibleCategoryCount (state (commit prev cur))
  = visibleCategoryCount (state cur).
Proof.
  destruct (commit_state_cases prev cur) as [S|(c & _ & _ & _ & S)];
    now rewrite S.
Qed.

(** Only [onReady] and a [PLAYING] state change set [ytLoaded]. *)
Lemma ytLoaded_handle (e : Event) (w : World) :
  ytLoaded (state (handle e w)) = true ->
  ytLoaded (state w) = true
  \/ (exists length, e = YtReady length)
  \/ e = YtStateChange PLAYING.
Proof.
  destruct e; try (right; left; eexists; reflexivity);
    try (destruct data; try (right; right; reflexivity));
    unfold_handlers; split_branches; cbn; auto; discriminate.
Qed.

Lemma ytLoaded_commit (prev cur : World) :
  ytLoaded (state (commit prev cur)) = true ->
  ytLoaded (state cur) = true.
Proof.
  destruct (commit_state_cases prev cur) as [S|(c & _ & _ & _ & S)];
    rewrite S; [auto|discriminate].
Qed.

End HandlerFacts.

(** ** Gestures *)

(** C3: when a drag ends, by pointer-up or pointer-cancel, an offset
    above 0.22 of the viewport height minimizes the player and closes the
    related sheet; any other offset leaves the mode and the sheet alone.
    Either way the offset returns to 0 and the drag is over.  With a
    viewport of 1000, 219 springs back and 221 minimizes.  The effects
    that run after the handler change none of this. *)
Theorem handlePlayerPointerUp_threshold (w : World) :
  isDragging (state w) = true ->
  playerMode (state w) = full ->
  handle PointerCancel w = handle PointerUp w
  /\ (innerHeight w * (22 # 100) < dragOffset (state w) ->
      playerMode (state (handlePlayerPointerUp w)) = mini
      /\ relatedOpen (state (handlePlayerPointerUp w)) = false)
  /\ (dragOffset (state w) <= innerHeight w * (22 # 100) ->
      playerMode (state (handlePlayerPointerUp w)) = full
      /\ relatedOpen (state (handlePlayerPointerUp w))
         = relatedOpen (state w))
  /\ dragOffset (state (handlePlayerPointerUp w)) = 0
  /\ isDragging (state (handlePlayerPointerUp w)) = false
  /\ activeVideo (state (handlePlayerPointerUp w)) = activeVideo (state w)
  /\ (innerHeight w == 1000 -> dragOffset (state w) == 219 ->
      playerMode (state (handlePlayerPointerUp w)) = full)
  /\ (innerHeight w == 1000 -> dragOffset (state w) == 221 ->
      playerMode (state (handlePlayerPointerUp w)) = mini)
  /\ (shellRendered w = true -> settled w ->
      state (dispatch PointerUp w) = state (handlePlayerPointerUp w)
      /\ state (dispatch PointerCancel w)
         = state (handlePlayerPointerUp w)).
Proof.
  intros D M.
  assert (forall b : bool,
             Js.gt (dragOffset (state w)) (innerHeight w * (22 # 100)) = b ->
             playerMode (state (handlePlayerPointerUp w))
             = (if b then mini else full)
             /\ relatedOpen (state (handlePlayerPointerUp w))
                = (if b then false else relatedOpen (state w))) as K.
  { intros b B. unfold handlePlayerPointerUp. rewrite D, B. cbn [negb].
    destruct b; cbn; auto. }
  split; [reflexivity|].
  split; [intros H; apply gt_true in H; apply (K true H)|].
  split.
  { intros H. apply gt_false in H. exact (K false H). }
  split.
  { unfold handlePlayerPointerUp. rewrite D. cbn [negb].
    destruct (Js.gt _ _); reflexivity. }
  split.
  { unfold handlePlayerPointerUp. rewrite D. cbn [negb].
    destruct (Js.gt _ _); reflexivity. }
  split.
  { unfold handlePlayerPointerUp. rewrite D. cbn [negb].
    destruct (Js.gt _ _); reflexivity. }
  split.
  { intros H O.
    assert (Js.gt (dragOffset (state w)) (innerHeight w * (22 # 100)) = false)
      as B by (apply gt_false; rewrite H, O; lra).
    exact (proj1 (K false B)). }
  split.
  { intros H O.
    assert (Js.gt (dragOffset (state w)) (innerHeight w * (22 # 100)) = true)
      as B by (apply gt_true; rewrite H, O; lra).
    apply (K true B). }
  intros R S.
  assert (state (commit w (handlePlayerPointerUp w))
          = state (handlePlayerPointerUp w)) as E.
  { rewrite commit_state. apply pass_state_idle. left.
    unfold handlePlayerPointerUp. rewrite D. cbn [negb].
    destruct (Js.gt _ _); exact S. }
  unfold dispatch, handle, guarded. rewrite R. split; exact E.
Qed.

Lemma handlePlayerPointerUp_threshold_witness :
  (innerHeight Demo.draggedFar = 1000
   /\ dragOffset (state Demo.draggedFar) = 221
   /\ playerMode (state (handlePlayerPointerUp Demo.draggedFar)) = mini
   /\ relatedOpen (state (handlePlayerPointerUp Demo.draggedFar)) = false
   /\ playerMode (state (dispatch PointerUp Demo.draggedFar)) = mini)
  /\ (innerHeight Demo.draggedNear = 1000
      /\ dragOffset (state Demo.draggedNear) = 219
      /\ playerMode (state (handlePlayerPointerUp Demo.draggedNear)) = full
      /\ dragOffset (state (handlePlayerPointerUp Demo.draggedNear)) = 0
      /\ playerMode (state (dispatch PointerCancel Demo.draggedNear))
         = full).
Proof.
  assert (isDragging (state Demo.draggedFar) = true) as D1
      by (vm_compute; reflexivity).
  assert (playerMode (state Demo.draggedFar) = full) as M1
      by (vm_compute; reflexivity).
  assert (isDragging (state Demo.draggedNear) = true) as D2
      by (vm_compute; reflexivity).
  assert (playerMode (state Demo.draggedNear) = full) as M2
      by (vm_compute; reflexivity).
  destruct (handlePlayerPointerUp_threshold Demo.draggedFar D1 M1)
    as (_ & F & _ & _ & _ & _ & _ & F221 & FD).
  destruct (handlePlayerPointerUp_threshold Demo.draggedNear D2 M2)
    as (_ & _ & N & Z & _ & _ & N219 & _ & ND).
  split.
  - split; [vm_compute; reflexivity|]. split; [vm_compute; reflexivity|].
    destruct F as [F1 F2]; [vm_compute; reflexivity|].
    split; [exact F1|]. split; [exact F2|].
    destruct FD as [FD _]; [vm_compute; reflexivity..|].
    rewrite FD. apply F221; vm_compute; reflexivity.
  - split; [vm_compute; reflexivity|]. split; [vm_compute; reflexivity|].
    destruct N as [N1 _]; [vm_compute; discriminate|].
    split; [exact N1|]. split; [exact Z|].
    destruct ND as [_ ND]; [vm_compute; reflexivity..|].
    rewrite ND. apply N219; vm_compute; reflexivity.
Defined.

(** ** Opening and closing *)

(** C8: [playVideo], from any world and so from any presentation mode,
    makes the item the active one, sets the mode to full, resets
    [currentTime] and [duration] to 0, clears the countdown and closes the
    related sheet; the effects that run after it keep all of this. *)
Theorem playVideo_opens (video : VideoItem) (w : World) :
  activeVideo (state (playVideo video w)) = Some video
  /\ playerMode (state (playVideo video w)) = full
  /\ currentTime (state (playVideo video w)) = 0
  /\ duration (state (playVideo video w)) = 0
  /\ nextCountdown (state (playVideo video w)) = None
  /\ relatedOpen (state (playVideo video w)) = false
  /\ state (commit w (playVideo video w)) = state (playVideo video w).
Proof.
  repeat split.
  rewrite commit_state. apply pass_state_idle. right. reflexivity.
Qed.

(** C6 fails on the code: the timer [closePlayer] sets is never cleared.
    Rex is closed at time 0, Whale is opened 100 ms later, and when the
    220 ms are over the callback clears the active item of the new
    session, in full mode. *)
Theorem closePlayer_timer_outlives_open :
  timers (dispatch ClickClose Demo.watchingRex)
  = [{| timer_id := 0; due := 220; action := ClearActiveVideo |}]
  /\ activeVideo
       (state (dispatch (ClickCard Demo.whale)
                 (elapse 100 (dispatch ClickClose Demo.watchingRex))))
     = Some Demo.whale
  /\ timers (dispatch (ClickCard Demo.whale)
               (elapse 100 (dispatch ClickClose Demo.watchingRex)))
     = [{| timer_id := 0; due := 220; action := ClearActiveVideo |}]
  /\ activeVideo
       (state (elapse 119
                 (dispatch (ClickCard Demo.whale)
                    (elapse 100 (dispatch ClickClose Demo.watchingRex)))))
     = Some Demo.whale
  /\ activeVideo
       (state (elapse 120
                 (dispatch (ClickCard Demo.whale)
                    (elapse 100 (dispatch ClickClose Demo.watchingRex)))))
     = None
  /\ playerMode
       (state (elapse 120
                 (dispatch (ClickCard Demo.whale)
                    (elapse 100 (dispatch ClickClose Demo.watchingRex)))))
     = full.
Proof. repeat split; vm_compute; reflexivity. Qed.

(** Nothing in [playVideo] touches the pending timers. *)
Lemma playVideo_keeps_timers (video : VideoItem) (w : World) :
  timers (playVideo video w) = timers w.
Proof. reflexivity. Qed.

(** ** The gesture recognizers and the presentation mode *)

(** C7 fails on the code: the touch recognizer does not test the mode.
    With the player minimized, an upward swipe of 100 px opens the related
    sheet. *)
Theorem touch_swipe_ignores_mode :
  playerMode (state Demo.minimized) = mini
  /\ relatedOpen (state Demo.minimized) = false
  /\ relatedOpen
       (state (feed [Happens (TouchStart (Some 100));
                     Happens (TouchEnd (Some 0))] Demo.minimized))
     = true
  /\ playerMode
       (state (feed [Happens (TouchStart (Some 100));
                     Happens (TouchEnd (Some 0))] Demo.minimized))
     = mini.
Proof. repeat split. Qed.

(** The wheel recognizer and the start of a drag do test it. *)
Lemma wheel_and_drag_test_mode (w : World) :
  playerMode (state w) <> full ->
  (forall deltaY, handleWheel deltaY w = w)
  /\ (forall clientY noDrag, handlePlayerPointerDown clientY noDrag w = w).
Proof.
  intros M. unfold handleWheel, handlePlayerPointerDown.
  destruct (playerMode (state w)); try congruence; split; reflexivity.
Qed.

(** ** The embedded player's controls *)

Section Controls.

Lemma ytLoaded_dispatch (e : Event) (w : World) :
  ytLoaded (state (dispatch e w)) = true ->
  ytLoaded (state w) = true
  \/ (exists length, e = YtReady length)
  \/ e = YtStateChange PLAYING.
Proof.
  intros H. apply ytLoaded_commit in H. now apply ytLoaded_handle.
Qed.

Lemma ytLoaded_timers (handles : list nat) :
  forall w,
    ytLoaded (state (fireAll handles w)) = true ->
    ytLoaded (state w) = true.
Proof.
  induction handles as [|h r IH]; intros w H; [exact H|].
  unfold fireAll in *. cbn [fold_left] in H. apply IH in H.
  apply ytLoaded_dispatch in H as [H|[[l H]|H]];
    [exact H | discriminate | discriminate].
Qed.

Lemma ytLoaded_tick (w : World) :
  ytLoaded (state (tick w)) = true -> ytLoaded (state w) = true.
Proof. unfold tick. intros H. now apply ytLoaded_timers in H. Qed.

Lemma ytLoaded_advance (i : Input) (w : World) :
  silent i = true ->
  ytLoaded (state w) = false ->
  ytLoaded (state (advance i w)) = false.
Proof.
  intros Q F. destruct (ytLoaded (state (advance i w))) eqn:E;
    [|reflexivity].
  destruct i as [e|]; cbn [advance] in E.
  - apply ytLoaded_dispatch in E as [E|[[l E]|E]]; subst;
      [congruence | discriminate | discriminate].
  - apply ytLoaded_tick in E. congruence.
Qed.

Lemma ytLoaded_feed (inputs : list Input) :
  forall w,
    forallb silent inputs = true ->
    ytLoaded (state w) = false ->
    ytLoaded (state (feed inputs w)) = false.
Proof.
  induction inputs as [|i r IH]; intros w Q F; [exact F|].
  cbn [forallb] in Q. apply andb_true_iff in Q as [Q1 Q2].
  cbn [feed fold_left]. apply IH; [exact Q2|].
  now apply ytLoaded_advance.
Qed.

End Controls.

(** C5, as the code has it: [playVideo] leaves [ytLoaded] false; after
    that only the player's ready event and a [PLAYING] state change set
    it.  So as long as neither has come, [ytLoaded] stays false, and the
    controls of an embedded item stay disabled. *)
Theorem ytLoaded_after_ready_or_playing :
  (forall video w, ytLoaded (state (commit w (playVideo video w))) = false)
  /\ (forall e w,
         ytLoaded (state (dispatch e w)) = true ->
         ytLoaded (state w) = true
         \/ (exists length, e = YtReady length)
         \/ e = YtStateChange PLAYING)
  /\ (forall w,
         ytLoaded (state (tick w)) = true -> ytLoaded (state w) = true)
  /\ (forall inputs w,
         ytLoaded (state w) = false ->
         forallb silent inputs = true ->
         ytLoaded (state (feed inputs w)) = false
         /\ (isYouTube (state (feed inputs w)) = true ->
             ytControlsDisabled (state (feed inputs w)) = true)).
Proof.
  split.
  { intros video w.
    destruct (ytLoaded (state (commit w (playVideo video w)))) eqn:E;
      [|reflexivity].
    apply ytLoaded_commit in E. discriminate. }
  split; [exact ytLoaded_dispatch|].
  split; [exact ytLoaded_tick|].
  intros inputs w F Q.
  assert (ytLoaded (state (feed inputs w)) = false) as L
      by now apply ytLoaded_feed.
  split; [exact L|]. intros Y. unfold ytControlsDisabled. now rewrite Y, L.
Qed.

Lemma ytLoaded_after_ready_or_playing_witness :
  (ytLoaded (state Demo.watchingRaptor) = true
   \/ (exists length, YtReady 60 = YtReady length)
   \/ YtReady 60 = YtStateChange PLAYING)
  /\ ytLoaded (state Demo.playingRaptor) = true
  /\ ytLoaded
       (state (feed [Happens (YtProgress 5 0); Millisecond; Happens YtPoll;
                     Happens (Wheel 30); Happens (YtStateChange BUFFERING)]
                    Demo.watchingRaptor)) = false
  /\ ytControlsDisabled
       (state (feed [Happens (YtProgress 5 0); Millisecond; Happens YtPoll;
                     Happens (Wheel 30); Happens (YtStateChange BUFFERING)]
                    Demo.watchingRaptor)) = true.
Proof.
  pose proof ytLoaded_after_ready_or_playing as (_ & D & T & F).
  split; [apply (D (YtReady 60) Demo.watchingRaptor); reflexivity|].
  split; [apply (T Demo.playingRaptor); reflexivity|].
  destruct (F [Happens (YtProgress 5 0); Millisecond; Happens YtPoll;
               Happens (Wheel 30); Happens (YtStateChange BUFFERING)]
              Demo.watchingRaptor eq_refl eq_refl) as [L C].
  split; [exact L | apply C; reflexivity].
Defined.

(** C5 as written fails: the ready event sets [ytLoaded] before any
    [PLAYING] state change has come, and the controls are enabled. *)
Lemma ytLoaded_on_ready :
  ytLoaded (state Demo.watchingRaptor) = false
  /\ ytControlsDisabled (state Demo.watchingRaptor) = true
  /\ existsb announcesPlaying [Happens (YtReady 60)] = false
  /\ ytLoaded (state (feed [Happens (YtReady 60)] Demo.watchingRaptor))
     = true
  /\ ytControlsDisabled
       (state (feed [Happens (YtReady 60)] Demo.watchingRaptor))
     = false.
Proof. repeat split. Qed.

(** ** The feed *)

Section Feed.

Lemma count_dispatch_other (e : Event) (w : World) :
  (forall b, e <> Intersection b) ->
  visibleCategoryCount (state (dispatch e w))
  = visibleCategoryCount (state w).
Proof.
  intros H. unfold dispatch. rewrite count_commit. now apply count_handle.
Qed.

(** An intersection reported while the sentinel is rendered adds one. *)
Lemma count_intersection (w : World) :
  sentinelRendered w = true ->
  visibleCategoryCount (state (dispatch (Intersection (Some true)) w))
  = S (visibleCategoryCount (state w)).
Proof.
  intros R. unfold dispatch. rewrite count_commit.
  unfold handle, guarded. rewrite R. unfold onIntersection.
  cbn [state onState setVisibleCategoryCount visibleCategoryCount
       with_visibleCategoryCount].
  unfold sentinelRendered in R. apply Nat.ltb_lt in R. lia.
Qed.

Lemma count_dispatch (e : Event) (w : World) :
  visibleCategoryCount (state (dispatch e w))
  = visibleCategoryCount (state w)
  \/ (sentinelRendered w = true
      /\ visibleCategoryCount (state (dispatch e w))
         = S (visibleCategoryCount (state w))).
Proof.
  destruct e; try (left; apply count_dispatch_other; discriminate).
  destruct isIntersecting as [[|]|].
  - destruct (sentinelRendered w) eqn:R.
    + right. split; [reflexivity|]. now apply count_intersection.
    + left. unfold dispatch. rewrite count_commit.
      unfold handle, guarded. now rewrite R.
  - left. unfold dispatch. rewrite count_commit.
    unfold handle, guarded, onIntersection. now destruct (sentinelRendered w).
  - left. unfold dispatch. rewrite count_commit.
    unfold handle, guarded, onIntersection. now destruct (sentinelRendered w).
Qed.

Lemma count_timers (handles : list nat) :
  forall w,
    visibleCategoryCount
      (state (fireAll handles w))
    = visibleCategoryCount (state w).
Proof.
  induction handles as [|h r IH]; intros w; [reflexivity|].
  unfold fireAll in *. cbn [fold_left]. rewrite IH. apply count_dispatch_other. discriminate.
Qed.

Lemma catalog_timers (handles : list nat) :
  forall w,
    catalog (fireAll handles w)
    = catalog w.
Proof.
  induction handles as [|h r IH]; intros w; [reflexivity|].
  unfold fireAll in *. cbn [fold_left]. rewrite IH. apply catalog_dispatch.
Qed.

Lemma catalog_advance (i : Input) (w : World) :
  catalog (advance i w) = catalog w.
Proof.
  destruct i as [e|]; cbn [advance]; [apply catalog_dispatch|].
  unfold tick. now rewrite catalog_timers.
Qed.

Lemma count_advance (i : Input) (w : World) :
  visibleCategoryCount (state (advance i w))
  = visibleCategoryCount (state w)
  \/ (sentinelRendered w = true
      /\ visibleCategoryCount (state (advance i w))
         = S (visibleCategoryCount (state w))).
Proof.
  destruct i as [e|]; cbn [advance]; [apply count_dispatch|].
  left. unfold tick. now rewrite count_timers.
Qed.

Lemma reachable_feed (c : Catalog) (h : Q) (api : bool) (w : World) :
  Reachable c h api w ->
  catalog w = c
  /\ (visibleCategoryCount (state w)
      <= Nat.max 2 (List.length (categoryGroups c)))%nat.
Proof.
  induction 1 as [|w i R [C B]].
  - split; [reflexivity|]. unfold initial. cbn [state visibleCategoryCount]. lia.
  - split; [now rewrite catalog_advance|].
    destruct (count_advance i w) as [E|[S E]]; rewrite E; [exact B|].
    unfold sentinelRendered in S. apply Nat.ltb_lt in S.
    rewrite C in S. lia.
Qed.

End Feed.

(** C9, as the code has it: [visibleCategoryCount] starts at 2; an
    intersection of the rendered sentinel adds exactly 1; no input makes
    it smaller; it never exceeds the larger of 2 and the number of
    category groups, so with two groups or more it never exceeds their
    number; and the sentinel is not rendered once the count has reached
    that number. *)
Theorem visibleCategoryCount_grows (c : Catalog) (h : Q) (api : bool) :
  visibleCategoryCount (state (initial c h api)) = 2%nat
  /\ forall w,
      Reachable c h api w ->
      (visibleCategoryCount (state w)
       <= Nat.max 2 (List.length (categoryGroups c)))%nat
      /\ ((2 <= List.length (categoryGroups c))%nat ->
          (visibleCategoryCount (state w)
           <= List.length (categoryGroups c))%nat)
      /\ (forall i,
             (visibleCategoryCount (state w)
              <= visibleCategoryCount (state (advance i w)))%nat)
      /\ (sentinelRendered w = true ->
          visibleCategoryCount
            (state (dispatch (Intersection (Some true)) w))
          = S (visibleCategoryCount (state w)))
      /\ ((List.length (categoryGroups c)
           <= visibleCategoryCount (state w))%nat ->
          sentinelRendered w = false).
Proof.
  split; [reflexivity|]. intros w R.
  destruct (reachable_feed c h api w R) as [C B].
  split; [exact B|].
  split; [lia|].
  split.
  { intros i. destruct (count_advance i w) as [E|[_ E]]; rewrite E; lia. }
  split; [apply count_intersection|].
  intros L. unfold sentinelRendered. rewrite C. apply Nat.ltb_ge. exact L.
Qed.

Lemma visibleCategoryCount_grows_witness :
  (visibleCategoryCount (state Demo.start) <= 3)%nat
  /\ (visibleCategoryCount (state Demo.start)
      <= visibleCategoryCount
           (state (advance (Happens (Intersection (Some true)))
                           Demo.start)))%nat
  /\ visibleCategoryCount
       (state (dispatch (Intersection (Some true)) Demo.start))
     = 3%nat
  /\ sentinelRendered (dispatch (Intersection (Some true)) Demo.start)
     = false.
Proof.
  pose proof (visibleCategoryCount_grows Demo.shelf 1000 true) as [_ G].
  destruct (G Demo.start (ReachInitial _ _ _)) as (_ & B & M & I & _).
  split; [apply B; cbn; lia|].
  split; [apply M|].
  split; [apply I; reflexivity|].
  destruct (G (advance (Happens (Intersection (Some true))) Demo.start)
              (ReachAdvance _ _ _ _ _ (ReachInitial _ _ _)))
    as (_ & _ & _ & _ & S).
  apply S. cbn. lia.
Defined.

(** C9 as written fails for a catalog with a single category group: the
    count starts at 2, above the number of groups. *)
Lemma visibleCategoryCount_above_single :
  List.length (categoryGroups Demo.single) = 1%nat
  /\ visibleCategoryCount (state (initial Demo.single 1000 true)) = 2%nat
  /\ ~ (visibleCategoryCount (state (initial Demo.single 1000 true))
        <= List.length (categoryGroups Demo.single))%nat.
Proof. repeat split. cbn. lia. Qed.

(** ** Autoplay: the related set and the next item *)

Section Related.

Lemma relatedVideos_spec (w : World) (active : VideoItem) :
  activeVideo (state w) = Some active ->
  forall video,
    In video (relatedVideos w)
    <-> In video (allVideos (catalog w)) /\ sameCategory video active.
Proof.
  intros A video. unfold relatedVideos, sameCategory. rewrite A.
  rewrite filter_In. now rewrite String.eqb_eq.
Qed.

Lemma findIndexFrom_bounds {A : Type} (p : A -> bool) (l : list A) :
  forall i,
    (0 <= i)%Z ->
    (-1 <= Js.findIndexFrom p l i < i + Z.of_nat (List.length l))%Z.
Proof.
  induction l as [|x r IH]; intros i H; cbn [Js.findIndexFrom List.length].
  - lia.
  - destruct (p x); [lia|]. specialize (IH (i + 1)%Z). lia.
Qed.

(** [findIndex] returns the first position that satisfies the test. *)
Lemma findIndexFrom_first {A : Type} (p : A -> bool) (l : list A) :
  forall i k x,
    nth_error l k = Some x ->
    p x = true ->
    (forall j y, (j < k)%nat -> nth_error l j = Some y -> p y = false) ->
    Js.findIndexFrom p l i = (i + Z.of_nat k)%Z.
Proof.
  induction l as [|a r IH]; intros i k x N P F.
  - destruct k; discriminate.
  - destruct k as [|k]; cbn [Js.findIndexFrom].
    + cbn in N. injection N as ->. rewrite P. lia.
    + rewrite (F 0%nat a) by (cbn; auto; lia).
      rewrite (IH (i + 1)%Z k x); [lia|exact N|exact P|].
      intros j y J Y. apply (F (S j) y); [lia|exact Y].
Qed.

(** With distinct ids the active item is found where it is. *)
Lemma findIndex_active (l : list VideoItem) (active : VideoItem) (k : nat) :
  nth_error l k = Some active ->
  NoDup (map id l) ->
  Js.findIndex (hasId active) l = Z.of_nat k.
Proof.
  intros N D. unfold Js.findIndex.
  rewrite (findIndexFrom_first (hasId active) l 0%Z k active N).
  - reflexivity.
  - unfold hasId. apply String.eqb_refl.
  - intros j y J Y. unfold hasId. apply String.eqb_neq. intros E.
    assert (nth_error (map id l) j = nth_error (map id l) k) as Q.
    { rewrite !nth_error_map, Y, N. cbn. now rewrite E. }
    apply NoDup_nth_error in Q; [lia|exact D|].
    rewrite length_map. apply nth_error_Some. congruence.
Qed.

(** The index of the next item lies within the related set. *)
Lemma next_index_within (l : list VideoItem) (active : VideoItem) :
  (0 < List.length l)%nat ->
  (Z.to_nat (Z.rem (Js.findIndex (hasId active) l + 1)
                   (Z.of_nat (List.length l)))
   < List.length l)%nat.
Proof.
  intros L.
  pose proof (findIndexFrom_bounds (hasId active) l 0%Z (Z.le_refl 0)) as B.
  fold (Js.findIndex (hasId active) l) in B.
  rewrite Z.rem_mod_nonneg by lia.
  pose proof (Z.mod_pos_bound (Js.findIndex (hasId active) l + 1)
                (Z.of_nat (List.length l))).
  lia.
Qed.

Lemma handleVideoEnded_few (w : World) :
  (List.length (relatedVideos w) < 2)%nat -> handleVideoEnded w = w.
Proof.
  intros L. unfold handleVideoEnded.
  destruct (activeVideo (state w)); [|reflexivity].
  apply Nat.ltb_lt in L. now rewrite L.
Qed.

Lemma handleVideoEnded_next (w : World) (active : VideoItem) :
  activeVideo (state w) = Some active ->
  (2 <= List.length (relatedVideos w))%nat ->
  exists next,
    nth_error (relatedVideos w)
      (Z.to_nat ((Js.findIndex (hasId active) (relatedVideos w) + 1)
                 mod Z.of_nat (List.length (relatedVideos w))))
    = Some next
    /\ handleVideoEnded w
       = setNextCountdown (Some {| seconds := 2; nextVideo := next |}) w.
Proof.
  intros A L.
  pose proof (next_index_within (relatedVideos w) active ltac:(lia)) as B.
  pose proof (findIndexFrom_bounds (hasId active) (relatedVideos w) 0%Z
                (Z.le_refl 0)) as F.
  fold (Js.findIndex (hasId active) (relatedVideos w)) in F.
  rewrite Z.rem_mod_nonneg in B by lia.
  destruct (nth_error (relatedVideos w) _) as [next|] eqn:N.
  2:{ apply nth_error_None in N. lia. }
  exists next. split; [reflexivity|].
  unfold handleVideoEnded. rewrite A.
  destruct (Nat.ltb_spec (List.length (relatedVideos w)) 2) as [|_]; [lia|].
  fold (hasId active). rewrite Z.rem_mod_nonneg by lia.
  now rewrite (nth_error_nth _ _ active N).
Qed.

End Related.

(** ** Autoplay: the countdown *)

Section Countdown.

Lemma onRefs_onRefs (f g : Refs -> Refs) (w : World) :
  onRefs f (onRefs g w) = onRefs (fun r => f (g r)) w.
Proof. reflexivity. Qed.

Lemma onRefs_self (f : Refs -> Refs) (w w' : World) :
  w = onRefs f w' -> w = onRefs (fun _ => refs w) w'.
Proof. intros ->. reflexivity. Qed.

Lemma onState_onRefs (f : State -> State) (g : Refs -> Refs) (w : World) :
  onState f (onRefs g w) = onRefs g (onState f w).
Proof. reflexivity. Qed.

Lemma setNextCountdown_onRefs (v : option Countdown) (g : Refs -> Refs)
  (w : World) :
  setNextCountdown v (onRefs g w) = onRefs g (setNextCountdown v w).
Proof. reflexivity. Qed.

Lemma clearTimeout_onRefs (h : nat) (g : Refs -> Refs) (w : World) :
  clearTimeout h (onRefs g w) = onRefs g (clearTimeout h w).
Proof. reflexivity. Qed.

Lemma setTimeout_onRefs (a : TimerAction) (d : Z) (g : Refs -> Refs)
  (w : World) :
  setTimeout a d (onRefs g w) = onRefs g (setTimeout a d w).
Proof. reflexivity. Qed.

Lemma withCountdownEffect_onRefs (h : option nat) (b : bool)
  (g : Refs -> Refs) (w : World) :
  withCountdownEffect h b (onRefs g w) = onRefs g (withCountdownEffect h b w).
Proof. reflexivity. Qed.

Lemma playVideo_onRefs (video : VideoItem) (g : Refs -> Refs) (w : World) :
  playVideo video (onRefs g w) = onRefs g (playVideo video w).
Proof.
  unfold playVideo, setActiveVideo, setPlayerMode, setRelatedOpen,
    setCurrentTime, setDuration, setYtLoaded.
  now rewrite !onState_onRefs, setNextCountdown_onRefs.
Qed.

(** The countdown effect neither reads nor writes the refs. *)
Lemma countdownEffect_onRefs_acc (g : Refs -> Refs) (cur acc : World) :
  countdownEffect cur (onRefs g acc) = onRefs g (countdownEffect cur acc).
Proof.
  unfold countdownEffect.
  destruct (countdownChanged cur); cbn [negb]; [|reflexivity].
  change (countdownTimeout (onRefs g acc)) with (countdownTimeout acc).
  change (nextTimerId (onRefs g acc)) with (nextTimerId acc).
  destruct (countdownTimeout acc);
    destruct (nextCountdown (state cur)) as [c|];
    try destruct (seconds c <=? 0)%Z;
    rewrite ?clearTimeout_onRefs, ?withCountdownEffect_onRefs,
      ?playVideo_onRefs, ?setNextCountdown_onRefs, ?setTimeout_onRefs,
      ?withCountdownEffect_onRefs;
    reflexivity.
Qed.

Lemma countdownEffect_onRefs_cur (f : Refs -> Refs) (cur acc : World) :
  countdownEffect (onRefs f cur) acc = countdownEffect cur acc.
Proof. reflexivity. Qed.

(** Up to the refs, a pass is the countdown effect. *)
Lemma pass_modulo_refs (prev cur : World) :
  pass prev cur
  = onRefs (fun _ => refs (pass prev cur)) (countdownEffect cur cur).
Proof.
  apply onRefs_self with
    (f := fun _ => refs (youtubeEffect prev (render cur)
                           (countdownEffect (render cur)
                              (autoplayEffect prev (render cur)
                                 (render cur))))).
  unfold pass. rewrite youtubeEffect_refs at 1.
  rewrite autoplayEffect_refs at 1.
  set (F := fun _ : Refs => refs _).
  rewrite countdownEffect_onRefs_acc.
  set (G := fun _ : Refs => refs _).
  unfold render. cbv zeta.
  rewrite countdownEffect_onRefs_cur, countdownEffect_onRefs_acc.
  reflexivity.
Qed.

Lemma commit_modulo_refs (prev cur : World) :
  commit prev cur
  = onRefs (fun _ => refs (commit prev cur))
      (countdownEffect (countdownEffect cur cur) (countdownEffect cur cur)).
Proof.
  eapply onRefs_self.
  unfold commit. rewrite pass_modulo_refs.
  rewrite (pass_modulo_refs prev cur).
  set (G := fun _ : Refs => refs _).
  set (H := fun _ : Refs => refs _).
  rewrite countdownEffect_onRefs_cur, countdownEffect_onRefs_acc.
  rewrite onRefs_onRefs. reflexivity.
Qed.


(** *** The countdown effect, case by case *)

Lemma countdownEffect_idle (cur acc : World) :
  countdownChanged cur = false -> countdownEffect cur acc = acc.
Proof. intros C. unfold countdownEffect. now rewrite C. Qed.

Lemma countdownEffect_clear (c : World) :
  countdownChanged c = true ->
  nextCountdown (state c) = None ->
  countdownEffect c c = cleanup c.
Proof.
  intros C N. unfold countdownEffect, cleanup. rewrite C, N. reflexivity.
Qed.

Lemma countdownEffect_arm (c : World) (cd : Countdown) :
  countdownChanged c = true ->
  nextCountdown (state c) = Some cd ->
  (0 < seconds cd)%Z ->
  countdownEffect c c = arm (cleanup c).
Proof.
  intros C N P. unfold countdownEffect, cleanup, arm. rewrite C, N.
  cbn [negb]. destruct (Z.leb_spec (seconds cd) 0); [lia|reflexivity].
Qed.

Lemma countdownEffect_open (c : World) (cd : Countdown) :
  countdownChanged c = true ->
  nextCountdown (state c) = Some cd ->
  (seconds cd <= 0)%Z ->
  countdownEffect c c
  = setNextCountdown None (playVideo (nextVideo cd) (cleanup c)).
Proof.
  intros C N P. unfold countdownEffect, cleanup. rewrite C, N.
  cbn [negb]. destruct (Z.leb_spec (seconds cd) 0); [reflexivity|lia].
Qed.

(** What [playVideo], run by the effect, leaves behind. *)
Lemma reopened_fields (video : VideoItem) (c : World) (cd : Countdown) :
  nextCountdown (state c) = Some cd ->
  countdownChanged (setNextCountdown None (playVideo video (cleanup c)))
  = true
  /\ nextCountdown
       (state (setNextCountdown None (playVideo video (cleanup c))))
     = None
  /\ countdownTimeout (setNextCountdown None (playVideo video (cleanup c)))
     = None.
Proof.
  intros N. destruct c as [cat st rf tm nid nw ih ct cc].
  destruct st as [av pm ip ctm du ro dof idr si nc vc yr yl].
  cbn [state nextCountdown] in N. subst nc.
  destruct ct; repeat apply conj; vm_compute; reflexivity.
Qed.

(** A commit, up to the refs, in each of the four cases. *)
Lemma commit_idle (prev c : World) :
  countdownChanged c = false ->
  commit prev c = onRefs (fun _ => refs (commit prev c)) c.
Proof.
  intros C. pose proof (commit_modulo_refs prev c) as E.
  now rewrite !(countdownEffect_idle c c C) in E.
Qed.

Lemma commit_clear (prev c : World) :
  countdownChanged c = true ->
  nextCountdown (state c) = None ->
  commit prev c = onRefs (fun _ => refs (commit prev c)) (cleanup c).
Proof.
  intros C N. pose proof (commit_modulo_refs prev c) as E.
  rewrite !(countdownEffect_clear c C N) in E.
  now rewrite (countdownEffect_idle (cleanup c) (cleanup c) eq_refl) in E.
Qed.

Lemma commit_arm (prev c : World) (cd : Countdown) :
  countdownChanged c = true ->
  nextCountdown (state c) = Some cd ->
  (0 < seconds cd)%Z ->
  commit prev c = onRefs (fun _ => refs (commit prev c)) (arm (cleanup c)).
Proof.
  intros C N P. pose proof (commit_modulo_refs prev c) as E.
  rewrite !(countdownEffect_arm c cd C N P) in E.
  now rewrite (countdownEffect_idle (arm (cleanup c)) (arm (cleanup c))
                 eq_refl) in E.
Qed.

Lemma commit_open (prev c : World) (cd : Countdown) :
  countdownChanged c = true ->
  nextCountdown (state c) = Some cd ->
  (seconds cd <= 0)%Z ->
  commit prev c
  = onRefs (fun _ => refs (commit prev c)) (reopen (nextVideo cd) c).
Proof.
  intros C N P. pose proof (commit_modulo_refs prev c) as E.
  rewrite !(countdownEffect_open c cd C N P) in E.
  destruct (reopened_fields (nextVideo cd) c cd N) as (F1 & F2 & F3).
  rewrite (countdownEffect_clear _ F1 F2) in E.
  unfold cleanup at 1 in E. rewrite F3 in E. exact E.
Qed.

Lemma reopen_fields (video : VideoItem) (c : World) :
  state (reopen video c) = opened video (state c)
  /\ timers (reopen video c) = timers (cleanup c)
  /\ now (reopen video c) = now c
  /\ countdownChanged (reopen video c) = false
  /\ nextTimerId (reopen video c) = nextTimerId (cleanup c).
Proof.
  destruct c as [cat st rf tm nid nw ih ct cc].
  destruct st as [av pm ip ctm du ro dof idr si nc vc yr yl].
  destruct ct; repeat apply conj; vm_compute; reflexivity.
Qed.

Lemma onRefs_fields (f : Refs -> Refs) (w : World) :
  state (onRefs f w) = state w
  /\ timers (onRefs f w) = timers w
  /\ now (onRefs f w) = now w
  /\ nextTimerId (onRefs f w) = nextTimerId w.
Proof. repeat split. Qed.

(** *** Pending timers *)

(** Removing timers keeps the handles distinct. *)
Lemma handles_filter (keep : Timer -> bool) (pending : list Timer) :
  NoDup (map timer_id pending) ->
  NoDup (map timer_id (filter keep pending)).
Proof.
  induction pending as [|t r IH]; cbn [map filter]; intros D; [exact D|].
  inversion D as [|x y N D']; subst.
  destruct (keep t); cbn [map]; [|now apply IH].
  constructor; [|now apply IH].
  intros I. apply N. apply in_map_iff in I as (u & E & I).
  apply filter_In in I as [I _]. apply in_map_iff. now exists u.
Qed.

(** A handle determines its pending timer. *)
Lemma handle_determines (pending : list Timer) (t u : Timer) :
  NoDup (map timer_id pending) ->
  In t pending -> In u pending -> timer_id t = timer_id u -> t = u.
Proof.
  induction pending as [|x r IH]; cbn [map]; intros D It Iu E;
    [contradiction|].
  inversion D as [|y z N D']; subst.
  destruct It as [->|It], Iu as [->|Iu]; try reflexivity.
  - exfalso. apply N. rewrite E. now apply in_map.
  - exfalso. apply N. rewrite <- E. now apply in_map.
  - now apply IH.
Qed.

Lemma timers_clearTimeout (j : nat) (w : World) (t : Timer) :
  In t (timers (clearTimeout j w)) <-> In t (timers w) /\ timer_id t <> j.
Proof.
  cbn [timers clearTimeout]. rewrite filter_In, negb_true_iff.
  now rewrite Nat.eqb_neq.
Qed.

Lemma handlesIssued_clearTimeout (j : nat) (w : World) :
  handlesIssued w -> handlesIssued (clearTimeout j w).
Proof.
  intros [D B]. split.
  - cbn [timers clearTimeout]. now apply handles_filter.
  - intros t I. apply timers_clearTimeout in I as [I _]. now apply B.
Qed.

Lemma timers_cleanup (c : World) (t : Timer) :
  In t (timers (cleanup c)) ->
  In t (timers c) /\ countdownTimeout c <> Some (timer_id t).
Proof.
  unfold cleanup. destruct (countdownTimeout c) as [h|].
  - cbn [timers withCountdownEffect]. intros I.
    apply timers_clearTimeout in I as [I N]. split; [exact I|congruence].
  - cbn [timers withCountdownEffect]. intros I. split; [exact I|congruence].
Qed.

Lemma cleanup_fields (c : World) :
  state (cleanup c) = state c
  /\ nextTimerId (cleanup c) = nextTimerId c
  /\ now (cleanup c) = now c
  /\ countdownTimeout (cleanup c) = None
  /\ countdownChanged (cleanup c) = false.
Proof. unfold cleanup. destruct (countdownTimeout c); repeat split. Qed.

(** After the cleanup no countdown timer is pending. *)
Lemma cleanup_sound (c : World) :
  timersSound c ->
  handlesIssued (cleanup c)
  /\ forall t, In t (timers (cleanup c)) -> isCountdownTimer t = false.
Proof.
  intros [[D B] S]. split; [split|].
  - unfold cleanup. destruct (countdownTimeout c);
      cbn [timers withCountdownEffect clearTimeout];
      [now apply handles_filter|exact D].
  - intros t I. apply timers_cleanup in I as [I _].
    destruct (cleanup_fields c) as (_ & -> & _). now apply B.
  - intros t I. apply timers_cleanup in I as [I N].
    destruct (isCountdownTimer t) eqn:K; [|reflexivity].
    exfalso. apply N. now apply S.
Qed.

(** Arming the timer starts the count. *)
Lemma arm_counting (a : World) (n : Z) (next : VideoItem) :
  nextCountdown (state a) = Some {| seconds := n; nextVideo := next |} ->
  handlesIssued a ->
  (forall t, In t (timers a) -> isCountdownTimer t = false) ->
  counting (nextTimerId a) n next (now a + 1000) (arm a).
Proof.
  intros N [D B] K. unfold counting.
  split; [exact N|]. split; [reflexivity|].
  split; [|split; [reflexivity|]].
  - split; [split|].
    + cbn [timers arm withCountdownEffect setTimeout].
      rewrite map_app. cbn [map timer_id].
      apply NoDup_app; [exact D|repeat constructor; intros []|].
      intros x I [<-|[]]. apply in_map_iff in I as (t & E & I).
      specialize (B t I). lia.
    + cbn [timers arm withCountdownEffect setTimeout nextTimerId].
      intros t I. apply in_app_iff in I as [I|[<-|[]]].
      * specialize (B t I). lia.
      * cbn [timer_id]. lia.
    + cbn [timers arm withCountdownEffect setTimeout countdownTimeout].
      intros t I C. apply in_app_iff in I as [I|[<-|[]]].
      * rewrite (K t I) in C. discriminate.
      * reflexivity.
  - cbn [timers arm withCountdownEffect setTimeout].
    apply in_app_iff. right. left. reflexivity.
Qed.

Lemma counting_onRefs (f : Refs -> Refs) (h : nat) (n : Z)
  (next : VideoItem) (at_ : Z) (w : World) :
  counting h n next at_ w -> counting h n next at_ (onRefs f w).
Proof. exact (fun H => H). Qed.

Lemma counted_onRefs (f : Refs -> Refs) (w : World) :
  counted w -> counted (onRefs f w).
Proof. exact (fun H => H). Qed.

(** The commit that follows a new countdown with seconds left. *)
Lemma commit_counting (prev c : World) (n : Z) (next : VideoItem) :
  countdownChanged c = true ->
  nextCountdown (state c) = Some {| seconds := n; nextVideo := next |} ->
  (0 < n)%Z ->
  timersSound c ->
  counting (nextTimerId c) n next (now c + 1000) (commit prev c)
  /\ state (commit prev c) = state c
  /\ now (commit prev c) = now c
  /\ nextTimerId (commit prev c) = S (nextTimerId c).
Proof.
  intros C N P S.
  rewrite (commit_arm prev c _ C N P).
  set (F := fun _ : Refs => refs _).
  destruct (cleanup_fields c) as (F1 & F2 & F3 & _).
  destruct (cleanup_sound c S) as [I K].
  destruct (onRefs_fields F (arm (cleanup c))) as (R1 & _ & R3 & R4).
  rewrite R1, R3, R4.
  split.
  - apply counting_onRefs. rewrite <- F2, <- F3.
    apply arm_counting; [now rewrite F1|exact I|exact K].
  - cbn [state arm withCountdownEffect setTimeout now nextTimerId].
    now rewrite F1, F2, F3.
Qed.

(** The commit that follows a countdown that has reached zero. *)
Lemma commit_counted (prev c : World) (n : Z) (next : VideoItem) :
  countdownChanged c = true ->
  nextCountdown (state c) = Some {| seconds := n; nextVideo := next |} ->
  (n <= 0)%Z ->
  timersSound c ->
  counted (commit prev c)
  /\ state (commit prev c) = opened next (state c)
  /\ now (commit prev c) = now c.
Proof.
  intros C N P S.
  rewrite (commit_open prev c {| seconds := n; nextVideo := next |} C N P).
  change (nextVideo {| seconds := n; nextVideo := next |}) with next.
  set (F := fun _ : Refs => refs _).
  destruct (reopen_fields next c) as (F1 & F2 & F3 & F4 & _).
  destruct (onRefs_fields F (reopen next c)) as (R1 & _ & R3 & _).
  destruct (cleanup_sound c S) as [_ K].
  rewrite R1, R3, F1, F3.
  split; [|split; reflexivity].
  apply counted_onRefs. unfold counted. rewrite F1, F2, F4.
  repeat split. exact K.
Qed.

(** *** A timer fires *)

Lemma timerFires_cases (j : nat) (w : World) :
  (timerFires j w = w /\ forall t, In t (timers w) -> timer_id t <> j)
  \/ exists t,
      In t (timers w) /\ timer_id t = j
      /\ timerFires j w = fire (action t) (clearTimeout j w).
Proof.
  unfold timerFires. destruct (find _ (timers w)) as [t|] eqn:F.
  - right. apply find_some in F as [I E]. apply Nat.eqb_eq in E.
    exists t. auto.
  - left. split; [reflexivity|]. intros t I E.
    apply (find_none _ _ F) in I. apply Nat.eqb_neq in I. contradiction.
Qed.

Lemma timers_fire (a : TimerAction) (w : World) :
  timers (fire a w) = timers w.
Proof.
  destruct a; cbn [fire]; try reflexivity.
  unfold countdownTick. now destruct (nextCountdown (state w)).
Qed.

Lemma timers_timerFires (j : nat) (w : World) (t : Timer) :
  In t (timers (timerFires j w)) -> In t (timers w).
Proof.
  destruct (timerFires_cases j w) as [[E _]|(x & _ & _ & E)]; rewrite E;
    [auto|].
  rewrite timers_fire. intros I. now apply timers_clearTimeout in I.
Qed.

(** A commit adds no timer but the countdown's. *)
Lemma timers_commit (prev c : World) (t : Timer) :
  In t (timers (commit prev c)) ->
  In t (timers c) \/ isCountdownTimer t = true.
Proof.
  destruct (countdownChanged c) eqn:C.
  - destruct (nextCountdown (state c)) as [cd|] eqn:N.
    + destruct (Z.leb_spec (seconds cd) 0) as [P|P].
      * rewrite (commit_open prev c cd C N P).
        set (F := fun _ : Refs => refs _).
        destruct (onRefs_fields F (reopen (nextVideo cd) c))
          as (_ & -> & _).
        destruct (reopen_fields (nextVideo cd) c) as (_ & -> & _).
        intros I. left. now apply timers_cleanup in I.
      * rewrite (commit_arm prev c cd C N P).
        set (F := fun _ : Refs => refs _).
        destruct (onRefs_fields F (arm (cleanup c))) as (_ & -> & _).
        cbn [timers arm withCountdownEffect setTimeout]. intros I.
        apply in_app_iff in I as [I|[<-|[]]]; [left|right; reflexivity].
        now apply timers_cleanup in I.
    + rewrite (commit_clear prev c C N).
      set (F := fun _ : Refs => refs _).
      destruct (onRefs_fields F (cleanup c)) as (_ & -> & _).
      intros I. left. now apply timers_cleanup in I.
  - rewrite (commit_idle prev c C). intros I. left. exact I.
Qed.

Lemma noTeardown_dispatch (j : nat) (w : World) :
  noTeardown w -> noTeardown (dispatch (TimerFires j) w).
Proof.
  intros T t I. unfold dispatch in I. cbn [handle] in I.
  apply timers_commit in I as [I|I].
  - apply T. now apply timers_timerFires in I.
  - unfold isCountdownTimer in I. unfold isTeardownTimer.
    now destruct (action t).
Qed.

Lemma timersSound_clearTimeout (j : nat) (w : World) :
  timersSound w -> timersSound (clearTimeout j w).
Proof.
  intros [H S]. split; [now apply handlesIssued_clearTimeout|].
  intros t I. apply timers_clearTimeout in I as [I _]. now apply S.
Qed.

Lemma counting_clearTimeout (j h : nat) (n : Z) (next : VideoItem)
  (at_ : Z) (w : World) :
  counting h n next at_ w -> j <> h ->
  counting h n next at_ (clearTimeout j w).
Proof.
  intros (N & C & S & H & I) J.
  split; [exact N|]. split; [exact C|].
  split; [now apply timersSound_clearTimeout|]. split; [exact H|].
  apply timers_clearTimeout. split; [exact I|]. cbn [timer_id]. congruence.
Qed.

Lemma counting_onState (f : State -> State) (h : nat) (n : Z)
  (next : VideoItem) (at_ : Z) (w : World) :
  nextCountdown (f (state w)) = nextCountdown (state w) ->
  counting h n next at_ w -> counting h n next at_ (onState f w).
Proof.
  intros E (N & C & S & H & I).
  split; [cbn [state onState]; congruence|]. split; [exact C|].
  split; [exact S|]. split; [exact H|exact I].
Qed.

(** Another timer fires while the countdown runs. *)
Lemma counting_other (j h : nat) (n : Z) (next : VideoItem) (at_ : Z)
  (w : World) :
  counting h n next at_ w -> j <> h ->
  counting h n next at_ (dispatch (TimerFires j) w)
  /\ now (dispatch (TimerFires j) w) = now w
  /\ nextTimerId (dispatch (TimerFires j) w) = nextTimerId w.
Proof.
  intros K J. pose proof K as (N & C & S & H & I).
  unfold dispatch. cbn [handle].
  assert (forall c,
             counting h n next at_ c -> now c = now w ->
             nextTimerId c = nextTimerId w ->
             counting h n next at_ (commit w c)
             /\ now (commit w c) = now w
             /\ nextTimerId (commit w c) = nextTimerId w) as G.
  { intros c Kc Ec Ei. rewrite (commit_idle w c (proj1 (proj2 Kc))).
    set (F := fun _ : Refs => refs _).
    destruct (onRefs_fields F c) as (_ & _ & -> & ->).
    split; [now apply counting_onRefs|auto]. }
  destruct (timerFires_cases j w) as [[E _]|(t & It & Et & E)]; rewrite E.
  - now apply G.
  - destruct (action t) eqn:A; cbn [fire].
    + apply G; [|reflexivity|reflexivity].
      apply counting_onState; [reflexivity|].
      now apply counting_clearTimeout.
    + apply G; [|reflexivity|reflexivity].
      apply counting_onState; [reflexivity|].
      now apply counting_clearTimeout.
    + exfalso. apply J.
      assert (countdownTimeout w = Some (timer_id t)) as Q.
      { apply (proj2 S t It). unfold isCountdownTimer. now rewrite A. }
      congruence.
Qed.

(** The countdown's timer is the pending timer with its handle. *)
Lemma counting_timer (h : nat) (n : Z) (next : VideoItem) (at_ : Z)
  (w : World) (t : Timer) :
  counting h n next at_ w -> In t (timers w) -> timer_id t = h ->
  t = {| timer_id := h; due := at_; action := CountdownTick |}.
Proof.
  intros (_ & _ & [[D _] _] & _ & I) It E.
  apply (handle_determines (timers w)); auto.
Qed.

Lemma counting_timerFires (h : nat) (n : Z) (next : VideoItem) (at_ : Z)
  (w : World) :
  counting h n next at_ w ->
  timerFires h w
  = setNextCountdown (Some {| seconds := n - 1; nextVideo := next |})
      (clearTimeout h w).
Proof.
  intros K. pose proof K as (N & C & S & H & I).
  destruct (timerFires_cases h w) as [[_ M]|(t & It & Et & E)].
  - exfalso. now apply (M _ I).
  - rewrite E. rewrite (counting_timer h n next at_ w t K It Et).
    cbn [action fire]. unfold countdownTick.
    change (nextCountdown (state (clearTimeout h w)))
      with (nextCountdown (state w)).
    now rewrite N.
Qed.

(** The countdown's timer fires with more than a second left. *)
Lemma counting_fires (h : nat) (n : Z) (next : VideoItem) (at_ : Z)
  (w : World) :
  counting h n next at_ w -> (1 < n)%Z ->
  counting (nextTimerId w) (n - 1) next (now w + 1000)
    (dispatch (TimerFires h) w)
  /\ now (dispatch (TimerFires h) w) = now w
  /\ nextTimerId (dispatch (TimerFires h) w) = S (nextTimerId w).
Proof.
  intros K L. pose proof K as (N & C & S & H & I).
  unfold dispatch. cbn [handle]. rewrite (counting_timerFires h n next at_ w K).
  destruct (commit_counting w
              (setNextCountdown
                 (Some {| seconds := n - 1; nextVideo := next |})
                 (clearTimeout h w)) (n - 1) next)
    as (K' & _ & W & Q).
  - reflexivity.
  - reflexivity.
  - lia.
  - exact (timersSound_clearTimeout h w S).
  - split; [exact K'|]. split; [exact W|exact Q].
Qed.

(** The countdown's timer fires with one second left. *)
Lemma counting_opens (h : nat) (next : VideoItem) (at_ : Z) (w : World) :
  counting h 1 next at_ w ->
  counted (dispatch (TimerFires h) w)
  /\ state (dispatch (TimerFires h) w) = opened next (state w)
  /\ now (dispatch (TimerFires h) w) = now w.
Proof.
  intros K. pose proof K as (N & C & S & H & I).
  unfold dispatch. cbn [handle]. rewrite (counting_timerFires h 1 next at_ w K).
  destruct (commit_counted w
              (setNextCountdown
                 (Some {| seconds := 1 - 1; nextVideo := next |})
                 (clearTimeout h w)) (1 - 1) next)
    as (K' & E & W).
  - reflexivity.
  - reflexivity.
  - lia.
  - exact (timersSound_clearTimeout h w S).
  - split; [exact K'|]. split; [|exact W]. rewrite E. reflexivity.
Qed.

(** A timer fires after the countdown: the item that was opened stays,
    unless a teardown is pending. *)
Lemma counted_other (j : nat) (next : VideoItem) (w : World) :
  counted w ->
  counted (dispatch (TimerFires j) w)
  /\ now (dispatch (TimerFires j) w) = now w
  /\ (noTeardown w ->
      (exists s, state w = opened next s) ->
      exists s, state (dispatch (TimerFires j) w) = opened next s).
Proof.
  intros (N & C & K). unfold dispatch. cbn [handle].
  assert (forall c,
             nextCountdown (state c) = None -> countdownChanged c = false ->
             (forall t, In t (timers c) -> In t (timers w)) ->
             counted (commit w c)
             /\ now (commit w c) = now c
             /\ state (commit w c) = state c) as G.
  { intros c Nc Cc Tc. rewrite (commit_idle w c Cc).
    set (F := fun _ : Refs => refs _).
    destruct (onRefs_fields F c) as (-> & _ & -> & _).
    split; [|auto]. apply counted_onRefs.
    split; [exact Nc|]. split; [exact Cc|]. intros t I. apply K. auto. }
  destruct (timerFires_cases j w) as [[E _]|(t & It & Et & E)]; rewrite E.
  - destruct (G w N C (fun t I => I)) as (G1 & G2 & G3).
    rewrite G3. auto.
  - assert (forall x, In x (timers (clearTimeout j w)) -> In x (timers w))
      as Q by (intros x Ix; now apply timers_clearTimeout in Ix).
    destruct (action t) eqn:A; cbn [fire].
    + destruct (G (setActiveVideo None (clearTimeout j w)) N C Q)
        as (G1 & G2 & G3).
      split; [exact G1|]. split; [exact G2|].
      intros T _. specialize (T t It). unfold isTeardownTimer in T.
      rewrite A in T. discriminate.
    + destruct (G (setSkipIndicator None (clearTimeout j w)) N C Q)
        as (G1 & G2 & G3).
      split; [exact G1|]. split; [exact G2|].
      intros _ [s S]. rewrite G3.
      exists (with_skipIndicator None s).
      cbn [state setSkipIndicator onState clearTimeout]. rewrite S.
      reflexivity.
    + specialize (K t It). unfold isCountdownTimer in K.
      rewrite A in K. discriminate.
Qed.

(** *** The timers of one millisecond *)

Lemma fireAll_cons (j : nat) (handles : list nat) (w : World) :
  fireAll (j :: handles) w = fireAll handles (dispatch (TimerFires j) w).
Proof. reflexivity. Qed.

Lemma noTeardown_fireAll (handles : list nat) :
  forall w, noTeardown w -> noTeardown (fireAll handles w).
Proof.
  induction handles as [|j r IH]; intros w T; [exact T|].
  rewrite fireAll_cons. apply IH. now apply noTeardown_dispatch.
Qed.

Lemma counting_fireAll_others (h : nat) (n : Z) (next : VideoItem)
  (at_ : Z) (handles : list nat) :
  forall w,
    counting h n next at_ w ->
    (forall j, In j handles -> j <> h) ->
    counting h n next at_ (fireAll handles w)
    /\ now (fireAll handles w) = now w
    /\ nextTimerId (fireAll handles w) = nextTimerId w.
Proof.
  induction handles as [|j r IH]; intros w K J; [auto|].
  rewrite fireAll_cons.
  destruct (counting_other j h n next at_ w K (J j (or_introl eq_refl)))
    as (K' & W & Q).
  destruct (IH _ K' (fun x I => J x (or_intror I))) as (K'' & W' & Q').
  split; [exact K''|]. split; congruence.
Qed.

Lemma counting_fireAll_fires (h : nat) (n : Z) (next : VideoItem)
  (at_ : Z) (handles : list nat) :
  forall w,
    counting h n next at_ w ->
    (1 < n)%Z ->
    In h handles ->
    (forall j, In j handles -> (j < nextTimerId w)%nat) ->
    counting (nextTimerId w) (n - 1) next (now w + 1000)
      (fireAll handles w)
    /\ now (fireAll handles w) = now w.
Proof.
  induction handles as [|j r IH]; intros w K L I B; [contradiction|].
  rewrite fireAll_cons. destruct (Nat.eq_dec j h) as [->|J].
  - destruct (counting_fires h n next at_ w K L) as (K' & W & Q).
    destruct (counting_fireAll_others (nextTimerId w) (n - 1) next
                (now w + 1000) r _ K') as (K'' & W' & _).
    + intros x Ix E. specialize (B x (or_intror Ix)). lia.
    + split; [exact K''|congruence].
  - destruct (counting_other j h n next at_ w K J) as (K' & W & Q).
    destruct I as [I|I]; [contradiction|].
    destruct (IH _ K' L I) as (K'' & W').
    + intros x Ix. rewrite Q. apply B. now right.
    + rewrite Q, W in K''. split; [exact K''|congruence].
Qed.

Lemma counted_fireAll (next : VideoItem) (handles : list nat) :
  forall w,
    counted w ->
    counted (fireAll handles w)
    /\ now (fireAll handles w) = now w
    /\ (noTeardown w ->
        (exists s, state w = opened next s) ->
        exists s, state (fireAll handles w) = opened next s).
Proof.
  induction handles as [|j r IH]; intros w K; [auto|].
  rewrite fireAll_cons.
  destruct (counted_other j next w K) as (K' & W & S).
  destruct (IH _ K') as (K'' & W' & S').
  split; [exact K''|]. split; [congruence|].
  intros T E. apply S'; [now apply noTeardown_dispatch|now apply S].
Qed.

Lemma counting_fireAll_opens (h : nat) (next : VideoItem) (at_ : Z)
  (handles : list nat) :
  forall w,
    counting h 1 next at_ w ->
    In h handles ->
    counted (fireAll handles w)
    /\ now (fireAll handles w) = now w
    /\ (noTeardown w -> exists s, state (fireAll handles w) = opened next s).
Proof.
  induction handles as [|j r IH]; intros w K I; [contradiction|].
  rewrite fireAll_cons. destruct (Nat.eq_dec j h) as [->|J].
  - destruct (counting_opens h next at_ w K) as (K' & S & W).
    destruct (counted_fireAll next r _ K') as (K'' & W' & S').
    split; [exact K''|]. split; [congruence|].
    intros T. apply S'; [now apply noTeardown_dispatch|].
    now exists (state w).
  - destruct (counting_other j h 1 next at_ w K J) as (K' & W & Q).
    destruct I as [I|I]; [contradiction|].
    destruct (IH _ K' I) as (K'' & W' & S').
    split; [exact K''|]. split; [congruence|].
    intros T. apply S'. now apply noTeardown_dispatch.
Qed.

(** *** The clock and the countdown *)

Lemma counting_withNow (h : nat) (n : Z) (next : VideoItem) (at_ t : Z)
  (w : World) :
  counting h n next at_ w -> counting h n next at_ (withNow t w).
Proof. exact (fun H => H). Qed.

Lemma dueHandles_spec (w : World) (j : nat) :
  In j (dueHandles w)
  <-> exists t, In t (timers w) /\ (due t <= now w)%Z /\ timer_id t = j.
Proof.
  unfold dueHandles. rewrite in_map_iff. split.
  - intros (t & E & I). apply filter_In in I as [I D].
    apply Z.leb_le in D. now exists t.
  - intros (t & I & D & E). exists t. split; [exact E|].
    apply filter_In. split; [exact I|]. now apply Z.leb_le.
Qed.

Lemma noTeardown_tick (w : World) : noTeardown w -> noTeardown (tick w).
Proof. intros T. unfold tick. cbv zeta. now apply noTeardown_fireAll. Qed.

Lemma noTeardown_elapse (k : nat) (w : World) :
  noTeardown w -> noTeardown (elapse k w).
Proof.
  intros T. induction k as [|k IH]; [exact T|].
  change (elapse (S k) w) with (tick (elapse k w)).
  now apply noTeardown_tick.
Qed.

(** A millisecond before the countdown's timer is due. *)
Lemma tick_before (h : nat) (n : Z) (next : VideoItem) (at_ : Z)
  (w : World) :
  counting h n next at_ w ->
  (now w + 1 < at_)%Z ->
  counting h n next at_ (tick w) /\ now (tick w) = (now w + 1)%Z.
Proof.
  intros K L. unfold tick. cbv zeta.
  destruct (counting_fireAll_others h n next at_
              (dueHandles (withNow (now w + 1) w))
              (withNow (now w + 1) w)) as (K' & W & _).
  - now apply counting_withNow.
  - intros j I ->. apply dueHandles_spec in I as (t & I & D & E).
    cbn [timers now withNow] in I, D.
    rewrite (counting_timer h n next at_ w t K I E) in D.
    cbn [due] in D. lia.
  - split; [exact K'|exact W].
Qed.

Lemma dueHandles_countdown (h : nat) (n : Z) (next : VideoItem) (w : World) :
  counting h n next (now w + 1) w ->
  In h (dueHandles (withNow (now w + 1) w))
  /\ forall j, In j (dueHandles (withNow (now w + 1) w)) ->
               (j < nextTimerId (withNow (now w + 1) w))%nat.
Proof.
  intros (_ & _ & [[_ B] _] & _ & I). split.
  - apply dueHandles_spec.
    exists {| timer_id := h; due := now w + 1; action := CountdownTick |}.
    split; [exact I|]. split; [cbn [due now withNow]; lia|reflexivity].
  - intros j J. apply dueHandles_spec in J as (t & It & _ & <-).
    exact (B t It).
Qed.

(** The millisecond at which the countdown's timer is due. *)
Lemma tick_counts_down (h : nat) (n : Z) (next : VideoItem) (w : World) :
  counting h n next (now w + 1) w ->
  (1 < n)%Z ->
  counting (nextTimerId w) (n - 1) next (now w + 1 + 1000) (tick w)
  /\ now (tick w) = (now w + 1)%Z.
Proof.
  intros K L. destruct (dueHandles_countdown h n next w K) as [I B].
  unfold tick. cbv zeta.
  exact (counting_fireAll_fires h n next (now w + 1) _
           (withNow (now w + 1) w)
           (counting_withNow h n next _ _ w K) L I B).
Qed.

Lemma tick_opens (h : nat) (next : VideoItem) (w : World) :
  counting h 1 next (now w + 1) w ->
  counted (tick w)
  /\ now (tick w) = (now w + 1)%Z
  /\ (noTeardown w -> exists s, state (tick w) = opened next s).
Proof.
  intros K. destruct (dueHandles_countdown h 1 next w K) as [I _].
  unfold tick. cbv zeta.
  exact (counting_fireAll_opens h next (now w + 1) _
           (withNow (now w + 1) w)
           (counting_withNow h 1 next _ _ w K) I).
Qed.

Lemma elapse_S (k : nat) (w : World) :
  elapse (S k) w = tick (elapse k w).
Proof. reflexivity. Qed.

Lemma elapse_add (a b : nat) (w : World) :
  elapse (a + b) w = elapse a (elapse b w).
Proof. unfold elapse. apply Nat.iter_add. Qed.

(** While the countdown's timer is not due the countdown stays. *)
Lemma elapse_before (h : nat) (n : Z) (next : VideoItem) (at_ : Z)
  (k : nat) (w : World) :
  counting h n next at_ w ->
  (now w + Z.of_nat k < at_)%Z ->
  counting h n next at_ (elapse k w)
  /\ now (elapse k w) = (now w + Z.of_nat k)%Z.
Proof.
  intros K. induction k as [|k IH]; intros L.
  - change (elapse 0 w) with w. split; [exact K|lia].
  - rewrite elapse_S. destruct IH as [K' W]; [lia|].
    destruct (tick_before h n next at_ _ K') as [K'' W']; [lia|].
    split; [exact K''|lia].
Qed.

(** A full second of the countdown, with more than a second left. *)
Lemma countdown_second (h : nat) (n : Z) (next : VideoItem) (w : World) :
  counting h n next (now w + 1000) w ->
  (1 < n)%Z ->
  (forall k, (k < 1000)%nat ->
             nextCountdown (state (elapse k w))
             = Some {| seconds := n; nextVideo := next |})
  /\ exists h',
      counting h' (n - 1) next (now (elapse 1000 w) + 1000)
        (elapse 1000 w).
Proof.
  intros K L. split.
  { intros k Q. destruct (elapse_before h n next _ k w K) as [K' _];
      [lia|exact (proj1 K')]. }
  change 1000%nat with (S 999). rewrite elapse_S.
  destruct (elapse_before h n next _ 999 w K) as [K' W]; [lia|].
  destruct (tick_counts_down h n next (elapse 999 w)) as (K'' & W').
  - replace (now (elapse 999 w) + 1)%Z with (now w + 1000)%Z by lia.
    exact K'.
  - exact L.
  - exists (nextTimerId (elapse 999 w)). rewrite W'. exact K''.
Qed.

(** The last second of the countdown. *)
Lemma countdown_last (h : nat) (next : VideoItem) (w : World) :
  counting h 1 next (now w + 1000) w ->
  (forall k, (k < 1000)%nat ->
             nextCountdown (state (elapse k w))
             = Some {| seconds := 1; nextVideo := next |})
  /\ counted (elapse 1000 w)
  /\ (noTeardown w -> exists s, state (elapse 1000 w) = opened next s).
Proof.
  intros K. split.
  { intros k Q. destruct (elapse_before h 1 next _ k w K) as [K' _];
      [lia|exact (proj1 K')]. }
  change 1000%nat with (S 999). rewrite elapse_S.
  destruct (elapse_before h 1 next _ 999 w K) as [K' W]; [lia|].
  destruct (tick_opens h next (elapse 999 w)) as (K'' & _ & S).
  - replace (now (elapse 999 w) + 1)%Z with (now w + 1000)%Z by lia.
    exact K'.
  - split; [exact K''|]. intros T. apply S. now apply noTeardown_elapse.
Qed.

(** From the commit that follows a countdown set to 2: it shows 2 for a
    second and 1 for another, and then the next item is opened. *)
Lemma countdown_from_two (prev c : World) (next : VideoItem) :
  countdownChanged c = true ->
  nextCountdown (state c) = Some {| seconds := 2; nextVideo := next |} ->
  timersSound c ->
  (forall k, (k < 1000)%nat ->
             nextCountdown (state (elapse k (commit prev c)))
             = Some {| seconds := 2; nextVideo := next |})
  /\ (forall k, (1000 <= k < 2000)%nat ->
                nextCountdown (state (elapse k (commit prev c)))
                = Some {| seconds := 1; nextVideo := next |})
  /\ counted (elapse 2000 (commit prev c))
  /\ (noTeardown c ->
      exists s, state (elapse 2000 (commit prev c)) = opened next s).
Proof.
  intros C N S.
  destruct (commit_counting prev c 2 next C N ltac:(lia) S)
    as (K0 & _ & W0 & _).
  rewrite <- W0 in K0.
  destruct (countdown_second _ 2 next (commit prev c) K0 ltac:(lia))
    as (Q2 & h' & K1).
  change (2 - 1)%Z with 1%Z in K1.
  destruct (countdown_last h' next (elapse 1000 (commit prev c)) K1)
    as (Q1 & K2 & S2).
  split; [exact Q2|].
  split.
  { intros k Q. replace k with ((k - 1000) + 1000)%nat by lia.
    rewrite elapse_add. apply Q1. lia. }
  change 2000%nat with (1000 + 1000)%nat. rewrite elapse_add.
  split; [exact K2|].
  intros T. apply S2. apply noTeardown_elapse.
  intros t I. apply timers_commit in I as [I|I]; [now apply T|].
  unfold isCountdownTimer in I. unfold isTeardownTimer.
  now destruct (action t).
Qed.

(** *** Reachable worlds keep their timers sound *)

Lemma timersSound_setTimeout (a : TimerAction) (delay : Z) (w : World) :
  a <> CountdownTick -> timersSound w -> timersSound (setTimeout a delay w).
Proof.
  intros A [[D B] S]. split; [split|].
  - cbn [timers setTimeout]. rewrite map_app. cbn [map timer_id].
    apply NoDup_app; [exact D|repeat constructor; intros []|].
    intros x I [<-|[]]. apply in_map_iff in I as (t & E & I).
    specialize (B t I). lia.
  - cbn [timers setTimeout nextTimerId]. intros t I.
    apply in_app_iff in I as [I|[<-|[]]].
    + specialize (B t I). lia.
    + cbn [timer_id]. lia.
  - cbn [timers setTimeout countdownTimeout]. intros t I C.
    apply in_app_iff in I as [I|[<-|[]]]; [now apply S|].
    unfold isCountdownTimer in C. cbn [action] in C.
    destruct a; congruence.
Qed.

Lemma timersSound_onState (f : State -> State) (w : World) :
  timersSound w -> timersSound (onState f w).
Proof. exact (fun H => H). Qed.

Lemma timersSound_onRefs (f : Refs -> Refs) (w : World) :
  timersSound w -> timersSound (onRefs f w).
Proof. exact (fun H => H). Qed.

Lemma timersSound_setNextCountdown (v : option Countdown) (w : World) :
  timersSound w -> timersSound (setNextCountdown v w).
Proof. exact (fun H => H). Qed.

Lemma timersSound_withNow (t : Z) (w : World) :
  timersSound w -> timersSound (withNow t w).
Proof. exact (fun H => H). Qed.

Ltac sound_step :=
  first
    [ assumption
    | apply timersSound_onState
    | apply timersSound_onRefs
    | apply timersSound_setNextCountdown
    | apply timersSound_clearTimeout
    | apply timersSound_setTimeout; [discriminate|] ].

Lemma timersSound_handle (e : Event) (w : World) :
  timersSound w -> timersSound (handle e w).
Proof.
  intros S. destruct e; unfold_handlers;
    unfold setActiveVideo, setPlayerMode, setIsPlaying, setCurrentTime,
      setDuration, setRelatedOpen, setDragOffset, setIsDragging,
      setSkipIndicator, setVisibleCategoryCount, setYtReady, setYtLoaded;
    split_branches; repeat sound_step.
Qed.

Lemma timersSound_cleanup (c : World) :
  timersSound c -> timersSound (cleanup c).
Proof.
  intros S. destruct (cleanup_sound c S) as [H K]. split; [exact H|].
  intros t I C. rewrite (K t I) in C. discriminate.
Qed.

Lemma timersSound_commit (prev c : World) :
  timersSound c -> timersSound (commit prev c).
Proof.
  intros S. destruct (countdownChanged c) eqn:C.
  - destruct (nextCountdown (state c)) as [[n next]|] eqn:N.
    + destruct (Z.leb_spec n 0) as [P|P].
      * rewrite (commit_open prev c _ C N P). apply timersSound_onRefs.
        change (nextVideo {| seconds := n; nextVideo := next |}) with next.
        destruct (reopen_fields next c) as (_ & F2 & _ & _ & F5).
        destruct (cleanup_sound c S) as [[D B] K].
        unfold timersSound, handlesIssued. rewrite F2, F5.
        split; [split; assumption|].
        intros t I Q. rewrite (K t I) in Q. discriminate.
      * destruct (commit_counting prev c n next C N P S)
          as ((_ & _ & S' & _) & _).
        exact S'.
    + rewrite (commit_clear prev c C N). apply timersSound_onRefs.
      now apply timersSound_cleanup.
  - rewrite (commit_idle prev c C). now apply timersSound_onRefs.
Qed.

Lemma timersSound_dispatch (e : Event) (w : World) :
  timersSound w -> timersSound (dispatch e w).
Proof.
  intros S. unfold dispatch. apply timersSound_commit.
  now apply timersSound_handle.
Qed.

Lemma timersSound_fireAll (handles : list nat) :
  forall w, timersSound w -> timersSound (fireAll handles w).
Proof.
  induction handles as [|j r IH]; intros w S; [exact S|].
  rewrite fireAll_cons. apply IH. now apply timersSound_dispatch.
Qed.

Lemma timersSound_advance (i : Input) (w : World) :
  timersSound w -> timersSound (advance i w).
Proof.
  intros S. destruct i as [e|]; cbn [advance].
  - now apply timersSound_dispatch.
  - unfold tick. cbv zeta. apply timersSound_fireAll.
    now apply timersSound_withNow.
Qed.

Lemma reachable_timersSound (c : Catalog) (h : Q) (api : bool) (w : World) :
  Reachable c h api w -> timersSound w.
Proof.
  induction 1 as [|w i R S].
  - split; [split|]; cbn [timers initial]; [constructor| |];
      intros t [].
  - now apply timersSound_advance.
Qed.

Lemma reachable_feed_from (c : Catalog) (h : Q) (api : bool)
  (inputs : list Input) :
  forall w, Reachable c h api w -> Reachable c h api (feed inputs w).
Proof.
  induction inputs as [|i r IH]; intros w R; [exact R|].
  cbn [feed fold_left]. apply IH. now constructor.
Qed.

End Countdown.

(** C4: when playback ends, the related set is the catalog filtered by
    the active item's category, in catalog order and with the active item
    in it; with fewer than two related items nothing happens; otherwise
    the item after the active one, cyclically, becomes the next one and a
    countdown starts at 2.  From then on, with no further event, it shows
    2 for one second and 1 for another; then the countdown and its timer
    are gone and the next item has been opened.  This holds whatever
    other timers are pending, in every reachable world; only a teardown
    left pending by [closePlayer] can clear the active item again. *)
Theorem handleVideoEnded_autoplay (w : World) (active : VideoItem) :
  activeVideo (state w) = Some active ->
  relatedVideos w
  = filter (fun video =>
              String.eqb (category_slug (category video))
                         (category_slug (category active)))
           (allVideos (catalog w))
  /\ (forall video,
         In video (relatedVideos w)
         <-> In video (allVideos (catalog w)) /\ sameCategory video active)
  /\ (In active (allVideos (catalog w)) -> In active (relatedVideos w))
  /\ (videoRef (refs w) <> None ->
      dispatch VideoEnded w = commit w (handleVideoEnded w))
  /\ (embedOnPage w = true ->
      dispatch (YtStateChange ENDED) w
      = commit w (handleVideoEnded (setIsPlaying false w)))
  /\ ((List.length (relatedVideos w) < 2)%nat ->
      handleVideoEnded w = w
      /\ handleVideoEnded (setIsPlaying false w) = setIsPlaying false w)
  /\ (forall c h api, Reachable c h api w -> timersSound w)
  /\ ((2 <= List.length (relatedVideos w))%nat ->
      exists next,
        nth_error (relatedVideos w)
          (Z.to_nat ((Js.findIndex (hasId active) (relatedVideos w) + 1)
                     mod Z.of_nat (List.length (relatedVideos w))))
        = Some next
        /\ (forall k,
               nth_error (relatedVideos w) k = Some active ->
               NoDup (map id (relatedVideos w)) ->
               nth_error (relatedVideos w)
                 ((k + 1) mod List.length (relatedVideos w))
               = Some next)
        /\ handleVideoEnded w
           = setNextCountdown (Some {| seconds := 2; nextVideo := next |}) w
        /\ handleVideoEnded (setIsPlaying false w)
           = setNextCountdown (Some {| seconds := 2; nextVideo := next |})
               (setIsPlaying false w)
        /\ (timersSound w ->
            forall w0,
              w0 = commit w (handleVideoEnded w)
              \/ w0 = commit w (handleVideoEnded (setIsPlaying false w)) ->
              (forall k, (k < 1000)%nat ->
                         nextCountdown (state (elapse k w0))
                         = Some {| seconds := 2; nextVideo := next |})
              /\ (forall k, (1000 <= k < 2000)%nat ->
                            nextCountdown (state (elapse k w0))
                            = Some {| seconds := 1; nextVideo := next |})
              /\ nextCountdown (state (elapse 2000 w0)) = None
              /\ (forall t, In t (timers (elapse 2000 w0)) ->
                            isCountdownTimer t = false)
              /\ (noTeardown w ->
                  activeVideo (state (elapse 2000 w0)) = Some next
                  /\ playerMode (state (elapse 2000 w0)) = full
                  /\ currentTime (state (elapse 2000 w0)) = 0
                  /\ duration (state (elapse 2000 w0)) = 0
                  /\ relatedOpen (state (elapse 2000 w0)) = false))).
Proof.
  intros A.
  split; [unfold relatedVideos; now rewrite A|].
  split; [now apply relatedVideos_spec|].
  split.
  { intros I. apply (relatedVideos_spec w active A). split; [exact I|].
    reflexivity. }
  split.
  { intros V. unfold dispatch, handle.
    destruct (videoRef (refs w)); [reflexivity|congruence]. }
  split.
  { intros E. unfold dispatch, handle, guarded. now rewrite E. }
  split.
  { intros L. split; [now apply handleVideoEnded_few|].
    now apply handleVideoEnded_few. }
  split; [intros c h api; apply reachable_timersSound|].
  intros L.
  destruct (handleVideoEnded_next w active A L) as (next & N & H).
  destruct (handleVideoEnded_next (setIsPlaying false w) active A L)
    as (next' & N' & H').
  change (relatedVideos (setIsPlaying false w)) with (relatedVideos w)
    in N'.
  assert (next' = next) as -> by congruence.
  exists next. split; [exact N|].
  split.
  { intros k K D. rewrite <- N. f_equal.
    rewrite (findIndex_active _ _ k K D).
    replace (Z.of_nat k + 1)%Z with (Z.of_nat (k + 1)) by lia.
    now rewrite <- Nat2Z.inj_mod, Nat2Z.id. }
  split; [exact H|]. split; [exact H'|].
  intros S w0 W.
  assert (exists c,
             w0 = commit w c
             /\ countdownChanged c = true
             /\ nextCountdown (state c)
                = Some {| seconds := 2; nextVideo := next |}
             /\ timersSound c /\ (noTeardown w -> noTeardown c))
    as (c & -> & C1 & C2 & C3 & C4).
  { destruct W as [->| ->]; eexists; (split; [reflexivity|]).
    - rewrite H. repeat split; try apply S. auto.
    - rewrite H'. repeat split; try apply S. auto. }
  destruct (countdown_from_two w c next C1 C2 C3)
    as (Q2 & Q1 & (K1 & _ & K3) & O).
  split; [exact Q2|]. split; [exact Q1|].
  split; [exact K1|]. split; [exact K3|].
  intros T. destruct (O (C4 T)) as [s ->]. repeat split.
Qed.

Lemma handleVideoEnded_autoplay_witness :
  relatedVideos Demo.playingRex = [Demo.rex; Demo.raptor]
  /\ In Demo.rex (relatedVideos Demo.playingRex)
  /\ timersSound Demo.playingRex
  /\ nextCountdown (state (elapse 0 (dispatch VideoEnded Demo.playingRex)))
     = Some {| seconds := 2; nextVideo := Demo.raptor |}
  /\ nextCountdown (state (elapse 1500 (dispatch VideoEnded Demo.playingRex)))
     = Some {| seconds := 1; nextVideo := Demo.raptor |}
  /\ nextCountdown (state (elapse 2000 (dispatch VideoEnded Demo.playingRex)))
     = None
  /\ activeVideo (state (elapse 2000 (dispatch VideoEnded Demo.playingRex)))
     = Some Demo.raptor
  /\ activeVideo
       (state (elapse 2000 (dispatch (YtStateChange ENDED)
                              Demo.playingRaptor)))
     = Some Demo.rex
  /\ handleVideoEnded Demo.watchingComet = Demo.watchingComet.
Proof.
  assert (NoDup (map id [Demo.rex; Demo.raptor])) as D.
  { repeat constructor; cbn; intuition discriminate. }
  assert (videoRef (refs Demo.playingRex) <> None) as V
      by (vm_compute; discriminate).
  assert (embedOnPage Demo.playingRaptor = true) as P
      by (vm_compute; reflexivity).
  assert (noTeardown Demo.playingRex) as T1
      by (intros t I; vm_compute in I; destruct I).
  assert (noTeardown Demo.playingRaptor) as T2
      by (intros t I; vm_compute in I; destruct I).
  assert (relatedVideos Demo.playingRex = [Demo.rex; Demo.raptor]) as R1
      by (vm_compute; reflexivity).
  assert (relatedVideos Demo.playingRaptor = [Demo.rex; Demo.raptor]) as R2
      by (vm_compute; reflexivity).
  assert (activeVideo (state Demo.playingRex) = Some Demo.rex) as A1
      by (vm_compute; reflexivity).
  assert (activeVideo (state Demo.playingRaptor) = Some Demo.raptor) as A2
      by (vm_compute; reflexivity).
  assert (activeVideo (state Demo.watchingComet) = Some Demo.comet) as A3
      by (vm_compute; reflexivity).
  assert (Reachable Demo.shelf 1000 true Demo.playingRex) as X1.
  { unfold Demo.playingRex, Demo.watchingRex, Demo.start.
    do 2 apply reachable_feed_from. constructor. }
  assert (Reachable Demo.shelf 1000 true Demo.playingRaptor) as X2.
  { unfold Demo.playingRaptor, Demo.watchingRaptor, Demo.start.
    do 2 apply reachable_feed_from. constructor. }
  destruct (handleVideoEnded_autoplay Demo.playingRex Demo.rex A1)
    as (_ & _ & I & E & _ & _ & S & G).
  rewrite R1 in G, I. destruct (G (le_n 2)) as (next & _ & N & _ & _ & T).
  specialize (N 0%nat eq_refl D). injection N as <-.
  destruct (T (S _ _ _ X1) _ (or_introl eq_refl))
    as (Q2 & Q1 & Q0 & _ & A).
  rewrite !(E V).
  split; [exact R1|].
  split; [apply I; vm_compute; auto|].
  split; [exact (S _ _ _ X1)|].
  split; [exact (Q2 0%nat ltac:(lia))|].
  split; [apply Q1; lia|].
  split; [exact Q0|].
  split; [exact (proj1 (A T1))|].
  split.
  - destruct (handleVideoEnded_autoplay Demo.playingRaptor Demo.raptor A2)
      as (_ & _ & _ & _ & E' & _ & S' & G').
    rewrite R2 in G'.
    destruct (G' (le_n 2)) as (next & _ & N' & _ & _ & T').
    specialize (N' 1%nat eq_refl D). injection N' as <-.
    destruct (T' (S' _ _ _ X2) _ (or_intror eq_refl))
      as (_ & _ & _ & _ & A').
    rewrite (E' P). exact (proj1 (A' T2)).
  - destruct (handleVideoEnded_autoplay Demo.watchingComet Demo.comet A3)
      as (_ & _ & _ & _ & _ & F & _).
    apply F. vm_compute. lia.
Defined.

(** ** The commit is a fixed point of rendering *)

Section Stable.

Lemma render_fixed (w : World) (v : option VideoElement) :
  videoRef (refs w) = v -> onRefs (with_videoRef v) w = w.
Proof. intros <-. destruct w as [? ? [? ? ? ?] ? ? ? ? ? ?]. reflexivity. Qed.

Lemma render_mounted (w : World) : mounted (render w).
Proof.
  unfold mounted, render. cbv zeta. cbn [state onRefs refs videoRef with_videoRef].
  destruct (activeVideo (state w)); [|reflexivity].
  destruct (isYouTube (state w)); [reflexivity|].
  destruct (videoRef (refs w)); discriminate.
Qed.

Lemma mounted_render (w : World) : mounted w -> render w = w.
Proof.
  unfold mounted, render. cbv zeta. intros M. apply render_fixed.
  destruct (activeVideo (state w)).
  - destruct (isYouTube (state w)); [exact M|].
    destruct (videoRef (refs w)); [reflexivity|contradiction].
  - exact M.
Qed.

Lemma pass_unchanged (w : World) :
  countdownChanged w = false -> mounted w -> pass w w = w.
Proof.
  intros C M. unfold pass. cbv zeta. rewrite (mounted_render w M).
  unfold autoplayEffect, youtubeEffect.
  rewrite sameVideo_refl, !eqb_reflx. cbn [andb].
  now rewrite countdownEffect_idle.
Qed.

Lemma pass_same_state (prev w : World) :
  state prev = state w ->
  countdownChanged w = false -> mounted w -> pass prev w = w.
Proof.
  intros S C M. unfold pass. cbv zeta. rewrite (mounted_render w M).
  unfold autoplayEffect, youtubeEffect. rewrite S.
  rewrite sameVideo_refl, !eqb_reflx. cbn [andb].
  now rewrite countdownEffect_idle.
Qed.

Lemma refs_countdownEffect (cur acc : World) :
  refs (countdownEffect cur acc) = refs acc.
Proof.
  unfold countdownEffect.
  destruct (countdownChanged cur); cbn [negb]; [|reflexivity].
  destruct acc as [cat st rf tm nid nw ih [h|] cc];
    destruct (nextCountdown (state cur)) as [c|];
    try destruct (seconds c <=? 0)%Z; reflexivity.
Qed.

Lemma mounted_pass (prev cur : World) :
  state (pass prev cur) = state cur -> mounted (pass prev cur).
Proof.
  intros S. unfold mounted. rewrite S. clear S.
  unfold pass. cbv zeta. rewrite youtubeEffect_refs.
  cbn [refs onRefs].
  assert (videoRef (refs (youtubeEffect prev (render cur)
                            (countdownEffect (render cur)
                               (autoplayEffect prev (render cur)
                                  (render cur)))))
          = videoRef (refs (autoplayEffect prev (render cur) (render cur))))
    as ->.
  { rewrite <- (refs_countdownEffect (render cur)
                  (autoplayEffect prev (render cur) (render cur))).
    unfold youtubeEffect. destruct (_ && _ && _); [reflexivity|].
    destruct (activeVideo (state (render cur))); [|reflexivity].
    destruct (_ && _); reflexivity. }
  pose proof (render_mounted cur) as M. unfold mounted in M.
  rewrite state_render in M.
  unfold autoplayEffect. rewrite state_render.
  destruct (_ && _); [exact M|].
  destruct (activeVideo (state cur)); [|exact M].
  destruct (isYouTube (state cur)); [exact M|].
  destruct (videoRef (refs (render cur))) eqn:V;
    [discriminate|congruence].
Qed.

(** A third pass leaves the world of a commit as it is. *)
Lemma commit_stable (prev cur : World) :
  pass (render (pass prev cur)) (commit prev cur) = commit prev cur.
Proof.
  apply pass_same_state.
  - rewrite state_render. symmetry. apply commit_state.
  - apply commit_settled.
  - unfold commit. apply mounted_pass.
    fold (commit prev cur). apply commit_state.
Qed.

End Stable.

(** ** The clock text: [formatTime] *)

Section ClockText.

Import ResolverSpec.

Lemma allPlain_digits (d : Decimal.uint) :
  allPlain (NilEmpty.string_of_uint d) = true.
Proof. induction d; cbn; auto. Qed.

Lemma allPlain_toString (n : Z) : allPlain (Text.toString n) = true.
Proof.
  unfold Text.toString, NilZero.string_of_int, NilZero.string_of_uint.
  destruct (Z.to_int n) as [d|d]; destruct d; cbn;
    try reflexivity; apply allPlain_digits.
Qed.

Lemma textBefore_colon (a r : string) :
  allPlain a = true -> textBefore ":" (a ++ String ":" r) = a.
Proof.
  induction a as [|c a IH]; cbn [allPlain append]; intros P.
  - reflexivity.
  - apply andb_prop in P as [Pc Pa]. unfold plain in Pc.
    apply negb_true_iff in Pc.
    cbn [textBefore JsString.startsWith]. rewrite Pc. cbn [andb].
    now rewrite (IH Pa).
Qed.

Lemma textAfter_colon (a r : string) :
  allPlain a = true -> textAfter ":" (a ++ String ":" r) = Some r.
Proof.
  induction a as [|c a IH]; cbn [allPlain append]; intros P.
  - reflexivity.
  - apply andb_prop in P as [Pc Pa]. unfold plain in Pc.
    apply negb_true_iff in Pc.
    cbn [textAfter JsString.startsWith]. rewrite Pc. cbn [andb].
    exact (IH Pa).
Qed.

(** The decimal text of an integer reads back as that integer. *)
Lemma toString_reads_back (n : Z) :
  option_map Z.of_int (NilZero.int_of_string (Text.toString n)) = Some n.
Proof.
  unfold Text.toString. rewrite NilZero.isi.
  - cbn [option_map]. now rewrite DecimalZ.of_to.
  - destruct n as [|p|p]; cbn [Z.to_int]; try discriminate.
    intros E. injection E as E. exact (DecimalPos.Unsigned.to_uint_nonnil p E).
  - destruct n as [|p|p]; cbn [Z.to_int]; try discriminate.
    intros E. injection E as E. exact (DecimalPos.Unsigned.to_uint_nonnil p E).
Qed.

(** The seconds field: two characters that read back as the seconds. *)
Lemma seconds_field (n : nat) :
  (n < 60)%nat ->
  String.length (Text.padStart 2 "0" (Text.toString (Z.of_nat n))) = 2%nat
  /\ option_map Z.of_int
       (NilZero.int_of_string
          (Text.padStart 2 "0" (Text.toString (Z.of_nat n))))
     = Some (Z.of_nat n).
Proof.
  do 60 (destruct n as [|n]; [intros _; split; vm_compute; reflexivity|]).
  lia.
Qed.

Lemma minutes_floor (c : Z) : Qfloor (inject_Z c / 60) = (c / 60)%Z.
Proof. symmetry. apply (Zdiv_Qdiv c 60). Qed.

(** The text of a finite time, in its two fields. *)
Lemma formatTime_fields (x : Q) :
  formatTime (Finite x)
  = (Text.toString (Z.max 0 (Qfloor x) / 60) ++ ":"
     ++ Text.padStart 2 "0" (Text.toString (Z.max 0 (Qfloor x) mod 60)))%string.
Proof.
  unfold formatTime. cbn [isFinite negb]. cbv zeta.
  rewrite minutes_floor. rewrite Z.rem_mod_nonneg by lia. reflexivity.
Qed.

Lemma readClock_formatTime (x : Q) :
  readClock (formatTime (Finite x)) = Some (Z.max 0 (Qfloor x)).
Proof.
  rewrite formatTime_fields. set (c := Z.max 0 (Qfloor x)).
  assert (0 <= c mod 60 < 60)%Z as B by (apply Z.mod_pos_bound; lia).
  unfold readClock. change (":" ++ ?r)%string with (String ":" r).
  rewrite textAfter_colon, textBefore_colon by apply allPlain_toString.
  pose proof (toString_reads_back (c / 60)) as M.
  destruct (seconds_field (Z.to_nat (c mod 60))) as [_ S]; [lia|].
  rewrite Z2Nat.id in S by lia.
  destruct (NilZero.int_of_string (Text.toString (c / 60))) as [m|];
    [|discriminate].
  destruct (NilZero.int_of_string _) as [s|]; [|discriminate].
  cbn [option_map] in M, S. injection M as ->. injection S as ->.
  f_equal. pose proof (Z.div_mod c 60). lia.
Qed.

End ClockText.

(** [formatTime] gives ["0:00"] exactly for what is not a finite number
    and for every time below one second, negative ones included. *)
Theorem formatTime_zero (n : Number) :
  formatTime n = "0:00"
  <-> isFinite n = false \/ exists x, n = Finite x /\ x < 1.
Proof.
  split.
  - intros E. destruct n as [x| | |]; try (left; reflexivity).
    right. exists x. split; [reflexivity|].
    pose proof (readClock_formatTime x) as R. rewrite E in R.
    change (readClock "0:00") with (Some 0%Z) in R. injection R as R.
    pose proof (Qlt_floor x) as L.
    assert (Qfloor x + 1 <= 1)%Z as B by lia.
    eapply Qlt_le_trans; [exact L|].
    rewrite Zle_Qle in B. exact B.
  - intros [F|(x & -> & L)].
    + destruct n; [discriminate|reflexivity..].
    + rewrite formatTime_fields.
      assert (Qfloor x <= 0)%Z as B.
      { pose proof (Qfloor_le x) as F.
        assert (inject_Z (Qfloor x) < inject_Z 1) as T
            by (eapply Qle_lt_trans; [exact F|exact L]).
        rewrite <- Zlt_Qlt in T. lia. }
      rewrite Z.max_l by exact B. reflexivity.
Qed.

(** Below 2^53, where the source's division by 60 gives the whole
    minutes and the digits written are those of the number:
    [formatTime] writes a finite time below 2^53 as minutes, a colon
    and a seconds field of exactly two characters; read back, the text
    gives the whole seconds of the time, with 0 for a negative one.  So
    two times below 2^53 have the same text exactly when they lie in
    the same whole second.  Nothing is said of a time from 2^53 up. *)
Theorem formatTime_whole_seconds (x y : Q) :
  x < inject_Z (2 ^ 53) -> y < inject_Z (2 ^ 53) ->
  readClock (formatTime (Finite x)) = Some (Z.max 0 (Qfloor x))
  /\ (exists secs,
         ResolverSpec.textAfter ":" (formatTime (Finite x)) = Some secs
         /\ String.length secs = 2%nat)
  /\ (formatTime (Finite x) = formatTime (Finite y)
      <-> Z.max 0 (Qfloor x) = Z.max 0 (Qfloor y)).
Proof.
  intros _ _. split; [apply readClock_formatTime|]. split.
  - rewrite formatTime_fields. set (c := Z.max 0 (Qfloor x)).
    assert (0 <= c mod 60 < 60)%Z as B by (apply Z.mod_pos_bound; lia).
    change (":" ++ ?r)%string with (String ":" r).
    rewrite textAfter_colon by apply allPlain_toString.
    eexists. split; [reflexivity|].
    destruct (seconds_field (Z.to_nat (c mod 60))) as [L _]; [lia|].
    rewrite Z2Nat.id in L by lia. exact L.
  - split.
    + intros E. pose proof (readClock_formatTime x) as Rx.
      rewrite E, readClock_formatTime in Rx. now injection Rx.
    + intros E. rewrite !formatTime_fields. now rewrite E.
Qed.

Lemma formatTime_whole_seconds_witness :
  readClock (formatTime (Finite (1255 # 10))) = Some 125%Z
  /\ (formatTime (Finite (1255 # 10)) = formatTime (Finite 125)
      <-> Z.max 0 (Qfloor (1255 # 10)) = Z.max 0 (Qfloor 125)).
Proof.
  assert ((1255 # 10) < inject_Z (2 ^ 53)) as A by (vm_compute; reflexivity).
  assert (125 < inject_Z (2 ^ 53)) as B by (vm_compute; reflexivity).
  destruct (formatTime_whole_seconds (1255 # 10) 125 A B) as (R & _ & E).
  split; [exact R|exact E].
Defined.

(** ** The video-id resolver: what an id looks like *)

Section ResolvedId.

Import JsString ResolverSpec.

Lemma startsWith_drop (m s : string) :
  startsWith m s = true -> s = (m ++ drop (String.length m) s)%string.
Proof.
  revert s. induction m as [|a m IH]; intros s; [reflexivity|].
  destruct s as [|b s]; cbn [startsWith]; [discriminate|].
  intros H. apply andb_prop in H as [E H].
  apply Ascii.eqb_eq in E. subst b.
  cbn [String.length drop append]. f_equal. now apply IH.
Qed.

Lemma textAfter_cut (m s rest : string) :
  textAfter m s = Some rest -> exists before, s = (before ++ m ++ rest)%string.
Proof.
  induction s as [|c s IH]; cbn [textAfter].
  - destruct (startsWith m "") eqn:E; [|discriminate].
    intros R. injection R as <-. exists "". now apply startsWith_drop.
  - destruct (startsWith m (String c s)) eqn:E.
    + intros R. injection R as <-. exists "". now apply startsWith_drop.
    + intros R. destruct (IH R) as [before ->].
      now exists (String c before).
Qed.

Lemma textBefore_prefix (m s : string) :
  exists rest, s = (textBefore m s ++ rest)%string.
Proof.
  induction s as [|c s [rest IH]]; cbn [textBefore].
  - destruct (startsWith m ""); now exists "".
  - destruct (startsWith m (String c s)); [now exists (String c s)|].
    exists rest. cbn [append]. now rewrite <- IH.
Qed.

Lemma cutAtDelim_prefix (s : string) :
  exists rest, s = (cutAtDelim s ++ rest)%string.
Proof.
  induction s as [|c s [rest IH]]; cbn [cutAtDelim]; [now exists ""|].
  destruct (queryDelim c); [now exists (String c s)|].
  exists rest. cbn [append]. now rewrite <- IH.
Qed.

Lemma cutAtDelim_noDelim (s : string) : noDelim (cutAtDelim s) = true.
Proof.
  induction s as [|c s IH]; cbn [cutAtDelim]; [reflexivity|].
  destruct (queryDelim c) eqn:E; [reflexivity|].
  cbn [noDelim]. now rewrite E, IH.
Qed.

(** What a segment that was found looks like. *)
Lemma segmentUpToMarker_shape (marker url found : string) :
  segmentUpToMarker marker url = Some found ->
  found <> ""
  /\ noDelim found = true
  /\ exists before after,
      url = (before ++ marker ++ found ++ after)%string.
Proof.
  unfold segmentUpToMarker.
  destruct (textAfter marker url) as [rest|] eqn:R; [|discriminate].
  cbn [option_map nonEmpty].
  destruct (cutAtDelim (textBefore marker rest)) as [|c r] eqn:C;
    [discriminate|].
  intros F. injection F as <-. split; [discriminate|]. split.
  - rewrite <- C. apply cutAtDelim_noDelim.
  - destruct (textAfter_cut _ _ _ R) as [before ->].
    destruct (textBefore_prefix marker rest) as [p P].
    destruct (cutAtDelim_prefix (textBefore marker rest)) as [q Q].
    rewrite C in Q. exists before, (q ++ p)%string.
    rewrite P at 1. rewrite Q at 1.
    now rewrite !append_assoc'.
Qed.

End ResolvedId.

(** [getYouTubeId] returns the fallback, or a text that is not empty, has
    no ['?'] and no ['&'] in it, and stands in the URL right after one of
    the three markers. *)
Theorem getYouTubeId_clean (url fallback : string) :
  getYouTubeId url fallback = fallback
  \/ (getYouTubeId url fallback <> ""
      /\ noDelim (getYouTubeId url fallback) = true
      /\ exists marker before after,
          In marker ["embed/"; "watch?v="; "youtu.be/"]
          /\ url = (before ++ marker ++ getYouTubeId url fallback
                    ++ after)%string).
Proof.
  rewrite getYouTubeId_resolveUpToMarker.
  unfold ResolverSpec.resolveUpToMarker, ResolverSpec.firstOf.
  destruct (ResolverSpec.segmentUpToMarker "embed/" url) as [a|] eqn:A.
  { right. destruct (segmentUpToMarker_shape _ _ _ A) as (N & D & b & r & E).
    split; [exact N|]. split; [exact D|].
    exists "embed/", b, r. split; [now left|exact E]. }
  destruct (ResolverSpec.segmentUpToMarker "watch?v=" url) as [a|] eqn:B.
  { right. destruct (segmentUpToMarker_shape _ _ _ B) as (N & D & b & r & E).
    split; [exact N|]. split; [exact D|].
    exists "watch?v=", b, r. split; [right; now left|exact E]. }
  destruct (ResolverSpec.segmentUpToMarker "youtu.be/" url) as [a|] eqn:C.
  { right. destruct (segmentUpToMarker_shape _ _ _ C) as (N & D & b & r & E).
    split; [exact N|]. split; [exact D|].
    exists "youtu.be/", b, r. split; [right; right; now left|exact E]. }
  now left.
Qed.

(** ** Worlds between two events *)

Section Steady.

(** What holds at the first render and is kept by every event and by the
    clock holds in every reachable world. *)
Lemma reachable_induction (P : World -> Prop) (c : Catalog) (h : Q)
  (api : bool) :
  P (initial c h api) ->
  (forall e w, P w -> P (dispatch e w)) ->
  (forall t w, P w -> P (withNow t w)) ->
  forall w, Reachable c h api w -> P w.
Proof.
  intros I D N w R. induction R as [|w i R IH]; [exact I|].
  destruct i as [e|]; cbn [advance]; [now apply D|].
  assert (forall handles v, P v -> P (fireAll handles v)) as F.
  { induction handles as [|j r IHr]; intros v Pv; [exact Pv|].
    rewrite fireAll_cons. apply IHr. now apply D. }
  unfold tick. cbv zeta. apply F. now apply N.
Qed.

Lemma handleKept_onState (f : State -> State) (w : World) :
  handleKept w -> handleKept (onState f w).
Proof. exact (fun H => H). Qed.

Lemma handleKept_onRefs (f : Refs -> Refs) (w : World) :
  handleKept w -> handleKept (onRefs f w).
Proof. exact (fun H => H). Qed.

Lemma handleKept_setNextCountdown (v : option Countdown) (w : World) :
  handleKept w -> handleKept (setNextCountdown v w).
Proof. exact (fun H => H). Qed.

Lemma handleKept_clearTimeout (j : nat) (w : World) :
  handleKept w -> handleKept (clearTimeout j w).
Proof.
  intros K h E. destruct (K h E) as [B T]. split; [exact B|].
  intros t I. apply timers_clearTimeout in I as [I _]. now apply T.
Qed.

Lemma handleKept_setTimeout (a : TimerAction) (delay : Z) (w : World) :
  handleKept w -> handleKept (setTimeout a delay w).
Proof.
  intros K h E. destruct (K h E) as [B T].
  cbn [nextTimerId timers setTimeout]. split; [lia|].
  intros t I J. apply in_app_iff in I as [I|[<-|[]]]; [now apply T|].
  cbn [timer_id] in J. lia.
Qed.

Ltac kept_step :=
  first
    [ assumption
    | apply handleKept_onState
    | apply handleKept_onRefs
    | apply handleKept_setNextCountdown
    | apply handleKept_clearTimeout
    | apply handleKept_setTimeout ].

Lemma handleKept_handle (e : Event) (w : World) :
  handleKept w -> handleKept (handle e w).
Proof.
  intros S. destruct e; unfold_handlers;
    unfold setActiveVideo, setPlayerMode, setIsPlaying, setCurrentTime,
      setDuration, setRelatedOpen, setDragOffset, setIsDragging,
      setSkipIndicator, setVisibleCategoryCount, setYtReady, setYtLoaded;
    split_branches; repeat kept_step.
Qed.

Lemma handleKept_none (w : World) :
  countdownTimeout w = None -> handleKept w.
Proof. intros N h E. congruence. Qed.

Lemma handleKept_commit (prev c : World) :
  timersSound c -> handleKept c -> handleKept (commit prev c).
Proof.
  intros S K. destruct (countdownChanged c) eqn:C.
  - destruct (nextCountdown (state c)) as [[n next]|] eqn:N.
    + destruct (Z.leb_spec n 0) as [P|P].
      * rewrite (commit_open prev c _ C N P). apply handleKept_onRefs.
        apply handleKept_none. reflexivity.
      * rewrite (commit_arm prev c _ C N P). apply handleKept_onRefs.
        destruct (cleanup_sound c S) as [[D B] _].
        set (a := cleanup c) in *. clearbody a.
        intros h E. cbn [countdownTimeout arm withCountdownEffect] in E.
        injection E as <-.
        cbn [nextTimerId timers arm withCountdownEffect setTimeout].
        split; [lia|].
        intros t I J. apply in_app_iff in I as [I|[<-|[]]];
          [|reflexivity].
        specialize (B t I). lia.
    + rewrite (commit_clear prev c C N). apply handleKept_onRefs.
      apply handleKept_none. now destruct (cleanup_fields c) as (_&_&_&E&_).
  - rewrite (commit_idle prev c C). now apply handleKept_onRefs.
Qed.

Lemma mounted_commit (prev cur : World) : mounted (commit prev cur).
Proof.
  unfold commit. apply mounted_pass. fold (commit prev cur).
  apply commit_state.
Qed.

Lemma steady_dispatch (e : Event) (w : World) :
  steady w -> steady (dispatch e w).
Proof.
  intros (_ & _ & S & K). unfold dispatch.
  split; [apply commit_settled|]. split; [apply mounted_commit|].
  split.
  - apply timersSound_commit. now apply timersSound_handle.
  - apply handleKept_commit; [now apply timersSound_handle|].
    now apply handleKept_handle.
Qed.

Lemma steady_initial (c : Catalog) (h : Q) (api : bool) :
  steady (initial c h api).
Proof.
  split; [reflexivity|]. split; [reflexivity|]. split.
  - split; [split|]; cbn [timers initial]; [constructor| |]; intros t [].
  - apply handleKept_none. reflexivity.
Qed.

Lemma reachable_steady (c : Catalog) (h : Q) (api : bool) (w : World) :
  Reachable c h api w -> steady w.
Proof.
  revert w. apply (reachable_induction steady).
  - apply steady_initial.
  - apply steady_dispatch.
  - intros t v S. exact S.
Qed.

Lemma isYouTube_same (s s' : State) :
  activeVideo s = activeVideo s' -> isYouTube s = isYouTube s'.
Proof. unfold isYouTube. now intros ->. Qed.

(** Effects whose dependencies have not changed do not run. *)
Lemma pass_quiet (prev cur : World) :
  activeVideo (state prev) = activeVideo (state cur) ->
  ytReady (state prev) = ytReady (state cur) ->
  countdownChanged cur = false ->
  mounted cur ->
  pass prev cur = cur.
Proof.
  intros A Y C M. unfold pass. cbv zeta. rewrite (mounted_render cur M).
  unfold autoplayEffect, youtubeEffect.
  rewrite A, Y, (isYouTube_same _ _ A).
  rewrite sameVideo_refl, !eqb_reflx. cbn [andb].
  now rewrite countdownEffect_idle.
Qed.

Lemma commit_quiet (prev cur : World) :
  activeVideo (state prev) = activeVideo (state cur) ->
  ytReady (state prev) = ytReady (state cur) ->
  countdownChanged cur = false ->
  mounted cur ->
  commit prev cur = cur.
Proof.
  intros A Y C M. unfold commit.
  rewrite (pass_quiet prev cur A Y C M).
  rewrite (mounted_render cur M). now apply pass_unchanged.
Qed.

(** A handler that leaves the session and the [<video>] element in
    place leaves the element mounted. *)
Lemma mounted_same (w c : World) :
  activeVideo (state c) = activeVideo (state w) ->
  (videoRef (refs c) = None <-> videoRef (refs w) = None) ->
  mounted w -> mounted c.
Proof.
  unfold mounted. intros A V. rewrite (isYouTube_same _ _ A), A.
  destruct (activeVideo (state w)); [|now rewrite V].
  destruct (isYouTube (state w)); [now rewrite V|].
  intros N E. apply N. now apply V.
Qed.

End Steady.

(** ** Gestures on the player shell *)

Section Gesture.

(** Between two events nothing is left to the effects of a handler that
    changes neither the session nor the countdown. *)
Lemma dispatch_quiet (e : Event) (w : World) :
  steady w ->
  activeVideo (state (handle e w)) = activeVideo (state w) ->
  ytReady (state (handle e w)) = ytReady (state w) ->
  countdownChanged (handle e w) = countdownChanged w ->
  (videoRef (refs (handle e w)) = None <-> videoRef (refs w) = None) ->
  dispatch e w = handle e w.
Proof.
  intros (S & M & _) A Y C V. unfold dispatch. apply commit_quiet.
  - now rewrite A.
  - now rewrite Y.
  - now rewrite C.
  - now apply (mounted_same w).
Qed.

Lemma max_zero (x : Q) : 0 <= Js.max 0 x.
Proof.
  unfold Js.max. destruct (Qle_bool 0 x) eqn:E; [|apply Qle_refl].
  now apply Qle_bool_iff.
Qed.

(** The player is displaced only while it is dragged, and only
    downwards. *)
Lemma drag_handle (e : Event) (w : World) :
  0 <= dragOffset (state w)
  /\ (isDragging (state w) = false -> dragOffset (state w) = 0) ->
  0 <= dragOffset (state (handle e w))
  /\ (isDragging (state (handle e w)) = false ->
      dragOffset (state (handle e w)) = 0).
Proof.
  intros [P Z].
  destruct e; try exact (conj P Z); unfold_handlers;
    repeat match goal with
           | |- context [match ?x with _ => _ end] => destruct x eqn:?
           end;
    cbn [state onState onRefs setTimeout clearTimeout setNextCountdown
         withCountdownEffect
         setActiveVideo setPlayerMode setIsPlaying setCurrentTime
         setDuration setRelatedOpen setDragOffset setIsDragging
         setSkipIndicator setVisibleCategoryCount setYtReady setYtLoaded
         dragOffset isDragging
         with_activeVideo with_playerMode with_isPlaying with_currentTime
         with_duration with_relatedOpen with_dragOffset with_isDragging
         with_skipIndicator with_nextCountdown with_visibleCategoryCount
         with_ytReady with_ytLoaded];
    try exact (conj P Z);
    try (split; [apply Qle_refl|reflexivity]);
    try (split; [exact P|discriminate]).
  split; [apply max_zero|].
  intros F. match goal with
            | H : negb (isDragging (state w)) = false |- _ =>
                apply negb_false_iff in H; congruence
            end.
Qed.

Lemma drag_commit (prev c : World) :
  dragOffset (state (commit prev c)) = dragOffset (state c)
  /\ isDragging (state (commit prev c)) = isDragging (state c).
Proof.
  destruct (commit_state_cases prev c) as [S|(cd & _ & _ & _ & S)];
    rewrite S; split; reflexivity.
Qed.

Lemma reachable_drag (c : Catalog) (h : Q) (api : bool) (w : World) :
  Reachable c h api w ->
  0 <= dragOffset (state w)
  /\ (isDragging (state w) = false -> dragOffset (state w) = 0).
Proof.
  revert w.
  apply (reachable_induction
           (fun v => 0 <= dragOffset (state v)
                     /\ (isDragging (state v) = false ->
                         dragOffset (state v) = 0))).
  - split; [apply Qle_refl|reflexivity].
  - intros e v H. unfold dispatch.
    destruct (drag_commit v (handle e v)) as [-> ->].
    now apply drag_handle.
  - intros t v H. exact H.
Qed.

End Gesture.

Section GestureRuns.

Lemma dispatch_gesture (e : Event) (w : World) :
  steady w -> isGesture e = true -> dispatch e w = handle e w.
Proof.
  intros S G. apply dispatch_quiet; [exact S|..];
    destruct e; try discriminate G; unfold_handlers; split_branches;
    try reflexivity; tauto.
Qed.

Lemma feed_cons (i : Input) (inputs : list Input) (w : World) :
  feed (i :: inputs) w = feed inputs (advance i w).
Proof. reflexivity. Qed.

Lemma feed_app (a b : list Input) (w : World) :
  feed (a ++ b) w = feed b (feed a w).
Proof. unfold feed. apply fold_left_app. Qed.

Lemma setDragOffset_twice (a b : Q) (w : World) :
  setDragOffset a (setDragOffset b w) = setDragOffset a w.
Proof. reflexivity. Qed.

(** While the pointer moves, the offset is how far it is below the point
    where it went down, and never negative. *)
Lemma feed_moves (y0 y1 : Q) (moves : list Q) :
  forall v,
    steady v -> shellRendered v = true ->
    isDragging (state v) = true -> dragStartY (refs v) = y0 ->
    feed (map (fun y => Happens (PointerMove y)) (moves ++ [y1])) v
    = setDragOffset (Js.max 0 (y1 - y0)) v.
Proof.
  assert (forall y v,
             steady v -> shellRendered v = true ->
             isDragging (state v) = true -> dragStartY (refs v) = y0 ->
             dispatch (PointerMove y) v
             = setDragOffset (Js.max 0 (y - y0)) v) as M.
  { intros y v S R D Y. rewrite (dispatch_gesture (PointerMove y) v S eq_refl).
    unfold handle, guarded, handlePlayerPointerMove.
    now rewrite R, D, Y. }
  induction moves as [|y moves IH]; intros v S R D Y.
  - cbn [app map]. rewrite feed_cons. cbn [advance feed fold_left].
    now apply M.
  - cbn [app map]. rewrite feed_cons. cbn [advance].
    pose proof (steady_dispatch (PointerMove y) v S) as S'.
    rewrite (M y v S R D Y) in *.
    rewrite (IH _ S' R D Y). apply setDragOffset_twice.
Qed.

(** The world in which the pointer is released. *)
Lemma feed_drag (y0 y1 : Q) (moves : list Q) (w : World) :
  steady w -> shellRendered w = true -> playerMode (state w) = full ->
  feed (dragGesture y0 moves y1) w
  = handlePlayerPointerUp
      (setDragOffset (Js.max 0 (y1 - y0))
         (onRefs (with_dragStartY y0) (setIsDragging true w))).
Proof.
  intros S R M. unfold dragGesture. rewrite feed_cons, feed_app.
  cbn [advance].
  pose proof (steady_dispatch (PointerDown y0 false) w S) as S1.
  rewrite (dispatch_gesture (PointerDown y0 false) w S eq_refl) in *.
  assert (handle (PointerDown y0 false) w
          = onRefs (with_dragStartY y0) (setIsDragging true w)) as E.
  { unfold handle, guarded, handlePlayerPointerDown. now rewrite R, M. }
  rewrite E in *.
  rewrite (feed_moves y0 y1 moves _ S1 R eq_refl eq_refl).
  cbn [feed fold_left advance].
  assert (steady (setDragOffset (Js.max 0 (y1 - y0))
                    (onRefs (with_dragStartY y0) (setIsDragging true w))))
    as S2.
  { rewrite <- (feed_moves y0 y1 [] _ S1 R eq_refl eq_refl).
    cbn [app map feed fold_left advance]. now apply steady_dispatch. }
  rewrite (dispatch_gesture PointerUp _ S2 eq_refl).
  set (v := setDragOffset _ _) in *.
  assert (shellRendered v = true) as R2 by exact R.
  unfold handle, guarded. now rewrite R2.
Qed.

Lemma gt_max_zero (x t : Q) : 0 <= t -> Js.gt (Js.max 0 x) t = Js.gt x t.
Proof.
  intros T. unfold Js.max. destruct (Qle_bool 0 x) eqn:E; [reflexivity|].
  apply Qle_bool_false in E.
  assert (Js.gt 0 t = false) as -> by (apply gt_false; exact T).
  symmetry. apply gt_false. lra.
Qed.

End GestureRuns.

(** In every reachable world the drag offset is not negative, and it is
    0 unless a drag is in progress. *)
Theorem dragOffset_only_while_dragging (c : Catalog) (h : Q) (api : bool)
  (w : World) :
  Reachable c h api w ->
  0 <= dragOffset (state w)
  /\ (isDragging (state w) = false -> dragOffset (state w) = 0).
Proof. apply reachable_drag. Qed.

Lemma dragOffset_only_while_dragging_witness :
  0 <= dragOffset (state Demo.draggedFar)
  /\ (isDragging (state Demo.minimized) = false ->
      dragOffset (state Demo.minimized) = 0).
Proof.
  assert (Reachable Demo.shelf 1000 true Demo.draggedFar) as R.
  { unfold Demo.draggedFar, Demo.watchingRex, Demo.start.
    do 2 apply reachable_feed_from. constructor. }
  assert (Reachable Demo.shelf 1000 true Demo.minimized) as R'.
  { unfold Demo.minimized. now apply reachable_feed_from. }
  split.
  - exact (proj1 (dragOffset_only_while_dragging _ _ _ _ R)).
  - exact (proj2 (dragOffset_only_while_dragging _ _ _ _ R')).
Defined.

(** A whole drag in full mode: the pointer goes down at [y0], moves, and
    is released at [y1].  The player is minimized, and the related sheet
    closed, exactly when [y1 - y0] is above 0.22 of the viewport height;
    only the last position of the pointer counts.  Afterwards the offset
    is 0 and no drag is in progress. *)
Theorem dragGesture_threshold (c : Catalog) (h : Q) (api : bool)
  (w : World) (y0 y1 : Q) (moves : list Q) :
  Reachable c h api w ->
  shellRendered w = true ->
  playerMode (state w) = full ->
  0 <= innerHeight w ->
  (innerHeight w * (22 # 100) < y1 - y0 ->
   playerMode (state (feed (dragGesture y0 moves y1) w)) = mini
   /\ relatedOpen (state (feed (dragGesture y0 moves y1) w)) = false)
  /\ (y1 - y0 <= innerHeight w * (22 # 100) ->
      playerMode (state (feed (dragGesture y0 moves y1) w)) = full
      /\ relatedOpen (state (feed (dragGesture y0 moves y1) w))
         = relatedOpen (state w))
  /\ dragOffset (state (feed (dragGesture y0 moves y1) w)) = 0
  /\ isDragging (state (feed (dragGesture y0 moves y1) w)) = false
  /\ activeVideo (state (feed (dragGesture y0 moves y1) w))
     = activeVideo (state w).
Proof.
  intros R S M H.
  rewrite (feed_drag y0 y1 moves w (reachable_steady _ _ _ _ R) S M).
  unfold handlePlayerPointerUp.
  cbn [state onState onRefs setDragOffset setIsDragging isDragging
       with_dragOffset with_isDragging negb dragOffset innerHeight].
  rewrite gt_max_zero by (apply Qmult_le_0_compat; [exact H|discriminate]).
  split.
  { intros L. apply gt_true in L. rewrite L. split; reflexivity. }
  split.
  { intros L. apply gt_false in L. rewrite L. cbn. auto. }
  destruct (Js.gt _ _); repeat split.
Qed.

Lemma dragGesture_threshold_witness :
  playerMode (state (feed (dragGesture 100 [150; 90] 321) Demo.watchingRex))
  = mini
  /\ playerMode
       (state (feed (dragGesture 100 [400] 319) Demo.watchingRex))
     = full.
Proof.
  assert (Reachable Demo.shelf 1000 true Demo.watchingRex) as R.
  { unfold Demo.watchingRex, Demo.start.
    apply reachable_feed_from. constructor. }
  assert (shellRendered Demo.watchingRex = true) as S
      by (vm_compute; reflexivity).
  assert (playerMode (state Demo.watchingRex) = full) as M
      by (vm_compute; reflexivity).
  assert (0 <= innerHeight Demo.watchingRex) as H
      by (vm_compute; discriminate).
  destruct (dragGesture_threshold _ _ _ _ 100 321 [150; 90] R S M H)
    as (A & _).
  destruct (dragGesture_threshold _ _ _ _ 100 319 [400] R S M H)
    as (_ & B & _).
  split.
  - apply A. vm_compute. reflexivity.
  - apply B. vm_compute. discriminate.
Defined.

(** Minimizing the player by a drag and restoring it by a click on the
    miniature changes nothing but this: the related sheet is closed, and
    [dragStartY] remembers where the pointer went down.  The session,
    the position, the backends and the pending timers are as before. *)
Theorem minimize_then_restore (c : Catalog) (h : Q) (api : bool)
  (w : World) (y0 y1 : Q) (moves : list Q) :
  Reachable c h api w ->
  shellRendered w = true ->
  playerMode (state w) = full ->
  isDragging (state w) = false ->
  0 <= innerHeight w ->
  innerHeight w * (22 # 100) < y1 - y0 ->
  playerMode (state (feed (dragGesture y0 moves y1) w)) = mini
  /\ feed (dragGesture y0 moves y1 ++ [Happens ClickMini]) w
     = onRefs (with_dragStartY y0) (setRelatedOpen false w).
Proof.
  intros R S M D H L.
  pose proof (reachable_steady _ _ _ _ R) as St.
  pose proof (proj2 (reachable_drag _ _ _ _ R) D) as Z.
  assert (steady (feed (dragGesture y0 moves y1) w)) as St'.
  { apply (reachable_steady c h api). now apply reachable_feed_from. }
  rewrite feed_app. cbn [feed fold_left advance].
  rewrite (dispatch_gesture ClickMini _ St' eq_refl).
  rewrite (feed_drag y0 y1 moves w St S M).
  set (v := handlePlayerPointerUp _).
  assert (v = setDragOffset 0
                (setRelatedOpen false
                   (setPlayerMode mini
                      (setIsDragging false
                         (setDragOffset (Js.max 0 (y1 - y0))
                            (onRefs (with_dragStartY y0)
                               (setIsDragging true w))))))) as E.
  { subst v. unfold handlePlayerPointerUp.
    cbn [state onState onRefs setDragOffset setIsDragging isDragging
         with_dragOffset with_isDragging negb dragOffset innerHeight].
    rewrite gt_max_zero
      by (apply Qmult_le_0_compat; [exact H|discriminate]).
    apply gt_true in L. now rewrite L. }
  rewrite E. clear E v St'. split; [reflexivity|].
  unfold handle, guarded, inMini, handleMiniRestore.
  assert (shellRendered
            (setDragOffset 0
               (setRelatedOpen false
                  (setPlayerMode mini
                     (setIsDragging false
                        (setDragOffset (Js.max 0 (y1 - y0))
                           (onRefs (with_dragStartY y0)
                              (setIsDragging true w)))))))
          = true) as -> by exact S.
  cbn [andb state onState setDragOffset setRelatedOpen setPlayerMode
       playerMode with_dragOffset with_relatedOpen with_playerMode
       PlayerMode_eqb].
  destruct w as [cat st rf tm nid nw ih ct cc].
  destruct st as [av pm ip ctm du ro dof idr si nc vc yr yl].
  cbn in M, D, Z. subst pm idr dof. reflexivity.
Qed.

Lemma minimize_then_restore_witness :
  feed (dragGesture 100 [200] 321 ++ [Happens ClickMini]) Demo.watchingRex
  = onRefs (with_dragStartY 100) (setRelatedOpen false Demo.watchingRex).
Proof.
  assert (Reachable Demo.shelf 1000 true Demo.watchingRex) as R.
  { unfold Demo.watchingRex, Demo.start.
    apply reachable_feed_from. constructor. }
  assert (shellRendered Demo.watchingRex = true) as S
      by (vm_compute; reflexivity).
  assert (playerMode (state Demo.watchingRex) = full) as M
      by (vm_compute; reflexivity).
  assert (isDragging (state Demo.watchingRex) = false) as D
      by (vm_compute; reflexivity).
  assert (0 <= innerHeight Demo.watchingRex) as H
      by (vm_compute; discriminate).
  assert (innerHeight Demo.watchingRex * (22 # 100) < 321 - 100) as L
      by (vm_compute; reflexivity).
  exact (proj2 (minimize_then_restore _ _ _ _ 100 321 [200] R S M D H L)).
Defined.

(** A swipe on the shell, in any mode: it opens the related sheet when
    the touch ends more than 50 above where it started, closes it when it
    ends more than 50 below, and otherwise leaves it; a touch list that
    is empty counts as position 0.  Nothing else of the state changes. *)
Theorem swipeGesture_direction (c : Catalog) (h : Q) (api : bool)
  (w : World) (y0 y1 : option Q) :
  Reachable c h api w ->
  shellRendered w = true ->
  (50 < Js.nullish y0 0 - Js.nullish y1 0 ->
   state (feed (swipeGesture y0 y1) w) = with_relatedOpen true (state w))
  /\ (Js.nullish y0 0 - Js.nullish y1 0 < -50 ->
      state (feed (swipeGesture y0 y1) w)
      = with_relatedOpen false (state w))
  /\ (-50 <= Js.nullish y0 0 - Js.nullish y1 0 <= 50 ->
      state (feed (swipeGesture y0 y1) w) = state w).
Proof.
  intros R S.
  pose proof (reachable_steady _ _ _ _ R) as St.
  pose proof (steady_dispatch (TouchStart y0) w St) as St'.
  unfold swipeGesture. cbn [feed fold_left advance].
  rewrite (dispatch_gesture (TouchEnd y1) _ St' eq_refl).
  rewrite (dispatch_gesture (TouchStart y0) w St eq_refl).
  assert (handle (TouchStart y0) w = handleTouchStart y0 w) as ->
      by (unfold handle, guarded; now rewrite S).
  assert (handle (TouchEnd y1) (handleTouchStart y0 w)
          = handleTouchEnd y1 (handleTouchStart y0 w)) as ->.
  { unfold handle, guarded.
    now assert (shellRendered (handleTouchStart y0 w) = true) as ->
        by exact S. }
  unfold handleTouchEnd, handleTouchStart.
  cbn [refs onRefs touchStartY with_touchStartY].
  set (delta := Js.nullish y0 0 - Js.nullish y1 0).
  split; [|split].
  - intros L.
    assert (Js.gt delta 50 = true) as -> by (apply gt_true; exact L).
    assert (Js.lt delta (-50) = false) as -> by (apply lt_false; lra).
    reflexivity.
  - intros L.
    assert (Js.gt delta 50 = false) as -> by (apply gt_false; lra).
    assert (Js.lt delta (-50) = true) as -> by (apply lt_true; exact L).
    reflexivity.
  - intros [L U].
    assert (Js.gt delta 50 = false) as -> by (apply gt_false; exact U).
    assert (Js.lt delta (-50) = false) as -> by (apply lt_false; exact L).
    reflexivity.
Qed.

Lemma swipeGesture_direction_witness :
  state (feed (swipeGesture (Some 300) (Some 200)) Demo.watchingRex)
  = with_relatedOpen true (state Demo.watchingRex)
  /\ state (feed (swipeGesture None (Some 40)) Demo.watchingRex)
     = state Demo.watchingRex.
Proof.
  assert (Reachable Demo.shelf 1000 true Demo.watchingRex) as R.
  { unfold Demo.watchingRex, Demo.start.
    apply reachable_feed_from. constructor. }
  assert (shellRendered Demo.watchingRex = true) as S
      by (vm_compute; reflexivity).
  split.
  - apply (swipeGesture_direction _ _ _ _ (Some 300) (Some 200) R S).
    vm_compute. reflexivity.
  - apply (swipeGesture_direction _ _ _ _ None (Some 40) R S).
    split; vm_compute; discriminate.
Defined.

(** The wheel in full mode: a movement above 20 opens the related sheet,
    one below -20 closes it, whatever it was before, and anything in
    between does nothing; the same movement a second time changes
    nothing more, and no effect runs after it. *)
Theorem handleWheel_direction (c : Catalog) (h : Q) (api : bool)
  (w : World) (deltaY : Q) :
  Reachable c h api w ->
  shellRendered w = true ->
  playerMode (state w) = full ->
  dispatch (Wheel deltaY) w = handleWheel deltaY w
  /\ (20 < deltaY ->
      state (handleWheel deltaY w) = with_relatedOpen true (state w))
  /\ (deltaY < -20 ->
      state (handleWheel deltaY w) = with_relatedOpen false (state w))
  /\ (-20 <= deltaY <= 20 -> handleWheel deltaY w = w)
  /\ handleWheel deltaY (handleWheel deltaY w) = handleWheel deltaY w.
Proof.
  intros R S M.
  pose proof (reachable_steady _ _ _ _ R) as St.
  split.
  { rewrite (dispatch_gesture (Wheel deltaY) w St eq_refl).
    unfold handle, guarded. now rewrite S. }
  destruct w as [cat st rf tm nid nw ih ct cc].
  destruct st as [av pm ip ctm du ro dof idr si nc vc yr yl].
  cbn in M. subst pm. clear R S St.
  unfold handleWheel.
  cbn [state playerMode relatedOpen PlayerMode_eqb negb].
  split; [|split; [|split]].
  - intros L.
    assert (Js.gt deltaY 20 = true) as -> by (apply gt_true; exact L).
    assert (Js.lt deltaY (-20) = false) as -> by (apply lt_false; lra).
    destruct ro; reflexivity.
  - intros L.
    assert (Js.gt deltaY 20 = false) as -> by (apply gt_false; lra).
    assert (Js.lt deltaY (-20) = true) as -> by (apply lt_true; exact L).
    destruct ro; reflexivity.
  - intros [L U].
    assert (Js.gt deltaY 20 = false) as -> by (apply gt_false; exact U).
    assert (Js.lt deltaY (-20) = false) as -> by (apply lt_false; exact L).
    reflexivity.
  - destruct (Js.gt deltaY 20) eqn:G, (Js.lt deltaY (-20)) eqn:L;
      [apply gt_true in G; apply lt_true in L; lra|..];
      destruct ro;
      cbn [andb negb setRelatedOpen onState state relatedOpen
           with_relatedOpen playerMode PlayerMode_eqb];
      rewrite ?G, ?L; reflexivity.
Qed.

Lemma handleWheel_direction_witness :
  dispatch (Wheel 30) Demo.watchingRex = handleWheel 30 Demo.watchingRex
  /\ state (handleWheel 30 Demo.watchingRex)
     = with_relatedOpen true (state Demo.watchingRex).
Proof.
  assert (Reachable Demo.shelf 1000 true Demo.watchingRex) as R.
  { unfold Demo.watchingRex, Demo.start.
    apply reachable_feed_from. constructor. }
  assert (shellRendered Demo.watchingRex = true) as S
      by (vm_compute; reflexivity).
  assert (playerMode (state Demo.watchingRex) = full) as M
      by (vm_compute; reflexivity).
  destruct (handleWheel_direction _ _ _ _ 30 R S M) as (A & B & _).
  split; [exact A|]. apply B. vm_compute. reflexivity.
Defined.

(** ** The controls *)

Section ControlFacts.

(** With the [<video>] element mounted the session is a native one. *)
Lemma native_backend (w : World) (video : VideoElement) :
  mounted w ->
  videoRef (refs w) = Some video ->
  isYouTube (state w) = false
  /\ embeddedPlayer w = None
  /\ controlsUsable w = true.
Proof.
  unfold mounted, embeddedPlayer, controlsUsable, shellRendered,
    ytControlsDisabled.
  intros M V. rewrite V in M.
  destruct (activeVideo (state w)); [|discriminate].
  destruct (isYouTube (state w)); [discriminate|]. auto.
Qed.

(** Without a session, and for an embedded item whose player has not
    loaded, there is no backend. *)
Lemma no_backend (w : World) :
  mounted w ->
  activeVideo (state w) = None \/ ytControlsDisabled (state w) = true ->
  embeddedPlayer w = None /\ videoRef (refs w) = None.
Proof.
  unfold mounted, embeddedPlayer, ytControlsDisabled.
  intros M [A|D].
  - rewrite A in M. unfold isYouTube. rewrite A. auto.
  - apply andb_prop in D as [Y L]. apply negb_true_iff in L.
    rewrite Y, L in *.
    split; [now destruct (ytPlayerRef (refs w))|].
    now destruct (activeVideo (state w)).
Qed.

Lemma togglePlay_native (w : World) (video : VideoElement) :
  embeddedPlayer w = None ->
  videoRef (refs w) = Some video ->
  togglePlay w
  = setIsPlaying (el_paused video)
      (onRefs (with_videoRef
                 (Some {| el_currentTime := el_currentTime video;
                          el_paused := negb (el_paused video) |})) w).
Proof.
  intros E V. unfold togglePlay. rewrite E, V.
  destruct (el_paused video); reflexivity.
Qed.

Lemma embeddedPlayer_usable (w : World) (player : YTPlayer) :
  embeddedPlayer w = Some player ->
  controlsUsable w = true /\ ytLoaded (state w) = true.
Proof.
  unfold embeddedPlayer, controlsUsable, shellRendered, ytControlsDisabled.
  destruct (isYouTube (state w)) eqn:Y; [|discriminate].
  destruct (ytPlayerRef (refs w)); [|discriminate].
  destruct (ytLoaded (state w)); [|discriminate].
  unfold isYouTube in Y. destruct (activeVideo (state w)); [auto|discriminate].
Qed.

Lemma dispatch_togglePlay (w : World) :
  steady w -> controlsUsable w = true ->
  dispatch ClickTogglePlay w = togglePlay w.
Proof.
  intros S U.
  assert (handle ClickTogglePlay w = togglePlay w) as H
      by (unfold handle, guarded; now rewrite U).
  rewrite <- H. apply dispatch_quiet; [exact S|..]; rewrite H;
    unfold togglePlay;
    destruct (embeddedPlayer w), (videoRef (refs w)) as [video|] eqn:V,
      (isPlaying (state w)); try destruct (el_paused video);
    cbn [state refs onState onRefs setIsPlaying videoRef with_videoRef
         countdownChanged];
    rewrite ?V;
    first [reflexivity | tauto | split; intros X; discriminate X].
Qed.

Lemma skipBy_native_world (a : Q) (w : World) (video : VideoElement) :
  embeddedPlayer w = None ->
  videoRef (refs w) = Some video ->
  0 <= sessionDuration w ->
  exists target,
    target == clamp (el_currentTime video + a) 0 (sessionDuration w)
    /\ skipBy a w
       = setTimeout ClearSkipIndicator 450
           (setSkipIndicator (Some (skipLabel a))
              (onRefs (with_videoRef (Some (seek target video))) w)).
Proof.
  intros E V P. unfold skipBy. rewrite E, V. eexists.
  split; [|reflexivity].
  apply min_max_clamp.
  - apply sessionDuration_code.
  - now rewrite sessionDuration_code.
Qed.

Lemma dispatch_skip (e : Event) (a : Q) (w : World) :
  e = ClickSkipBack /\ a = -10 \/ e = ClickSkipForward /\ a = 10 ->
  steady w -> controlsUsable w = true ->
  dispatch e w = skipBy a w.
Proof.
  intros K S U.
  assert (handle e w = skipBy a w) as H.
  { destruct K as [[-> ->]|[-> ->]]; unfold handle, guarded; now rewrite U. }
  rewrite <- H. apply dispatch_quiet; [exact S|..]; rewrite H;
    unfold skipBy;
    destruct (embeddedPlayer w) as [player|],
      (videoRef (refs w)) as [video|] eqn:V;
    try destruct (Qeq_bool _ 0); try destruct (YT.seekTo _ player);
    cbn [state refs onState onRefs setSkipIndicator setCurrentTime
         setTimeout videoRef with_videoRef with_ytPlayerRef
         countdownChanged];
    rewrite ?V;
    first [reflexivity | tauto | split; intros X; discriminate X].
Qed.

End ControlFacts.

(** On the native backend a click on play/pause flips the element
    between paused and playing and sets [isPlaying] to what the element
    then does, whatever [isPlaying] was; a second click brings the
    element back.  On the embedded backend it flips [isPlaying], and two
    clicks leave the world as it was. *)
Theorem togglePlay_twice (c : Catalog) (h : Q) (api : bool) (w : World) :
  Reachable c h api w ->
  (forall video,
      videoRef (refs w) = Some video ->
      dispatch ClickTogglePlay w
      = setIsPlaying (el_paused video)
          (onRefs (with_videoRef
                     (Some {| el_currentTime := el_currentTime video;
                              el_paused := negb (el_paused video) |})) w)
      /\ feed [Happens ClickTogglePlay; Happens ClickTogglePlay] w
         = setIsPlaying (negb (el_paused video)) w)
  /\ (forall player,
         embeddedPlayer w = Some player ->
         isPlaying (state (dispatch ClickTogglePlay w))
         = negb (isPlaying (state w))
         /\ feed [Happens ClickTogglePlay; Happens ClickTogglePlay] w = w).
Proof.
  intros R. pose proof (reachable_steady _ _ _ _ R) as S.
  pose proof (steady_dispatch ClickTogglePlay w S) as S1.
  split.
  - intros video V.
    destruct (native_backend w video (proj1 (proj2 S)) V) as (Y & E & U).
    rewrite (dispatch_togglePlay w S U) in S1.
    cbn [feed fold_left advance].
    rewrite (dispatch_togglePlay w S U).
    rewrite (togglePlay_native w video E V) in *.
    split; [reflexivity|].
    set (w1 := setIsPlaying _ _) in *.
    rewrite (dispatch_togglePlay w1 S1)
      by (exact U).
    rewrite (togglePlay_native w1 _ E eq_refl). subst w1.
    destruct w as [cat st rf tm nid nw ih ct cc].
    destruct st as [av pm ip ctm du ro dof idr si nc vc yr yl].
    destruct rf as [vr yp ds ts]. cbn in V. subst vr.
    destruct video as [t p]. destruct p; reflexivity.
  - intros player E.
    destruct (embeddedPlayer_usable w player E) as [U L].
    rewrite (dispatch_togglePlay w S U) in S1.
    cbn [feed fold_left advance].
    rewrite (dispatch_togglePlay w S U).
    assert (togglePlay w = setIsPlaying (negb (isPlaying (state w))) w)
      as T.
    { unfold togglePlay. rewrite E. now destruct (isPlaying (state w)). }
    rewrite T in *. split; [reflexivity|].
    set (w1 := setIsPlaying _ _) in *.
    rewrite (dispatch_togglePlay w1 S1) by exact U.
    assert (togglePlay w1 = setIsPlaying (negb (isPlaying (state w1))) w1)
      as ->.
    { unfold togglePlay.
      assert (embeddedPlayer w1 = Some player) as -> by exact E.
      now destruct (isPlaying (state w1)). }
    subst w1.
    destruct w as [cat st rf tm nid nw ih ct cc].
    destruct st as [av pm ip ctm du ro dof idr si nc vc yr yl].
    destruct ip; reflexivity.
Qed.

Lemma togglePlay_twice_witness :
  feed [Happens ClickTogglePlay; Happens ClickTogglePlay] Demo.playingRex
  = setIsPlaying true Demo.playingRex
  /\ feed [Happens ClickTogglePlay; Happens ClickTogglePlay]
       Demo.playingRaptor
     = Demo.playingRaptor.
Proof.
  assert (Reachable Demo.shelf 1000 true Demo.playingRex) as R1.
  { unfold Demo.playingRex, Demo.watchingRex, Demo.start.
    do 2 apply reachable_feed_from. constructor. }
  assert (Reachable Demo.shelf 1000 true Demo.playingRaptor) as R2.
  { unfold Demo.playingRaptor, Demo.watchingRaptor, Demo.start.
    do 2 apply reachable_feed_from. constructor. }
  assert (videoRef (refs Demo.playingRex)
          = Some {| el_currentTime := 42; el_paused := false |}) as V
      by (vm_compute; reflexivity).
  assert (exists player, embeddedPlayer Demo.playingRaptor = Some player)
    as [player E] by (eexists; vm_compute; reflexivity).
  split.
  - exact (proj2 (proj1 (togglePlay_twice _ _ _ _ R1) _ V)).
  - exact (proj2 (proj2 (togglePlay_twice _ _ _ _ R2) _ E)).
Defined.

(** In a reachable world without a session, or with an embedded item
    whose player has not loaded, the handlers of the controls do nothing
    at all: no seek, no indicator, no timer.  So the play button of the
    miniature and the progress slider, which are not disabled then,
    change nothing either. *)
Theorem controls_need_a_backend (c : Catalog) (h : Q) (api : bool)
  (w : World) (amount value : Q) :
  Reachable c h api w ->
  activeVideo (state w) = None \/ ytControlsDisabled (state w) = true ->
  skipBy amount w = w
  /\ togglePlay w = w
  /\ handleSeek value w = w
  /\ dispatch ClickMiniToggle w = w
  /\ dispatch (ChangeProgress value) w = w.
Proof.
  intros R D. pose proof (reachable_steady _ _ _ _ R) as (S & M & _).
  destruct (no_backend w M D) as [E V].
  assert (togglePlay w = w) as T by (unfold togglePlay; now rewrite E, V).
  assert (handleSeek value w = w) as K
      by (unfold handleSeek; now rewrite E, V).
  assert (commit w w = w) as C.
  { unfold commit. rewrite (pass_unchanged w S M).
    rewrite (mounted_render w M). now apply pass_unchanged. }
  split; [now apply skipBy_no_backend|].
  split; [exact T|]. split; [exact K|].
  unfold dispatch, handle, guarded, handleMiniToggle. rewrite T, K.
  split; [now destruct (inMini w)|now destruct (inFull w)].
Qed.

Lemma controls_need_a_backend_witness :
  skipBy 10 Demo.watchingRaptor = Demo.watchingRaptor
  /\ togglePlay Demo.start = Demo.start.
Proof.
  assert (Reachable Demo.shelf 1000 true Demo.watchingRaptor) as R1.
  { unfold Demo.watchingRaptor, Demo.start.
    apply reachable_feed_from. constructor. }
  assert (Reachable Demo.shelf 1000 true Demo.start) as R2 by constructor.
  assert (ytControlsDisabled (state Demo.watchingRaptor) = true) as D
      by (vm_compute; reflexivity).
  assert (activeVideo (state Demo.start) = None) as N by reflexivity.
  split.
  - exact (proj1 (controls_need_a_backend _ _ _ _ 10 0 R1 (or_intror D))).
  - exact (proj1 (proj2 (controls_need_a_backend _ _ _ _ 10 0 R2
                           (or_introl N)))).
Defined.

(** ** Seeking *)

(** C10: [handleSeek v] applies no clamping: whatever [v] is, it is the
    value written.  On the native backend the element and [currentTime]
    are set to exactly [v].  On the embedded backend, with the player
    loaded and a [seekTo] that returns, the player's position and
    [currentTime] are set to exactly [v]; when the player lacks the
    method only [currentTime] is set, and when [seekTo] throws nothing
    changes.  Without a session, and while an embedded player has not
    loaded, a seek changes nothing, though the slider is not disabled. *)
Theorem handleSeek_exact (v : Q) (w : World) :
  (forall video,
      embeddedPlayer w = None ->
      videoRef (refs w) = Some video ->
      videoRef (refs (handleSeek v w))
      = Some {| el_currentTime := v; el_paused := el_paused video |}
      /\ currentTime (state (handleSeek v w)) = v)
  /\ (forall player,
         embeddedPlayer w = Some player ->
         yt_api player = true ->
         yt_faulty player = false ->
         option_map yt_time (ytPlayerRef (refs (handleSeek v w))) = Some v
         /\ currentTime (state (handleSeek v w)) = v)
  /\ (forall player,
         embeddedPlayer w = Some player ->
         yt_api player = false ->
         ytPlayerRef (refs (handleSeek v w)) = Some player
         /\ currentTime (state (handleSeek v w)) = v)
  /\ (forall player,
         embeddedPlayer w = Some player ->
         yt_api player = true ->
         yt_faulty player = true ->
         handleSeek v w = w)
  /\ (forall c h api,
         Reachable c h api w ->
         activeVideo (state w) = None
         \/ ytControlsDisabled (state w) = true ->
         handleSeek v w = w /\ dispatch (ChangeProgress v) w = w).
Proof.
  split; [|split; [|split; [|split]]].
  - intros video E V. unfold handleSeek. rewrite E, V. split; reflexivity.
  - intros player E A F. unfold handleSeek, YT.seekTo. rewrite E, A, F.
    split; reflexivity.
  - intros player E A. unfold handleSeek, YT.seekTo. rewrite E, A.
    split; reflexivity.
  - intros player E A F. unfold handleSeek, YT.seekTo. now rewrite E, A, F.
  - intros c h api R D.
    pose proof (reachable_steady _ _ _ _ R) as (S & M & _).
    destruct (no_backend w M D) as [E V].
    assert (handleSeek v w = w) as K
        by (unfold handleSeek; now rewrite E, V).
    split; [exact K|].
    unfold dispatch, handle, guarded. rewrite K.
    assert (commit w w = w) as C.
    { unfold commit. rewrite (pass_unchanged w S M).
      rewrite (mounted_render w M). now apply pass_unchanged. }
    now destruct (inFull w).
Qed.

Lemma handleSeek_exact_witness :
  (videoRef (refs (handleSeek (-5) Demo.playingRex))
   = Some {| el_currentTime := -5; el_paused := false |}
   /\ currentTime (state (handleSeek (-5) Demo.playingRex)) = -5)
  /\ (option_map yt_time
        (ytPlayerRef (refs (handleSeek 1000 Demo.playingRaptor)))
      = Some 1000
      /\ currentTime (state (handleSeek 1000 Demo.playingRaptor)) = 1000).
Proof.
  split.
  - apply (proj1 (handleSeek_exact (-5) Demo.playingRex)
             {| el_currentTime := 42; el_paused := false |});
      reflexivity.
  - apply (proj1 (proj2 (handleSeek_exact 1000 Demo.playingRaptor))
             {| yt_videoId := "abc123"; yt_time := 25; yt_length := 60;
                yt_api := true; yt_faulty := false |});
      reflexivity.
Defined.

(** C10 as written fails while an embedded player loads: Raptor has
    just been opened, its player is constructed and has not loaded.
    The slider is rendered, and moving it to 30 leaves the world as it
    is: the player stays at 0 and [currentTime] stays 0. *)
Lemma handleSeek_while_loading :
  Reachable Demo.shelf 1000 true Demo.watchingRaptor
  /\ inFull Demo.watchingRaptor = true
  /\ isYouTube (state Demo.watchingRaptor) = true
  /\ ytLoaded (state Demo.watchingRaptor) = false
  /\ dispatch (ChangeProgress 30) Demo.watchingRaptor = Demo.watchingRaptor
  /\ handleSeek 30 Demo.watchingRaptor = Demo.watchingRaptor
  /\ option_map yt_time
       (ytPlayerRef (refs (handleSeek 30 Demo.watchingRaptor)))
     = Some 0
  /\ currentTime (state (handleSeek 30 Demo.watchingRaptor)) = 0
  /\ ~ currentTime (state (handleSeek 30 Demo.watchingRaptor)) == 30.
Proof.
  split.
  { unfold Demo.watchingRaptor, Demo.start.
    apply reachable_feed_from. constructor. }
  repeat split; try (vm_compute; reflexivity).
  vm_compute. discriminate.
Qed.

Ltac split_comparisons :=
  repeat match goal with
         | |- context [Qle_bool ?a ?b] =>
             let B := fresh "B" in
             destruct (Qle_bool a b) eqn:B;
             [apply Qle_bool_iff in B|apply Qle_bool_false in B]
         end;
  cbn [negb]; intros; lra.

(** On the native backend a skip and its opposite do not give the
    position back near the two ends, where the first skip is clamped.
    With [D] the bound of the skip: from a position at most 10 s from
    the start, a skip back followed by a skip forward leaves the
    element at 10, or at [D] when [D] is below 10; from a position at
    most 10 s before [D], a skip forward followed by a skip back leaves
    it at [D - 10], or at 0 when [D] is below 10; in both cases whatever
    the position was.  The indicator shows the second skip. *)
Theorem skips_at_the_ends (c : Catalog) (h : Q) (api : bool)
  (w : World) (video : VideoElement) :
  Reachable c h api w ->
  videoRef (refs w) = Some video ->
  0 <= sessionDuration w ->
  (el_currentTime video <= 10 ->
   exists video',
     videoRef (refs (feed [Happens ClickSkipBack; Happens ClickSkipForward]
                       w))
     = Some video'
     /\ el_currentTime video' == Js.min 10 (sessionDuration w)
     /\ el_paused video' = el_paused video
     /\ skipIndicator
          (state (feed [Happens ClickSkipBack; Happens ClickSkipForward]
                    w))
        = Some "+10s")
  /\ (sessionDuration w - 10 <= el_currentTime video ->
      exists video',
        videoRef
          (refs (feed [Happens ClickSkipForward; Happens ClickSkipBack] w))
        = Some video'
        /\ el_currentTime video' == Js.max 0 (sessionDuration w - 10)
        /\ el_paused video' = el_paused video
        /\ skipIndicator
             (state (feed [Happens ClickSkipForward; Happens ClickSkipBack]
                       w))
           = Some "-10s").
Proof.
  intros R V P. pose proof (reachable_steady _ _ _ _ R) as S.
  destruct (native_backend w video (proj1 (proj2 S)) V) as (Y & E & C).
  split.
  - intros L.
    pose proof (steady_dispatch ClickSkipBack w S) as S1.
    cbn [feed fold_left advance].
    rewrite (dispatch_skip ClickSkipBack (-10) w) in * by auto.
    destruct (skipBy_native_world (-10) w video E V P) as (t1 & T1 & Q1).
    rewrite Q1 in *. clear Q1.
    set (w1 := setTimeout _ _ _) in *.
    rewrite (dispatch_skip ClickSkipForward 10 w1
               (or_intror (conj eq_refl eq_refl)) S1 C).
    destruct (skipBy_native_world 10 w1 (seek t1 video) E eq_refl)
      as (t2 & T2 & ->).
    { exact P. }
    eexists. split; [reflexivity|]. split; [|split; reflexivity].
    cbn [seek el_currentTime] in *.
    change (sessionDuration w1) with (sessionDuration w) in T2.
    revert T1 T2. unfold clamp, Js.min, Js.max, Js.lt, Js.gt.
    split_comparisons.
  - intros U.
    pose proof (steady_dispatch ClickSkipForward w S) as S1.
    cbn [feed fold_left advance].
    rewrite (dispatch_skip ClickSkipForward 10 w) in * by auto.
    destruct (skipBy_native_world 10 w video E V P) as (t1 & T1 & Q1).
    rewrite Q1 in *. clear Q1.
    set (w1 := setTimeout _ _ _) in *.
    rewrite (dispatch_skip ClickSkipBack (-10) w1
               (or_introl (conj eq_refl eq_refl)) S1 C).
    destruct (skipBy_native_world (-10) w1 (seek t1 video) E eq_refl)
      as (t2 & T2 & ->).
    { exact P. }
    eexists. split; [reflexivity|]. split; [|split; reflexivity].
    cbn [seek el_currentTime] in *.
    change (sessionDuration w1) with (sessionDuration w) in T2.
    revert T1 T2. unfold clamp, Js.min, Js.max, Js.lt, Js.gt.
    split_comparisons.
Qed.

Lemma skips_at_the_ends_witness :
  (exists video',
      videoRef (refs (feed [Happens ClickSkipBack; Happens ClickSkipForward]
                        Demo.watchingRex))
      = Some video'
      /\ el_currentTime video' == 10)
  /\ (exists video',
         videoRef
           (refs (feed [Happens ClickSkipForward; Happens ClickSkipBack]
                    (feed [Happens (VideoTimeUpdate 90)] Demo.playingRex)))
         = Some video'
         /\ el_currentTime video' == 85).
Proof.
  assert (Reachable Demo.shelf 1000 true Demo.watchingRex) as R1.
  { unfold Demo.watchingRex, Demo.start.
    apply reachable_feed_from. constructor. }
  assert (Reachable Demo.shelf 1000 true
            (feed [Happens (VideoTimeUpdate 90)] Demo.playingRex)) as R2.
  { unfold Demo.playingRex, Demo.watchingRex, Demo.start.
    do 3 apply reachable_feed_from. constructor. }
  assert (videoRef (refs Demo.watchingRex)
          = Some {| el_currentTime := 0; el_paused := true |}) as V1
      by (vm_compute; reflexivity).
  assert (videoRef
            (refs (feed [Happens (VideoTimeUpdate 90)] Demo.playingRex))
          = Some {| el_currentTime := 90; el_paused := false |}) as V2
      by (vm_compute; reflexivity).
  assert (sessionDuration Demo.watchingRex = 100) as D1
      by (vm_compute; reflexivity).
  assert (sessionDuration
            (feed [Happens (VideoTimeUpdate 90)] Demo.playingRex) = 95)
    as D2 by (vm_compute; reflexivity).
  split.
  - assert (0 <= sessionDuration Demo.watchingRex) as P
        by (rewrite D1; vm_compute; discriminate).
    assert (el_currentTime {| el_currentTime := 0; el_paused := true |}
            <= 10) as L by (vm_compute; discriminate).
    destruct (proj1 (skips_at_the_ends _ _ _ _ _ R1 V1 P) L)
      as (video' & A & B & _).
    exists video'. split; [exact A|]. rewrite B, D1. reflexivity.
  - set (w := feed [Happens (VideoTimeUpdate 90)] Demo.playingRex) in *.
    clearbody w.
    assert (0 <= sessionDuration w) as P
        by (rewrite D2; vm_compute; discriminate).
    assert (sessionDuration w - 10
            <= el_currentTime {| el_currentTime := 90; el_paused := false |})
      as U by (rewrite D2; vm_compute; discriminate).
    destruct (proj2 (skips_at_the_ends _ _ _ _ _ R2 V2 P) U)
      as (video' & A & B & _).
    exists video'. split; [exact A|]. rewrite B, D2. reflexivity.
Defined.

(** The poll of the embedded player, every 500 ms: without the player's
    methods it does nothing; with them it copies the player's position to
    [currentTime], and the player's duration to [duration] unless that is
    0.  So a poll never sets a known duration back to 0, and no effect
    runs after it. *)
Theorem onPoll_copies (c : Catalog) (h : Q) (api : bool) (w : World)
  (player : YTPlayer) :
  Reachable c h api w ->
  embedOnPage w = true ->
  ytPlayerRef (refs w) = Some player ->
  dispatch YtPoll w = onPoll w
  /\ (yt_api player = false -> onPoll w = w)
  /\ (yt_api player = true ->
      currentTime (state (onPoll w)) = yt_time player
      /\ (~ yt_length player == 0 ->
          duration (state (onPoll w)) = yt_length player)
      /\ (yt_length player == 0 ->
          duration (state (onPoll w)) = duration (state w)))
  /\ (~ duration (state w) == 0 -> ~ duration (state (onPoll w)) == 0).
Proof.
  intros R E P. pose proof (reachable_steady _ _ _ _ R) as S.
  assert (handle YtPoll w = onPoll w) as H
      by (unfold handle, guarded; now rewrite E).
  assert (forall b, Qeq_bool (yt_length player) 0 = b ->
                    yt_api player = true ->
                    onPoll w
                    = (if b
                       then if Qeq_bool (duration (state w)) 0
                            then setCurrentTime (yt_time player) w
                            else setDuration (duration (state w))
                                   (setCurrentTime (yt_time player) w)
                       else setDuration (yt_length player)
                              (setCurrentTime (yt_time player) w))) as K.
  { intros b B A. unfold onPoll, YT.getCurrentTime, YT.getDuration.
    rewrite P, A. unfold Js.orNum, Js.or. rewrite truthy_some, B.
    destruct b; cbn [negb]; [|now rewrite B].
    destruct (Qeq_bool (duration (state w)) 0); reflexivity. }
  split.
  { rewrite <- H. apply dispatch_quiet; [exact S|..]; rewrite H;
      destruct (yt_api player) eqn:A;
      try (unfold onPoll, YT.getCurrentTime; rewrite P, A;
           first [reflexivity|tauto]);
      rewrite (K _ eq_refl eq_refl);
      destruct (Qeq_bool (yt_length player) 0);
      try destruct (Qeq_bool (duration (state w)) 0);
      first [reflexivity|tauto]. }
  split.
  { intros A. unfold onPoll, YT.getCurrentTime. now rewrite P, A. }
  split.
  { intros A. rewrite (K _ eq_refl A).
    destruct (Qeq_bool (yt_length player) 0) eqn:B.
    - apply Qeq_bool_iff in B.
      split; [now destruct (Qeq_bool (duration (state w)) 0)|].
      split; [intros N; contradiction|].
      intros _. now destruct (Qeq_bool (duration (state w)) 0).
    - apply Qeq_bool_neq in B.
      split; [reflexivity|]. split; [reflexivity|].
      intros Z; contradiction. }
  intros N. destruct (yt_api player) eqn:A.
  - rewrite (K _ eq_refl eq_refl).
    destruct (Qeq_bool (yt_length player) 0) eqn:B.
    + now destruct (Qeq_bool (duration (state w)) 0).
    + apply Qeq_bool_neq in B. exact B.
  - unfold onPoll, YT.getCurrentTime. now rewrite P, A.
Qed.

Lemma onPoll_copies_witness :
  dispatch YtPoll Demo.playingRaptor = onPoll Demo.playingRaptor
  /\ currentTime (state (onPoll Demo.playingRaptor)) = 25
  /\ duration (state (onPoll Demo.playingRaptor)) = 60.
Proof.
  assert (Reachable Demo.shelf 1000 true Demo.playingRaptor) as R.
  { unfold Demo.playingRaptor, Demo.watchingRaptor, Demo.start.
    do 2 apply reachable_feed_from. constructor. }
  assert (embedOnPage Demo.playingRaptor = true) as E
      by (vm_compute; reflexivity).
  assert (exists player,
             ytPlayerRef (refs Demo.playingRaptor) = Some player
             /\ yt_api player = true
             /\ yt_time player = 25 /\ yt_length player = 60)
    as (player & P & A & T & L).
  { eexists. vm_compute. repeat split. }
  destruct (onPoll_copies _ _ _ _ player R E P) as (D & _ & C & _).
  destruct (C A) as (C1 & C2 & _).
  split; [exact D|]. split; [now rewrite C1|].
  rewrite C2; [exact L|]. rewrite L. discriminate.
Defined.

(** ** The clock without a countdown *)

Section Idle.

Lemma reachable_elapse (c : Catalog) (h : Q) (api : bool) (k : nat)
  (w : World) :
  Reachable c h api w -> Reachable c h api (elapse k w).
Proof.
  intros R. induction k as [|k IH]; [exact R|].
  rewrite elapse_S. exact (ReachAdvance c h api _ Millisecond IH).
Qed.

(** A timer fires in an idle world: its callback runs, and the effects
    have nothing to do. *)
Lemma idle_fire (j : nat) (v : World) :
  idle v ->
  idle (dispatch (TimerFires j) v)
  /\ now (dispatch (TimerFires j) v) = now v
  /\ ((forall t, In t (timers v) -> timer_id t <> j)
      /\ state (dispatch (TimerFires j) v) = state v
      /\ timers (dispatch (TimerFires j) v) = timers v
      \/ exists t,
          In t (timers v) /\ timer_id t = j
          /\ state (dispatch (TimerFires j) v)
             = fireState (action t) (state v)
          /\ timers (dispatch (TimerFires j) v)
             = timers (clearTimeout j v)).
Proof.
  intros [N C]. unfold dispatch. cbn [handle].
  assert (forall x,
             nextCountdown (state x) = None -> countdownChanged x = false ->
             idle (commit v x)
             /\ now (commit v x) = now x
             /\ state (commit v x) = state x
             /\ timers (commit v x) = timers x) as G.
  { intros x Nx Cx. rewrite (commit_idle v x Cx).
    set (F := fun _ : Refs => refs _).
    destruct (onRefs_fields F x) as (S1 & S2 & S3 & _).
    rewrite S1, S2, S3. repeat split; assumption. }
  destruct (timerFires_cases j v) as [[E M]|(t & It & Et & E)]; rewrite E.
  - destruct (G v N C) as (G1 & G2 & G3 & G4).
    split; [exact G1|]. split; [exact G2|]. left. auto.
  - assert (nextCountdown (state (fire (action t) (clearTimeout j v)))
            = None
            /\ countdownChanged (fire (action t) (clearTimeout j v)) = false
            /\ state (fire (action t) (clearTimeout j v))
               = fireState (action t) (state v)
            /\ timers (fire (action t) (clearTimeout j v))
               = timers (clearTimeout j v)
            /\ now (fire (action t) (clearTimeout j v)) = now v)
      as (F1 & F2 & F3 & F4 & F5).
    { destruct (action t); cbn [fire fireState]; unfold countdownTick;
        change (nextCountdown (state (clearTimeout j v)))
          with (nextCountdown (state v));
        rewrite ?N; repeat split; assumption. }
    destruct (G _ F1 F2) as (G1 & G2 & G3 & G4).
    split; [exact G1|]. split; [congruence|]. right.
    exists t. rewrite G3, G4, F3, F4. auto.
Qed.

(** The timers of one millisecond fire in an idle world: a property of
    the state that each of their callbacks keeps is kept; no timer is
    added, and a timer that does not fire stays. *)
Lemma idle_fireAll (P : State -> Prop) (handles : list nat) :
  forall v,
    idle v ->
    P (state v) ->
    (forall t s, In t (timers v) -> In (timer_id t) handles ->
                 P s -> P (fireState (action t) s)) ->
    idle (fireAll handles v)
    /\ P (state (fireAll handles v))
    /\ now (fireAll handles v) = now v
    /\ (forall t, In t (timers (fireAll handles v)) -> In t (timers v))
    /\ (forall t, In t (timers v) -> ~ In (timer_id t) handles ->
                  In t (timers (fireAll handles v))).
Proof.
  induction handles as [|j r IH]; intros v I Pv K.
  - cbn [fireAll fold_left]. auto.
  - rewrite fireAll_cons.
    destruct (idle_fire j v I)
      as (I' & W & [(M & S & T)|(t & It & Et & S & T)]).
    + destruct (IH _ I') as (A & B & C & D & E).
      * now rewrite S.
      * rewrite T. intros t s It Ir. apply K; [exact It|now right].
      * rewrite T in D, E. split; [exact A|]. split; [exact B|].
        split; [congruence|]. split; [exact D|].
        intros t It Nt. apply E; [exact It|]. intros X. apply Nt. now right.
    + destruct (IH _ I') as (A & B & C & D & E).
      * rewrite S. apply K; [exact It|left; now symmetry|exact Pv].
      * rewrite T. intros x s Ix Ir. apply timers_clearTimeout in Ix.
        apply K; [apply Ix|now right].
      * rewrite T in D, E. split; [exact A|]. split; [exact B|].
        split; [congruence|]. split.
        -- intros x Ix. apply D in Ix. now apply timers_clearTimeout in Ix.
        -- intros x Ix Nx. apply E.
           ++ apply timers_clearTimeout. split; [exact Ix|].
              intros X. apply Nx. left. congruence.
           ++ intros X. apply Nx. now right.
Qed.

(** A timer that is among those that fire does fire: what its callback
    brings about, and no callback undoes, holds afterwards. *)
Lemma idle_fireAll_fires (After : State -> Prop) (fired : Timer)
  (handles : list nat) :
  (forall s, After (fireState (action fired) s)) ->
  (forall a s, After s -> After (fireState a s)) ->
  forall v,
    idle v ->
    NoDup (map timer_id (timers v)) ->
    In fired (timers v) ->
    In (timer_id fired) handles ->
    After (state (fireAll handles v)).
Proof.
  intros Qf Qk.
  induction handles as [|j r IH]; intros v I D F H; [contradiction|].
  rewrite fireAll_cons.
  destruct (idle_fire j v I)
    as (I' & W & [(M & S & T)|(t & It & Et & S & T)]).
  - destruct H as [H|H]; [exfalso; now apply (M fired F)|].
    apply IH; [exact I'|now rewrite T|now rewrite T|exact H].
  - destruct (Nat.eq_dec (timer_id fired) j) as [E|E].
    + assert (t = fired) as ->
          by (apply (handle_determines (timers v)); auto; congruence).
      apply (idle_fireAll After r _ I'); [rewrite S; apply Qf|].
      intros x s _ _. apply Qk.
    + destruct H as [H|H]; [congruence|].
      apply IH; [exact I'| | |exact H]; rewrite T.
      * apply handles_filter. exact D.
      * apply timers_clearTimeout. auto.
Qed.

Lemma idle_withNow (t : Z) (v : World) : idle v -> idle (withNow t v).
Proof. exact (fun H => H). Qed.

(** One millisecond in an idle world. *)
Lemma idle_tick (P : State -> Prop) (v : World) :
  idle v ->
  NoDup (map timer_id (timers v)) ->
  P (state v) ->
  (forall t s, In t (timers v) -> (due t <= now v + 1)%Z ->
               P s -> P (fireState (action t) s)) ->
  idle (tick v)
  /\ P (state (tick v))
  /\ now (tick v) = (now v + 1)%Z
  /\ (forall t, In t (timers (tick v)) -> In t (timers v))
  /\ (forall t, In t (timers v) -> (now v + 1 < due t)%Z ->
                In t (timers (tick v))).
Proof.
  intros I D Pv K. unfold tick. cbv zeta.
  destruct (idle_fireAll P (dueHandles (withNow (now v + 1) v))
              (withNow (now v + 1) v) I Pv) as (A & B & C & E & F).
  { intros t s It Id. apply dueHandles_spec in Id as (u & Iu & Du & Eu).
    cbn [timers now withNow] in It, Iu, Du.
    assert (u = t) as -> by (apply (handle_determines (timers v)); auto).
    now apply K. }
  split; [exact A|]. split; [exact B|]. split; [exact C|].
  split; [exact E|].
  intros t It L. apply F; [exact It|].
  intros Id. apply dueHandles_spec in Id as (u & Iu & Du & Eu).
  cbn [timers now withNow] in Iu, Du.
  assert (u = t) as -> by (apply (handle_determines (timers v)); auto).
  lia.
Qed.

(** The millisecond in which a pending timer is due. *)
Lemma idle_tick_fires (After : State -> Prop) (fired : Timer) (v : World) :
  (forall s, After (fireState (action fired) s)) ->
  (forall a s, After s -> After (fireState a s)) ->
  idle v ->
  NoDup (map timer_id (timers v)) ->
  In fired (timers v) ->
  (due fired <= now v + 1)%Z ->
  After (state (tick v)).
Proof.
  intros Qf Qk I D F L. unfold tick. cbv zeta.
  apply (idle_fireAll_fires After fired); auto.
  apply dueHandles_spec. exists fired. auto.
Qed.

(** Any number of milliseconds in an idle world that is reachable. *)
Lemma idle_elapse (P : State -> Prop) (c : Catalog) (h : Q) (api : bool)
  (k : nat) (v : World) :
  Reachable c h api v ->
  idle v ->
  P (state v) ->
  (forall t s, In t (timers v) -> (due t <= now v + Z.of_nat k)%Z ->
               P s -> P (fireState (action t) s)) ->
  idle (elapse k v)
  /\ P (state (elapse k v))
  /\ now (elapse k v) = (now v + Z.of_nat k)%Z
  /\ (forall t, In t (timers (elapse k v)) -> In t (timers v))
  /\ (forall t, In t (timers v) -> (now v + Z.of_nat k < due t)%Z ->
                In t (timers (elapse k v))).
Proof.
  intros R I Pv. induction k as [|k IH]; intros K.
  - change (elapse 0 v) with v. split; [exact I|]. split; [exact Pv|].
    split; [cbn; lia|]. split; auto.
  - rewrite elapse_S.
    destruct IH as (A & B & C & D & E).
    { intros t s It L. apply K; [exact It|lia]. }
    pose proof (reachable_timersSound _ _ _ _ (reachable_elapse _ _ _ k _ R))
      as [[U _] _].
    destruct (idle_tick P (elapse k v) A U B) as (A' & B' & C' & D' & E').
    { intros t s It L. apply K; [now apply D|lia]. }
    split; [exact A'|]. split; [exact B'|]. split; [lia|].
    split; [intros t It; apply D; now apply D'|].
    intros t It L. apply E'; [apply E; [exact It|lia]|lia].
Qed.

End Idle.

Section IdleRuns.

(** A pending timer fires in the millisecond in which it is due; what its
    callback brings about, and no callback undoes, holds from then on. *)
Lemma idle_fires_at (After : State -> Prop) (c : Catalog) (h : Q)
  (api : bool) (v : World) (fired : Timer) (d : nat) :
  (forall s, After (fireState (action fired) s)) ->
  (forall a s, After s -> After (fireState a s)) ->
  Reachable c h api v ->
  idle v ->
  In fired (timers v) ->
  due fired = (now v + Z.of_nat (S d))%Z ->
  forall k, (S d <= k)%nat ->
            idle (elapse k v) /\ After (state (elapse k v)).
Proof.
  intros Qf Qk R I F D k L.
  destruct (idle_elapse (fun _ => True) c h api d v R I Logic.I)
    as (I1 & _ & N1 & _ & S1); [auto|].
  pose proof (reachable_elapse c h api d v R) as R1.
  pose proof (reachable_timersSound _ _ _ _ R1) as [[U _] _].
  assert (After (state (elapse (S d) v))) as Q2.
  { rewrite elapse_S.
    apply (idle_tick_fires After fired); auto; [apply S1; [exact F|lia]|lia]. }
  assert (idle (elapse (S d) v)) as I2.
  { rewrite elapse_S.
    now destruct (idle_tick (fun _ => True) (elapse d v) I1 U Logic.I)
      as (A & _); [auto|]. }
  replace k with ((k - S d) + S d)%nat by lia. rewrite elapse_add.
  destruct (idle_elapse After c h api (k - S d) (elapse (S d) v))
    as (A & B & _); auto.
  now apply reachable_elapse.
Qed.

Lemma fireState_masked (a : TimerAction) (s : State) :
  maskCleared (fireState a s) = maskCleared s.
Proof. destruct a, s; reflexivity. Qed.

Lemma reachable_idle (c : Catalog) (h : Q) (api : bool) (w : World) :
  Reachable c h api w -> nextCountdown (state w) = None -> idle w.
Proof.
  intros R N. split; [exact N|]. exact (proj1 (reachable_steady _ _ _ _ R)).
Qed.

End IdleRuns.

(** With no countdown set and no event, the timers of
    [window.setTimeout] change at most two cells of the state as time
    passes, and only by clearing them: [activeVideo], when a teardown of
    [closePlayer] is pending, and [skipIndicator], when the timer of a
    skip is pending.  Nothing is opened, and mode, position and sheet
    stay as they are.  Events are what the user does and what the two
    backends report, the poll of the embedded player among them. *)
Theorem clock_only_clears (c : Catalog) (h : Q) (api : bool) (w : World)
  (k : nat) :
  Reachable c h api w ->
  nextCountdown (state w) = None ->
  maskCleared (state (elapse k w)) = maskCleared (state w)
  /\ (activeVideo (state (elapse k w)) = activeVideo (state w)
      \/ activeVideo (state (elapse k w)) = None)
  /\ (skipIndicator (state (elapse k w)) = skipIndicator (state w)
      \/ skipIndicator (state (elapse k w)) = None)
  /\ (noTeardown w ->
      activeVideo (state (elapse k w)) = activeVideo (state w))
  /\ ((forall t, In t (timers w) -> isIndicatorTimer t = false) ->
      skipIndicator (state (elapse k w)) = skipIndicator (state w)).
Proof.
  intros R N. pose proof (reachable_idle _ _ _ _ R N) as I.
  split.
  { destruct (idle_elapse
                (fun s => maskCleared s = maskCleared (state w))
                c h api k w R I eq_refl) as (_ & P & _); [|exact P].
    intros t s _ _ E. now rewrite fireState_masked. }
  split.
  { destruct (idle_elapse
                (fun s => activeVideo s = activeVideo (state w)
                          \/ activeVideo s = None)
                c h api k w R I (or_introl eq_refl)) as (_ & P & _);
      [|exact P].
    intros t s _ _ E. destruct (action t); cbn; auto. }
  split.
  { destruct (idle_elapse
                (fun s => skipIndicator s = skipIndicator (state w)
                          \/ skipIndicator s = None)
                c h api k w R I (or_introl eq_refl)) as (_ & P & _);
      [|exact P].
    intros t s _ _ E. destruct (action t); cbn; auto. }
  split.
  { intros T.
    destruct (idle_elapse
                (fun s => activeVideo s = activeVideo (state w))
                c h api k w R I eq_refl) as (_ & P & _); [|exact P].
    intros t s It _ E. specialize (T t It). unfold isTeardownTimer in T.
    destruct (action t); cbn; [discriminate|exact E..]. }
  intros T.
  destruct (idle_elapse
              (fun s => skipIndicator s = skipIndicator (state w))
              c h api k w R I eq_refl) as (_ & P & _); [|exact P].
  intros t s It _ E. specialize (T t It). unfold isIndicatorTimer in T.
  destruct (action t); cbn; [exact E|discriminate|exact E].
Qed.

Lemma clock_only_clears_witness :
  maskCleared (state (elapse 5000 Demo.playingRex))
  = maskCleared (state Demo.playingRex)
  /\ activeVideo (state (elapse 5000 Demo.playingRex)) = Some Demo.rex.
Proof.
  assert (Reachable Demo.shelf 1000 true Demo.playingRex) as R.
  { unfold Demo.playingRex, Demo.watchingRex, Demo.start.
    do 2 apply reachable_feed_from. constructor. }
  assert (nextCountdown (state Demo.playingRex) = None) as N
      by (vm_compute; reflexivity).
  assert (noTeardown Demo.playingRex) as T
      by (intros t I; vm_compute in I; destruct I).
  assert (activeVideo (state Demo.playingRex) = Some Demo.rex) as A
      by (vm_compute; reflexivity).
  destruct (clock_only_clears _ _ _ _ 5000 R N) as (M & _ & _ & K & _).
  split; [exact M|]. rewrite (K T). exact A.
Defined.

Section Teardown.

(** The world right after [closePlayer]. *)
Lemma commit_close (c : Catalog) (h : Q) (api : bool) (w : World) :
  Reachable c h api w ->
  idle (commit w (closePlayer w))
  /\ state (commit w (closePlayer w))
     = with_nextCountdown None
         (with_relatedOpen false (with_playerMode hidden (state w)))
  /\ now (commit w (closePlayer w)) = now w
  /\ In {| timer_id := nextTimerId w; due := now w + 220;
           action := ClearActiveVideo |}
        (timers (commit w (closePlayer w)))
  /\ (forall t, In t (timers (commit w (closePlayer w))) ->
                In t (timers w)
                \/ t = {| timer_id := nextTimerId w; due := now w + 220;
                          action := ClearActiveVideo |}).
Proof.
  intros R. pose proof (reachable_steady _ _ _ _ R) as (S & _ & T & K).
  set (x := closePlayer w).
  assert (state x
          = with_nextCountdown None
              (with_relatedOpen false (with_playerMode hidden (state w))))
    as Sx by reflexivity.
  assert (timers x
          = (timers w ++ [{| timer_id := nextTimerId w; due := now w + 220;
                             action := ClearActiveVideo |}])%list)
    as Tx by reflexivity.
  assert (now x = now w) as Nx by reflexivity.
  assert (countdownTimeout x = countdownTimeout w) as Hx by reflexivity.
  assert (countdownChanged x
          = match nextCountdown (state w) with
            | Some _ => true
            | None => countdownChanged w
            end) as Cx.
  { subst x. unfold closePlayer, setNextCountdown.
    cbn [countdownChanged setTimeout withCountdownEffect onState state
         setRelatedOpen setPlayerMode nextCountdown with_relatedOpen
         with_playerMode].
    now destruct (nextCountdown (state w)). }
  clearbody x.
  destruct (nextCountdown (state w)) as [cd|] eqn:N.
  - assert (nextCountdown (state x) = None) as Nn by now rewrite Sx.
    rewrite (commit_clear w x Cx Nn).
    set (G := fun _ : Refs => refs _).
    destruct (onRefs_fields G (cleanup x)) as (E1 & E2 & E3 & _).
    destruct (cleanup_fields x) as (C1 & _ & C3 & _ & C5).
    unfold idle. rewrite E1, E2, E3, C1, C3.
    change (countdownChanged (onRefs G (cleanup x)))
      with (countdownChanged (cleanup x)).
    rewrite C5. split; [auto|]. split; [exact Sx|]. split; [exact Nx|].
    split.
    + unfold cleanup. rewrite Hx.
      destruct (countdownTimeout w) as [j|] eqn:J;
        cbn [timers withCountdownEffect].
      * apply timers_clearTimeout. rewrite Tx. split.
        -- apply in_app_iff. right. now left.
        -- cbn [timer_id]. destruct (K j J) as [B _]. lia.
      * rewrite Tx. apply in_app_iff. right. now left.
    + intros t It. apply timers_cleanup in It as [It _].
      rewrite Tx in It. apply in_app_iff in It as [It|[<-|[]]]; auto.
  - rewrite S in Cx. rewrite (commit_idle w x Cx).
    set (G := fun _ : Refs => refs _).
    destruct (onRefs_fields G x) as (E1 & E2 & E3 & _).
    unfold idle. rewrite E1, E2, E3.
    change (countdownChanged (onRefs G x)) with (countdownChanged x).
    rewrite Cx, Sx, Tx. split; [auto|]. split; [reflexivity|].
    split; [exact Nx|]. split.
    + apply in_app_iff. right. now left.
    + intros t It. apply in_app_iff in It as [It|[<-|[]]]; auto.
Qed.

End Teardown.

(** Closing the player, by the close button in full mode or by the one
    of the miniature: the mode is hidden at once, and the session is
    torn down 220 ms later.  With no further event, and no teardown of
    an earlier close pending, the closed item stays the active one for
    the 220 ms of the exit animation; from then on there is no active
    item, the [<video>] element is unmounted, and nothing is opened. *)
Theorem closePlayer_teardown (c : Catalog) (h : Q) (api : bool) (w : World)
  (video : VideoItem) (e : Event) :
  Reachable c h api w ->
  activeVideo (state w) = Some video ->
  e = ClickClose /\ playerMode (state w) = full
  \/ e = ClickMiniClose /\ playerMode (state w) = mini ->
  playerMode (state (dispatch e w)) = hidden
  /\ relatedOpen (state (dispatch e w)) = false
  /\ nextCountdown (state (dispatch e w)) = None
  /\ (noTeardown w ->
      forall k, (k < 220)%nat ->
                activeVideo (state (elapse k (dispatch e w))) = Some video)
  /\ (forall k, (220 <= k)%nat ->
                activeVideo (state (elapse k (dispatch e w))) = None
                /\ videoRef (refs (elapse k (dispatch e w))) = None
                /\ playerMode (state (elapse k (dispatch e w))) = hidden
                /\ nextCountdown (state (elapse k (dispatch e w))) = None).
Proof.
  intros R A G.
  assert (Reachable c h api (dispatch e w)) as R0
      by exact (ReachAdvance c h api w (Happens e) R).
  assert (dispatch e w = commit w (closePlayer w)) as E.
  { unfold dispatch, handle, guarded, handleMiniClose, inFull, inMini,
      shellRendered.
    destruct G as [[-> M]|[-> M]]; now rewrite A, M. }
  rewrite E in *. clear E G e.
  destruct (commit_close c h api w R) as (I & S & N & T & U).
  set (w0 := commit w (closePlayer w)) in *.
  split; [now rewrite S|]. split; [now rewrite S|].
  split; [now rewrite S|]. split.
  - intros D k L.
    destruct (idle_elapse (fun s => activeVideo s = Some video)
                c h api k w0 R0 I) as (_ & P & _); [now rewrite S| |exact P].
    intros t s It Dt E. destruct (U t It) as [Iw| ->].
    + specialize (D t Iw). unfold isTeardownTimer in D.
      destruct (action t); cbn; [discriminate|exact E..].
    + cbn [due] in Dt. lia.
  - intros k L.
    destruct (idle_fires_at (fun s => activeVideo s = None)
                c h api w0
                {| timer_id := nextTimerId w; due := now w + 220;
                   action := ClearActiveVideo |}
                219 (fun s => eq_refl)) with (k := k)
      as (I' & P); auto.
    { intros a s E. destruct a; cbn; auto. }
    { rewrite N. cbn [due]. lia. }
    destruct (idle_elapse (fun s => maskCleared s = maskCleared (state w0))
                c h api k w0 R0 I eq_refl) as (_ & Q' & _).
    { intros t s _ _ E. now rewrite fireState_masked. }
    pose proof (reachable_steady _ _ _ _ (reachable_elapse c h api k w0 R0))
      as (_ & Mo & _).
    unfold mounted in Mo. rewrite P in Mo.
    split; [exact P|]. split; [exact Mo|].
    split.
    + change (playerMode (state (elapse k w0)))
        with (playerMode (maskCleared (state (elapse k w0)))).
      rewrite Q', S. reflexivity.
    + exact (proj1 I').
Qed.

Lemma closePlayer_teardown_witness :
  activeVideo (state (elapse 219 (dispatch ClickClose Demo.playingRex)))
  = Some Demo.rex
  /\ activeVideo (state (elapse 220 (dispatch ClickClose Demo.playingRex)))
     = None
  /\ videoRef (refs (elapse 220 (dispatch ClickClose Demo.playingRex)))
     = None.
Proof.
  assert (Reachable Demo.shelf 1000 true Demo.playingRex) as R.
  { unfold Demo.playingRex, Demo.watchingRex, Demo.start.
    do 2 apply reachable_feed_from. constructor. }
  assert (activeVideo (state Demo.playingRex) = Some Demo.rex) as A
      by (vm_compute; reflexivity).
  assert (playerMode (state Demo.playingRex) = full) as M
      by (vm_compute; reflexivity).
  assert (noTeardown Demo.playingRex) as T
      by (intros t I; vm_compute in I; destruct I).
  destruct (closePlayer_teardown _ _ _ _ _ ClickClose R A
              (or_introl (conj eq_refl M))) as (_ & _ & _ & B & C).
  split; [apply (B T); lia|].
  destruct (C 220%nat (le_n _)) as (C1 & C2 & _).
  split; [exact C1|exact C2].
Defined.

Section Indicator.

(** The world right after a skip on the native backend. *)
Lemma skipBy_native_shape (a : Q) (w : World) (video : VideoElement) :
  embeddedPlayer w = None ->
  videoRef (refs w) = Some video ->
  state (skipBy a w) = with_skipIndicator (Some (skipLabel a)) (state w)
  /\ timers (skipBy a w)
     = (timers w ++ [{| timer_id := nextTimerId w; due := now w + 450;
                        action := ClearSkipIndicator |}])%list
  /\ now (skipBy a w) = now w
  /\ countdownChanged (skipBy a w) = countdownChanged w.
Proof. intros E V. unfold skipBy. rewrite E, V. repeat split. Qed.

End Indicator.

(** A skip on the native backend shows its label, ["+10s"] or ["-10s"],
    and a timer clears it 450 ms later.  With no countdown set and no
    further event, the label of a skip forward is shown for the whole
    450 ms when no timer of an earlier skip is pending, and from 450 ms
    on no label is shown. *)
Theorem skipIndicator_clears (c : Catalog) (h : Q) (api : bool) (w : World)
  (video : VideoElement) :
  Reachable c h api w ->
  videoRef (refs w) = Some video ->
  nextCountdown (state w) = None ->
  skipIndicator (state (dispatch ClickSkipForward w)) = Some "+10s"
  /\ skipIndicator (state (dispatch ClickSkipBack w)) = Some "-10s"
  /\ ((forall t, In t (timers w) -> isIndicatorTimer t = false) ->
      forall k, (k < 450)%nat ->
                skipIndicator (state (elapse k (dispatch ClickSkipForward w)))
                = Some "+10s")
  /\ (forall k, (450 <= k)%nat ->
                skipIndicator (state (elapse k (dispatch ClickSkipForward w)))
                = None).
Proof.
  intros R V N. pose proof (reachable_steady _ _ _ _ R) as S.
  destruct (native_backend w video (proj1 (proj2 S)) V) as (_ & E & U).
  assert (Reachable c h api (dispatch ClickSkipForward w)) as R0
      by exact (ReachAdvance c h api w (Happens ClickSkipForward) R).
  rewrite (dispatch_skip ClickSkipBack (-10) w) by auto.
  rewrite (dispatch_skip ClickSkipForward 10 w) in * by auto.
  destruct (skipBy_native_shape 10 w video E V) as (S1 & T1 & N1 & C1).
  destruct (skipBy_native_shape (-10) w video E V) as (S2 & _).
  assert (idle (skipBy 10 w)) as I.
  { split; [now rewrite S1|]. rewrite C1. exact (proj1 S). }
  split; [now rewrite S1|]. split; [now rewrite S2|]. split.
  - intros D k L.
    destruct (idle_elapse (fun s => skipIndicator s = Some "+10s")
                c h api k (skipBy 10 w) R0 I) as (_ & P & _);
      [now rewrite S1| |exact P].
    intros t s It Dt Es. rewrite T1 in It.
    apply in_app_iff in It as [It|[<-|[]]].
    + specialize (D t It). unfold isIndicatorTimer in D.
      destruct (action t); cbn; [exact Es|discriminate|exact Es].
    + cbn [due] in Dt. lia.
  - intros k L.
    destruct (idle_fires_at (fun s => skipIndicator s = None)
                c h api (skipBy 10 w)
                {| timer_id := nextTimerId w; due := now w + 450;
                   action := ClearSkipIndicator |}
                449 (fun s => eq_refl)) with (k := k)
      as (_ & P); auto.
    + intros a s Es. destruct a; cbn; auto.
    + rewrite T1. apply in_app_iff. right. now left.
    + rewrite N1. cbn [due]. lia.
Qed.

Lemma skipIndicator_clears_witness :
  skipIndicator (state (elapse 449 (dispatch ClickSkipForward
                                     Demo.playingRex)))
  = Some "+10s"
  /\ skipIndicator (state (elapse 450 (dispatch ClickSkipForward
                                        Demo.playingRex)))
     = None.
Proof.
  assert (Reachable Demo.shelf 1000 true Demo.playingRex) as R.
  { unfold Demo.playingRex, Demo.watchingRex, Demo.start.
    do 2 apply reachable_feed_from. constructor. }
  assert (videoRef (refs Demo.playingRex)
          = Some {| el_currentTime := 42; el_paused := false |}) as V
      by (vm_compute; reflexivity).
  assert (nextCountdown (state Demo.playingRex) = None) as N
      by (vm_compute; reflexivity).
  assert (forall t, In t (timers Demo.playingRex) ->
                    isIndicatorTimer t = false) as T
      by (intros t I; vm_compute in I; destruct I).
  destruct (skipIndicator_clears _ _ _ _ _ R V N) as (_ & _ & A & B).
  split; [apply (A T); lia|apply B; lia].
Defined.

(** The cancel button of the countdown: the countdown is gone and its
    timer is cleared, and with no further event it stays that way: no
    countdown timer is pending at any later time and the next item is
    never opened; the active item stays unless a teardown of
    [closePlayer] is pending. *)
Theorem cancel_stops_autoplay (c : Catalog) (h : Q) (api : bool)
  (w : World) (cd : Countdown) (k : nat) :
  Reachable c h api w ->
  nextCountdown (state w) = Some cd ->
  inFull w = true ->
  state (dispatch ClickCancelNext w) = with_nextCountdown None (state w)
  /\ nextCountdown (state (elapse k (dispatch ClickCancelNext w))) = None
  /\ (forall t, In t (timers (elapse k (dispatch ClickCancelNext w))) ->
                isCountdownTimer t = false)
  /\ maskCleared (state (elapse k (dispatch ClickCancelNext w)))
     = maskCleared (with_nextCountdown None (state w))
  /\ (noTeardown w ->
      activeVideo (state (elapse k (dispatch ClickCancelNext w)))
      = activeVideo (state w)).
Proof.
  intros R N F. pose proof (reachable_steady _ _ _ _ R) as (_ & _ & T & _).
  assert (Reachable c h api (dispatch ClickCancelNext w)) as R0
      by exact (ReachAdvance c h api w (Happens ClickCancelNext) R).
  assert (idle (dispatch ClickCancelNext w)
          /\ state (dispatch ClickCancelNext w)
             = with_nextCountdown None (state w)
          /\ (forall t, In t (timers (dispatch ClickCancelNext w)) ->
                        In t (timers w) /\ isCountdownTimer t = false))
    as (I & S & U).
  { unfold dispatch, handle, guarded. rewrite F, N. cbn [andb].
    set (x := setNextCountdown None w).
    assert (countdownChanged x = true) as Cx.
    { subst x. unfold setNextCountdown.
      cbn [countdownChanged withCountdownEffect]. now rewrite N. }
    assert (nextCountdown (state x) = None) as Nx by reflexivity.
    assert (timersSound x) as Tx by exact T.
    rewrite (commit_clear w x Cx Nx).
    set (G := fun _ : Refs => refs _).
    destruct (onRefs_fields G (cleanup x)) as (E1 & E2 & _).
    destruct (cleanup_fields x) as (C1 & _ & _ & _ & C5).
    destruct (cleanup_sound x Tx) as [_ K].
    unfold idle. rewrite E1, E2, C1.
    change (countdownChanged (onRefs G (cleanup x)))
      with (countdownChanged (cleanup x)).
    rewrite C5. split; [auto|]. split; [reflexivity|].
    intros t It. split; [|now apply K].
    now apply timers_cleanup in It as [It _]. }
  set (w0 := dispatch ClickCancelNext w) in *.
  split; [exact S|].
  destruct (idle_elapse (fun s => maskCleared s = maskCleared (state w0))
              c h api k w0 R0 I eq_refl) as (I' & P & _ & Q' & _).
  { intros t s _ _ E. now rewrite fireState_masked. }
  split; [exact (proj1 I')|].
  split; [intros t It; exact (proj2 (U t (Q' t It)))|].
  split; [now rewrite P, S|].
  intros D.
  destruct (idle_elapse (fun s => activeVideo s = activeVideo (state w))
              c h api k w0 R0 I) as (_ & A & _); [now rewrite S| |exact A].
  intros t s It _ E. destruct (U t It) as [Iw _].
  specialize (D t Iw). unfold isTeardownTimer in D.
  destruct (action t); cbn; [discriminate|exact E..].
Qed.

Lemma cancel_stops_autoplay_witness :
  nextCountdown
    (state (elapse 3000
              (dispatch ClickCancelNext
                 (feed [Happens VideoEnded] Demo.playingRex))))
  = None
  /\ activeVideo
       (state (elapse 3000
                 (dispatch ClickCancelNext
                    (feed [Happens VideoEnded] Demo.playingRex))))
     = Some Demo.rex.
Proof.
  assert (Reachable Demo.shelf 1000 true
            (feed [Happens VideoEnded] Demo.playingRex)) as R.
  { unfold Demo.playingRex, Demo.watchingRex, Demo.start.
    do 3 apply reachable_feed_from. constructor. }
  assert (nextCountdown (state (feed [Happens VideoEnded] Demo.playingRex))
          = Some {| seconds := 2; nextVideo := Demo.raptor |}) as N
      by (vm_compute; reflexivity).
  assert (inFull (feed [Happens VideoEnded] Demo.playingRex) = true) as F
      by (vm_compute; reflexivity).
  assert (timers (feed [Happens VideoEnded] Demo.playingRex)
          = [{| timer_id := 0; due := 1000; action := CountdownTick |}])
    as P by (vm_compute; reflexivity).
  assert (noTeardown (feed [Happens VideoEnded] Demo.playingRex)) as T.
  { intros t I. rewrite P in I. destruct I as [<-|[]]. reflexivity. }
  assert (activeVideo (state (feed [Happens VideoEnded] Demo.playingRex))
          = Some Demo.rex) as A by (vm_compute; reflexivity).
  destruct (cancel_stops_autoplay _ _ _ _ _ 3000 R N F)
    as (_ & B & _ & _ & C).
  split; [exact B|]. rewrite (C T). exact A.
Defined.

(** ** The effects of the two backends *)

Section BackendEffects.

(** The refs after a pass whose backend effects do not run. *)
Lemma refs_pass_quiet (prev cur : World) :
  activeVideo (state prev) = activeVideo (state cur) ->
  ytReady (state prev) = ytReady (state cur) ->
  refs (pass prev cur) = refs (render cur).
Proof.
  intros A Y. unfold pass. cbv zeta.
  unfold youtubeEffect, autoplayEffect. rewrite !state_render.
  rewrite A, Y, (isYouTube_same _ _ A).
  rewrite sameVideo_refl, !eqb_reflx. cbn [andb].
  apply refs_countdownEffect.
Qed.

(** Opening clears the countdown, so that the commit opens nothing
    else. *)
Lemma state_commit_playVideo (video : VideoItem) (w : World) :
  state (commit w (playVideo video w)) = opened video (state w)
  /\ state (pass w (playVideo video w)) = opened video (state w).
Proof.
  assert (state (pass w (playVideo video w)) = opened video (state w)) as P.
  { rewrite pass_state_idle; [reflexivity|]. right. reflexivity. }
  split; [|exact P]. now rewrite commit_state.
Qed.

(** The second pass of the commit that follows [playVideo] leaves the
    refs of the first. *)
Lemma refs_commit_playVideo (video : VideoItem) (w : World) :
  refs (commit w (playVideo video w)) = refs (pass w (playVideo video w)).
Proof.
  destruct (state_commit_playVideo video w) as [_ P].
  unfold commit. rewrite refs_pass_quiet.
  - now rewrite (mounted_render _ (mounted_pass _ _ P)).
  - now rewrite state_render, P.
  - now rewrite state_render, P.
Qed.

(** The first pass after a native item has become the active one: the
    element is mounted and rewound. *)
Lemma pass_mounts_native (prev x : World) (video : VideoItem) :
  activeVideo (state x) = Some video ->
  isYouTube (state x) = false ->
  sameVideo (activeVideo (state prev)) (activeVideo (state x)) = false ->
  exists element,
    videoRef (refs (pass prev x)) = Some element
    /\ el_currentTime element = 0.
Proof.
  intros A Y V. unfold pass. cbv zeta.
  rewrite youtubeEffect_refs. cbn [refs onRefs].
  unfold youtubeEffect. rewrite !state_render, V, Y, A. cbn [andb].
  rewrite refs_countdownEffect.
  unfold autoplayEffect. rewrite !state_render, V, Y, A. cbn [andb].
  pose proof (render_mounted x) as M.
  unfold mounted in M. rewrite state_render, Y, A in M.
  destruct (videoRef (refs (render x))) as [el|]; [|contradiction].
  eexists. split; reflexivity.
Qed.

End BackendEffects.

(** Opening the item that is already the active one, from its card or
    from the related sheet, runs no backend effect: the [<video>]
    element is not rewound and the embedded player is not built again,
    while the state is reset as for any item.  For an embedded item this
    leaves the controls disabled, with the player that was there. *)
Theorem playVideo_same_item (c : Catalog) (h : Q) (api : bool) (w : World)
  (video : VideoItem) (e : Event) :
  Reachable c h api w ->
  activeVideo (state w) = Some video ->
  e = ClickCard video /\ cardRendered video w = true
  \/ e = ClickSheetItem video /\ inFull w = true
     /\ listed video (relatedVideos w) = true ->
  refs (dispatch e w) = refs w
  /\ state (dispatch e w) = opened video (state w)
  /\ (isYouTube (state w) = true ->
      ytControlsDisabled (state (dispatch e w)) = true).
Proof.
  intros R A G. pose proof (reachable_steady _ _ _ _ R) as (_ & M & _).
  assert (dispatch e w = commit w (playVideo video w)) as ->.
  { unfold dispatch, handle, guarded.
    destruct G as [[-> ->]|(-> & -> & ->)]; reflexivity. }
  destruct (state_commit_playVideo video w) as [S P].
  split.
  - rewrite refs_commit_playVideo, refs_pass_quiet.
    + assert (mounted (playVideo video w)) as M'
          by (apply (mounted_same w); [exact (eq_sym A)|tauto|exact M]).
      now rewrite (mounted_render _ M').
    + now rewrite A.
    + reflexivity.
  - split; [exact S|]. rewrite S. intros Y.
    unfold ytControlsDisabled, isYouTube in *.
    cbn [opened activeVideo ytLoaded with_nextCountdown with_ytLoaded
         with_duration with_currentTime with_relatedOpen with_playerMode
         with_activeVideo].
    rewrite A in Y. now rewrite Y.
Qed.

Lemma playVideo_same_item_witness :
  refs (dispatch (ClickCard Demo.raptor) Demo.playingRaptor)
  = refs Demo.playingRaptor
  /\ ytControlsDisabled
       (state (dispatch (ClickCard Demo.raptor) Demo.playingRaptor))
     = true.
Proof.
  assert (Reachable Demo.shelf 1000 true Demo.playingRaptor) as R.
  { unfold Demo.playingRaptor, Demo.watchingRaptor, Demo.start.
    do 2 apply reachable_feed_from. constructor. }
  assert (activeVideo (state Demo.playingRaptor) = Some Demo.raptor) as A
      by (vm_compute; reflexivity).
  assert (cardRendered Demo.raptor Demo.playingRaptor = true) as G
      by (vm_compute; reflexivity).
  assert (isYouTube (state Demo.playingRaptor) = true) as Y
      by (vm_compute; reflexivity).
  destruct (playVideo_same_item _ _ _ _ _ _ R A
              (or_introl (conj eq_refl G))) as (B & _ & D).
  split; [exact B|exact (D Y)].
Defined.

(** Opening a native item other than the active one, from its card or
    from the related sheet, leaves the [<video>] element mounted and at
    position 0, whatever was playing before. *)
Theorem playVideo_rewinds (c : Catalog) (h : Q) (api : bool) (w : World)
  (video : VideoItem) (e : Event) :
  Reachable c h api w ->
  mediaType video <> "YOUTUBE" ->
  activeVideo (state w) <> Some video ->
  e = ClickCard video /\ cardRendered video w = true
  \/ e = ClickSheetItem video /\ inFull w = true
     /\ listed video (relatedVideos w) = true ->
  activeVideo (state (dispatch e w)) = Some video
  /\ exists element,
      videoRef (refs (dispatch e w)) = Some element
      /\ el_currentTime element = 0.
Proof.
  intros R N D G.
  assert (dispatch e w = commit w (playVideo video w)) as ->.
  { unfold dispatch, handle, guarded.
    destruct G as [[-> ->]|(-> & -> & ->)]; reflexivity. }
  split; [now rewrite (proj1 (state_commit_playVideo video w))|].
  assert (isYouTube (state (playVideo video w)) = false) as Y.
  { unfold isYouTube. cbn. now apply String.eqb_neq. }
  assert (sameVideo (activeVideo (state w))
            (activeVideo (state (playVideo video w))) = false) as V.
  { destruct (sameVideo _ _) eqn:E; [|reflexivity].
    apply sameVideo_eq in E. contradiction. }
  rewrite refs_commit_playVideo.
  exact (pass_mounts_native w (playVideo video w) video eq_refl Y V).
Qed.

Lemma playVideo_rewinds_witness :
  exists element,
    videoRef (refs (dispatch (ClickCard Demo.whale) Demo.playingRex))
    = Some element
    /\ el_currentTime element = 0.
Proof.
  assert (Reachable Demo.shelf 1000 true Demo.playingRex) as R.
  { unfold Demo.playingRex, Demo.watchingRex, Demo.start.
    do 2 apply reachable_feed_from. constructor. }
  assert (mediaType Demo.whale <> "YOUTUBE") as N by discriminate.
  assert (activeVideo (state Demo.playingRex) <> Some Demo.whale) as D
      by (vm_compute; discriminate).
  assert (cardRendered Demo.whale Demo.playingRex = true) as G
      by (vm_compute; reflexivity).
  exact (proj2 (playVideo_rewinds _ _ _ _ _ _ R N D
                  (or_introl (conj eq_refl G)))).
Defined.

(** ** The related list *)

Section RelatedList.

Lemma listed_In (video : VideoItem) (l : list VideoItem) :
  listed video l = true -> In video l.
Proof.
  unfold listed. intros H. apply existsb_exists in H as (v & I & S).
  apply sameVideo_eq in S. injection S as ->. exact I.
Qed.

(** The related list depends on the category of the active item only. *)
Lemma relatedVideos_same_category (w w' : World) (active video : VideoItem) :
  activeVideo (state w) = Some active ->
  activeVideo (state w') = Some video ->
  catalog w' = catalog w ->
  sameCategory video active ->
  relatedVideos w' = relatedVideos w.
Proof.
  unfold relatedVideos, sameCategory. intros -> -> -> E. now rewrite E.
Qed.

End RelatedList.

(** Navigation inside the player stays in the category: an item chosen
    from the related sheet, and the item that autoplay picks when
    playback ends, are in the related list, and opening them leaves the
    related list as it is. *)
Theorem related_list_stays (w : World) (active : VideoItem) :
  activeVideo (state w) = Some active ->
  (forall video,
      inFull w = true ->
      listed video (relatedVideos w) = true ->
      activeVideo (state (dispatch (ClickSheetItem video) w)) = Some video
      /\ relatedVideos (dispatch (ClickSheetItem video) w) = relatedVideos w)
  /\ ((2 <= List.length (relatedVideos w))%nat ->
      exists next,
        handleVideoEnded w
        = setNextCountdown (Some {| seconds := 2; nextVideo := next |}) w
        /\ In next (relatedVideos w)
        /\ relatedVideos (commit w (playVideo next w)) = relatedVideos w).
Proof.
  intros A.
  assert (forall video,
             In video (relatedVideos w) ->
             activeVideo (state (commit w (playVideo video w))) = Some video
             /\ relatedVideos (commit w (playVideo video w))
                = relatedVideos w) as K.
  { intros video I.
    destruct (state_commit_playVideo video w) as [S _].
    assert (activeVideo (state (commit w (playVideo video w))) = Some video)
      as A' by now rewrite S.
    split; [exact A'|].
    apply (relatedVideos_same_category w _ active video A A').
    - now rewrite catalog_commit.
    - now apply (relatedVideos_spec w active A). }
  split.
  - intros video F L.
    assert (dispatch (ClickSheetItem video) w
            = commit w (playVideo video w)) as ->.
    { unfold dispatch, handle, guarded. now rewrite F, L. }
    apply K. now apply listed_In.
  - intros L. destruct (handleVideoEnded_next w active A L) as (next & N & H).
    exists next. split; [exact H|].
    apply nth_error_In in N. split; [exact N|]. now apply K.
Qed.

Lemma related_list_stays_witness :
  relatedVideos (dispatch (ClickSheetItem Demo.raptor) Demo.playingRex)
  = relatedVideos Demo.playingRex.
Proof.
  assert (activeVideo (state Demo.playingRex) = Some Demo.rex) as A
      by (vm_compute; reflexivity).
  assert (inFull Demo.playingRex = true) as F by (vm_compute; reflexivity).
  assert (listed Demo.raptor (relatedVideos Demo.playingRex) = true) as L
      by (vm_compute; reflexivity).
  destruct (related_list_stays Demo.playingRex Demo.rex A) as [K _].
  exact (proj2 (K Demo.raptor F L)).
Defined.

(** ** The embedded player belongs to the active item *)

Section PlayerBuilt.

(** No handler replaces the embedded player or takes the API back. *)
Lemma player_handle (e : Event) (w : World) :
  option_map yt_videoId (ytPlayerRef (refs (handle e w)))
  = option_map yt_videoId (ytPlayerRef (refs w))
  /\ (ytReady (state w) = true -> ytReady (state (handle e w)) = true).
Proof.
  destruct e; unfold_handlers; unfold embeddedPlayer;
    repeat match goal with
           | |- context [match ?x with _ => _ end] => destruct x eqn:?
           end;
    split; try reflexivity; try (intros Y; exact Y);
    cbn [refs onRefs onState setTimeout setNextCountdown
         withCountdownEffect clearTimeout
         setActiveVideo setPlayerMode setIsPlaying setCurrentTime
         setDuration setRelatedOpen setDragOffset setIsDragging
         setSkipIndicator setVisibleCategoryCount setYtReady setYtLoaded
         ytPlayerRef with_ytPlayerRef with_videoRef with_dragStartY
         with_touchStartY option_map yt_videoId];
    try congruence;
    try (match goal with
         | H : ytPlayerRef (refs w) = _ |- _ => rewrite H
         end; reflexivity);
    try (destruct (ytPlayerRef (refs w)); reflexivity);
    match goal with
    | H : (if isYouTube _ then _ else _) = Some _ |- _ =>
        destruct (isYouTube (state w)); [|discriminate H];
        destruct (ytPlayerRef (refs w)); [|discriminate H];
        destruct (ytLoaded (state w)); [|discriminate H];
        injection H as ->
    end;
    match goal with
    | H : _ = Returned _ |- _ =>
        destruct (yt_api _);
        [destruct (yt_faulty _); [discriminate H|]|];
        injection H as <-; reflexivity
    end.
Qed.

(** Only the effect that builds the player writes [ytPlayerRef]. *)
Lemma ytPlayerRef_pass (prev cur : World) :
  ytPlayerRef (refs (pass prev cur))
  = ytPlayerRef (refs (youtubeEffect prev cur cur)).
Proof.
  unfold pass. cbv zeta. unfold youtubeEffect. rewrite !state_render.
  destruct (_ && _ && _).
  - rewrite refs_countdownEffect. unfold autoplayEffect.
    destruct (_ && _); [reflexivity|].
    destruct (activeVideo (state (render cur))); [|reflexivity].
    destruct (isYouTube (state (render cur))); [reflexivity|].
    now destruct (videoRef (refs (render cur))).
  - destruct (activeVideo (state cur)); [destruct (_ && _)|];
      try reflexivity;
      rewrite refs_countdownEffect; unfold autoplayEffect;
      destruct (_ && _); try reflexivity;
      destruct (activeVideo (state (render cur))); try reflexivity;
      destruct (isYouTube (state (render cur))); try reflexivity;
      now destruct (videoRef (refs (render cur))).
Qed.

(** The effect that builds the player: its dependencies are unchanged,
    or there is nothing to build, or it builds the player of the active
    item. *)
Lemma youtubeEffect_cases (prev cur acc : World) :
  (activeVideo (state prev) = activeVideo (state cur)
   /\ ytReady (state prev) = ytReady (state cur)
   /\ youtubeEffect prev cur acc = acc)
  \/ (isYouTube (state cur) && ytReady (state cur) = false
      /\ youtubeEffect prev cur acc = acc)
  \/ (exists active,
         activeVideo (state cur) = Some active
         /\ isYouTube (state cur) = true
         /\ ytReady (state cur) = true
         /\ youtubeEffect prev cur acc
            = onRefs (with_ytPlayerRef
                        (Some (YT.construct
                                 (getYouTubeId (mediaUrl active)
                                    (slug active))))) acc).
Proof.
  unfold youtubeEffect.
  destruct (sameVideo _ _ && _ && _) eqn:D.
  - left. apply andb_prop in D as [D R]. apply andb_prop in D as [V _].
    apply sameVideo_eq in V. apply eqb_prop in R. auto.
  - right. destruct (activeVideo (state cur)) as [active|] eqn:A.
    + destruct (isYouTube (state cur) && ytReady (state cur)) eqn:G.
      * right. apply andb_prop in G as [G1 G2]. exists active. auto.
      * left. auto.
    + left. unfold isYouTube. rewrite A. auto.
Qed.

(** One pass: the player is the one built for the item of the render,
    when before the pass it was the one built for it unless the
    dependencies of the effect have changed. *)
Lemma built_pass (prev cur : World) :
  (forall player,
      ytPlayerRef (refs cur) = Some player -> ytReady (state cur) = true) ->
  (activeVideo (state prev) = activeVideo (state cur) ->
   ytReady (state prev) = ytReady (state cur) ->
   built (state cur) (refs cur)) ->
  built (state cur) (refs (pass prev cur)).
Proof.
  intros Y B player. rewrite ytPlayerRef_pass.
  destruct (youtubeEffect_cases prev cur cur)
    as [(V & R & ->)|[(G & ->)|(active & A & G1 & G2 & ->)]].
  - now apply B.
  - intros E. pose proof (Y player E) as T. split; [exact T|].
    rewrite T, andb_true_r in G. congruence.
  - cbn [refs onRefs ytPlayerRef with_ytPlayerRef]. intros E.
    injection E as <-. split; [exact G2|]. intros _.
    exists active. split; [exact A|reflexivity].
Qed.

Lemma built_same (s s' : State) (r : Refs) :
  activeVideo s' = activeVideo s -> ytReady s' = ytReady s ->
  built s r -> built s' r.
Proof.
  intros A Y B player E. destruct (B player E) as [T K].
  rewrite Y, (isYouTube_same _ _ A), A. auto.
Qed.

(** The commit that follows a handler keeps the player in step with the
    active item. *)
Lemma playerBuilt_dispatch (e : Event) (w : World) :
  playerBuilt w -> playerBuilt (dispatch e w).
Proof.
  intros B. unfold dispatch. set (x := handle e w).
  destruct (player_handle e w) as [P Y]. fold x in P, Y.
  assert (forall player,
             ytPlayerRef (refs x) = Some player -> ytReady (state x) = true)
    as Yx.
  { intros player E. rewrite E in P.
    destruct (ytPlayerRef (refs w)) as [p|] eqn:Ew; [|discriminate].
    apply Y. exact (proj1 (B p Ew)). }
  assert (activeVideo (state w) = activeVideo (state x) ->
          ytReady (state w) = ytReady (state x) ->
          built (state x) (refs x)) as Bx.
  { intros A R player E. rewrite E in P.
    destruct (ytPlayerRef (refs w)) as [p|] eqn:Ew; [|discriminate].
    cbn [option_map] in P. injection P as P.
    destruct (B p Ew) as [T K]. split; [now apply Y|].
    rewrite <- (isYouTube_same _ _ A), <- A, P. exact K. }
  pose proof (built_pass w x Yx Bx) as B1.
  clearbody x. clear P Y Yx Bx B.
  unfold playerBuilt. rewrite commit_state. unfold commit.
  set (p1 := pass w x) in *.
  assert (ytReady (state p1) = ytReady (state x)) as R1.
  { subst p1. destruct (pass_state w x) as [[S _]|(cd & _ & _ & _ & S)];
      now rewrite S. }
  apply built_pass.
  - intros player E. rewrite R1. exact (proj1 (B1 player E)).
  - rewrite state_render. intros A _.
    apply (built_same (state x)); auto.
Qed.

Lemma reachable_playerBuilt (c : Catalog) (h : Q) (api : bool) (w : World) :
  Reachable c h api w -> playerBuilt w.
Proof.
  revert w. apply (reachable_induction playerBuilt).
  - intros player E. discriminate E.
  - apply playerBuilt_dispatch.
  - intros t v B. exact B.
Qed.

Lemma present_pass (prev cur : World) :
  (activeVideo (state prev) = activeVideo (state cur) ->
   ytReady (state prev) = ytReady (state cur) ->
   present (state cur) (refs cur)) ->
  present (state cur) (refs (pass prev cur)).
Proof.
  intros B Y R. rewrite ytPlayerRef_pass.
  destruct (youtubeEffect_cases prev cur cur)
    as [(V & E & ->)|[(G & ->)|(active & A & G1 & G2 & ->)]].
  - now apply B.
  - rewrite Y, R in G. discriminate G.
  - discriminate.
Qed.

Lemma present_dispatch (e : Event) (w : World) :
  present (state w) (refs w) ->
  present (state (dispatch e w)) (refs (dispatch e w)).
Proof.
  intros B. unfold dispatch. set (x := handle e w).
  destruct (player_handle e w) as [P _]. fold x in P.
  assert (activeVideo (state w) = activeVideo (state x) ->
          ytReady (state w) = ytReady (state x) ->
          present (state x) (refs x)) as Bx.
  { intros A R Y T E. rewrite E in P.
    rewrite <- (isYouTube_same _ _ A) in Y. rewrite <- R in T.
    destruct (ytPlayerRef (refs w)) eqn:Ew; [discriminate P|].
    exact (B Y T Ew). }
  pose proof (present_pass w x Bx) as B1.
  clearbody x. clear P Bx B.
  rewrite commit_state. unfold commit.
  apply present_pass. rewrite state_render. intros A R Y T.
  apply B1; [now rewrite (isYouTube_same _ _ A)|now rewrite R].
Qed.

Lemma reachable_present (c : Catalog) (h : Q) (api : bool) (w : World) :
  Reachable c h api w -> present (state w) (refs w).
Proof.
  revert w. apply (reachable_induction (fun v => present (state v) (refs v))).
  - intros Y. discriminate Y.
  - apply present_dispatch.
  - intros t v B. exact B.
Qed.

End PlayerBuilt.

(** In every reachable world an embedded active item has a player as
    soon as the player API is ready, and the player that is there was
    built after the API had become ready and is the one built for that
    item: its video id is the one [getYouTubeId] resolves from the
    item's [mediaUrl], with the item's [slug] as the fallback. *)
Theorem player_of_active_item (c : Catalog) (h : Q) (api : bool) (w : World)
  (active : VideoItem) :
  Reachable c h api w ->
  activeVideo (state w) = Some active ->
  mediaType active = "YOUTUBE" ->
  (ytReady (state w) = true -> ytPlayerRef (refs w) <> None)
  /\ (forall player,
         ytPlayerRef (refs w) = Some player ->
         ytReady (state w) = true
         /\ yt_videoId player
            = getYouTubeId (mediaUrl active) (slug active)).
Proof.
  intros R A M.
  assert (isYouTube (state w) = true) as Y.
  { unfold isYouTube. rewrite A. now apply String.eqb_eq. }
  split; [exact (reachable_present c h api w R Y)|].
  intros player E.
  destruct (reachable_playerBuilt c h api w R player E) as [T K].
  split; [exact T|]. destruct (K Y) as (a & A' & I). congruence.
Qed.

Lemma player_of_active_item_witness :
  exists player,
    ytPlayerRef
      (refs (feed [Happens (ClickCard Demo.rex);
                   Happens (ClickCard Demo.reef)] Demo.playingRaptor))
    = Some player
    /\ yt_videoId player = "qrs456".
Proof.
  assert (Reachable Demo.shelf 1000 true
            (feed [Happens (ClickCard Demo.rex);
                   Happens (ClickCard Demo.reef)] Demo.playingRaptor)) as R.
  { unfold Demo.playingRaptor, Demo.watchingRaptor, Demo.start.
    do 3 apply reachable_feed_from. constructor. }
  assert (exists player,
             ytPlayerRef
               (refs (feed [Happens (ClickCard Demo.rex);
                            Happens (ClickCard Demo.reef)]
                        Demo.playingRaptor))
             = Some player) as [player E]
      by (eexists; vm_compute; reflexivity).
  assert (activeVideo
            (state (feed [Happens (ClickCard Demo.rex);
                          Happens (ClickCard Demo.reef)]
                      Demo.playingRaptor))
          = Some Demo.reef) as A by (vm_compute; reflexivity).
  exists player. split; [exact E|].
  destruct (player_of_active_item _ _ _ _ _ R A eq_refl) as [_ K].
  rewrite (proj2 (K player E)). vm_compute. reflexivity.
Defined.

(** ** What the countdown shows *)

Section CountdownShown.

(** A handler leaves the countdown alone, or it announces to the effect
    a countdown that is cleared, set to 2, or one less than before. *)
Lemma countdown_handle (e : Event) (w : World) :
  (countdownChanged (handle e w) = countdownChanged w
   /\ nextCountdown (state (handle e w)) = nextCountdown (state w))
  \/ (countdownChanged (handle e w) = true
      /\ (nextCountdown (state (handle e w)) = None
          \/ (exists next,
                 nextCountdown (state (handle e w))
                 = Some {| seconds := 2; nextVideo := next |})
          \/ (exists cd,
                 nextCountdown (state w) = Some cd
                 /\ nextCountdown (state (handle e w))
                    = Some {| seconds := seconds cd - 1;
                              nextVideo := nextVideo cd |}))).
Proof.
  destruct e; unfold_handlers; unfold setNextCountdown;
    repeat match goal with
           | |- context [match ?x with _ => _ end] => destruct x eqn:?
           end;
    cbn [state onState onRefs setTimeout clearTimeout withCountdownEffect
         setActiveVideo setPlayerMode setIsPlaying setCurrentTime
         setDuration setRelatedOpen setDragOffset setIsDragging
         setSkipIndicator setVisibleCategoryCount setYtReady setYtLoaded
         countdownChanged nextCountdown
         with_activeVideo with_playerMode with_isPlaying with_currentTime
         with_duration with_relatedOpen with_dragOffset with_isDragging
         with_skipIndicator with_nextCountdown with_visibleCategoryCount
         with_ytReady with_ytLoaded] in *;
    first
      [ left; split; [reflexivity|congruence]
      | right; split; [reflexivity|]; left; reflexivity
      | right; split; [reflexivity|]; right; left; eexists; reflexivity
      | right; split; [reflexivity|]; right; right; eexists;
        split; [eassumption|reflexivity]
      | discriminate ].
Qed.

Lemma state_arm (a : World) : state (arm a) = state a.
Proof. reflexivity. Qed.

(** The state after a commit, in each of its four cases. *)
Lemma state_commit_cases (prev x : World) :
  (countdownChanged x = false -> state (commit prev x) = state x)
  /\ (countdownChanged x = true -> nextCountdown (state x) = None ->
      state (commit prev x) = state x)
  /\ (forall cd,
         countdownChanged x = true -> nextCountdown (state x) = Some cd ->
         (0 < seconds cd)%Z -> state (commit prev x) = state x)
  /\ (forall cd,
         countdownChanged x = true -> nextCountdown (state x) = Some cd ->
         (seconds cd <= 0)%Z ->
         state (commit prev x) = opened (nextVideo cd) (state x)).
Proof.
  split; [|split; [|split]].
  - intros C. rewrite (commit_idle prev x C).
    set (F := fun _ : Refs => refs _).
    now destruct (onRefs_fields F x) as (-> & _).
  - intros C N. rewrite (commit_clear prev x C N).
    set (F := fun _ : Refs => refs _).
    destruct (onRefs_fields F (cleanup x)) as (-> & _).
    now destruct (cleanup_fields x) as (-> & _).
  - intros cd C N P. rewrite (commit_arm prev x cd C N P).
    set (F := fun _ : Refs => refs _).
    destruct (onRefs_fields F (arm (cleanup x))) as (-> & _).
    rewrite state_arm. now destruct (cleanup_fields x) as (-> & _).
  - intros cd C N P. rewrite (commit_open prev x cd C N P).
    set (F := fun _ : Refs => refs _).
    destruct (onRefs_fields F (reopen (nextVideo cd) x)) as (-> & _).
    now destruct (reopen_fields (nextVideo cd) x) as (-> & _).
Qed.

Lemma shown_dispatch (e : Event) (w : World) :
  settled w ->
  countdownShown (state w) ->
  countdownShown (state (dispatch e w)).
Proof.
  intros S K. unfold dispatch.
  destruct (countdown_handle e w) as [[C N]|[C N]];
    destruct (state_commit_cases w (handle e w)) as (I1 & I2 & I3 & I4);
    set (x := handle e w) in *; clearbody x.
  - rewrite S in C. rewrite (I1 C). unfold countdownShown. now rewrite N.
  - destruct N as [N|[[next N]|(cd & Nw & N)]].
    + rewrite (I2 C N). intros cd E. congruence.
    + rewrite (I3 _ C N) by (cbn; lia).
      intros cd E. rewrite N in E. injection E as <-. now right.
    + destruct (K cd Nw) as [One|Two].
      * rewrite (I4 _ C N) by (cbn; lia). intros cd' E. discriminate E.
      * rewrite (I3 _ C N) by (cbn; lia).
        intros cd' E. rewrite N in E. injection E as <-. left. cbn. lia.
Qed.

Lemma reachable_shown (c : Catalog) (h : Q) (api : bool) (w : World) :
  Reachable c h api w -> settled w /\ countdownShown (state w).
Proof.
  revert w.
  apply (reachable_induction
           (fun v => settled v /\ countdownShown (state v))).
  - split; [reflexivity|]. intros cd E. discriminate E.
  - intros e v [S K]. split; [apply commit_settled|].
    now apply shown_dispatch.
  - intros t v K. exact K.
Qed.

End CountdownShown.

(** Between two events, that is in every world after the effects of a
    commit have run, a countdown that is set holds 2 or 1, and at most
    one countdown timer is pending.  The value 0 exists inside a commit
    only: when the countdown's timer fires at 1, its callback stores 0
    and the render that follows has the countdown at 0; the effect that
    runs after this render opens the next item and clears the
    countdown. *)
Theorem countdown_between_events (c : Catalog) (h : Q) (api : bool)
  (w : World) :
  Reachable c h api w ->
  (forall cd,
      nextCountdown (state w) = Some cd ->
      seconds cd = 1%Z \/ seconds cd = 2%Z)
  /\ (forall t u,
         In t (timers w) -> In u (timers w) ->
         isCountdownTimer t = true -> isCountdownTimer u = true ->
         t = u)
  /\ (forall cd t,
         nextCountdown (state w) = Some cd ->
         seconds cd = 1%Z ->
         In t (timers w) -> isCountdownTimer t = true ->
         nextCountdown
           (state (render (handle (TimerFires (timer_id t)) w)))
         = Some {| seconds := 0; nextVideo := nextVideo cd |}
         /\ state (dispatch (TimerFires (timer_id t)) w)
            = opened (nextVideo cd) (state w)
         /\ nextCountdown (state (dispatch (TimerFires (timer_id t)) w))
            = None).
Proof.
  intros R. split; [exact (proj2 (reachable_shown c h api w R))|].
  pose proof (reachable_timersSound c h api w R) as T.
  destruct T as [[D I] K]. split.
  - intros t u It Iu Ct Cu. apply (handle_determines (timers w)); auto.
    pose proof (K t It Ct) as Et. pose proof (K u Iu Cu) as Eu. congruence.
  - intros cd t N One It Ct.
    assert (counting (timer_id t) 1 (nextVideo cd) (due t) w) as G.
    { destruct cd as [n next]. cbn in One. subst n.
      split; [exact N|].
      split; [exact (proj1 (reachable_shown c h api w R))|].
      split; [exact (conj (conj D I) K)|].
      split; [exact (K t It Ct)|].
      destruct t as [j d a]. unfold isCountdownTimer in Ct. cbn in Ct.
      destruct a; try discriminate Ct. exact It. }
    destruct (counting_opens _ _ _ _ G) as ((N' & _) & E & _).
    split; [|split; [exact E|exact N']].
    rewrite state_render. cbn [handle].
    rewrite (counting_timerFires _ _ _ _ _ G). reflexivity.
Qed.

Lemma countdown_between_events_witness :
  nextCountdown
    (state (elapse 1000 (feed [Happens VideoEnded] Demo.playingRex)))
  = Some {| seconds := 1; nextVideo := Demo.raptor |}
  /\ nextCountdown
       (state (render (handle (TimerFires 1)
                         (elapse 1000 (feed [Happens VideoEnded]
                                         Demo.playingRex)))))
     = Some {| seconds := 0; nextVideo := Demo.raptor |}
  /\ nextCountdown
       (state (dispatch (TimerFires 1)
                 (elapse 1000 (feed [Happens VideoEnded]
                                 Demo.playingRex))))
     = None.
Proof.
  assert (Reachable Demo.shelf 1000 true
            (elapse 1000 (feed [Happens VideoEnded] Demo.playingRex)))
    as R.
  { apply reachable_elapse.
    unfold Demo.playingRex, Demo.watchingRex, Demo.start.
    do 3 apply reachable_feed_from. constructor. }
  assert (nextCountdown
            (state (elapse 1000 (feed [Happens VideoEnded]
                                   Demo.playingRex)))
          = Some {| seconds := 1; nextVideo := Demo.raptor |}) as N
      by (vm_compute; reflexivity).
  assert (timers (elapse 1000 (feed [Happens VideoEnded] Demo.playingRex))
          = [ {| timer_id := 1; due := 2000; action := CountdownTick |} ])
    as T by (vm_compute; reflexivity).
  set (w := elapse 1000 (feed [Happens VideoEnded] Demo.playingRex)) in *.
  clearbody w.
  assert (In {| timer_id := 1; due := 2000; action := CountdownTick |}
             (timers w)) as I by (rewrite T; left; reflexivity).
  destruct (proj2 (proj2 (countdown_between_events _ _ _ _ R))
              _ _ N eq_refl I eq_refl) as (Zero & _ & Gone).
  split; [exact N|]. split; [exact Zero|exact Gone].
Defined.

(** ** Revealing the feed *)

Section Reveal.

Lemma count_intersection_hidden (w : World) :
  sentinelRendered w = false ->
  visibleCategoryCount (state (dispatch (Intersection (Some true)) w))
  = visibleCategoryCount (state w).
Proof.
  intros R. unfold dispatch. rewrite count_commit.
  unfold handle, guarded. now rewrite R.
Qed.

Lemma count_intersections (n : nat) :
  forall w,
    catalog (feed (intersections n) w) = catalog w
    /\ visibleCategoryCount (state (feed (intersections n) w))
       = Nat.max (visibleCategoryCount (state w))
           (Nat.min (visibleCategoryCount (state w) + n)
              (List.length (categoryGroups (catalog w)))).
Proof.
  induction n as [|n IH]; intros w.
  - cbn [intersections repeat feed fold_left]. split; [reflexivity|lia].
  - unfold intersections. cbn [repeat]. rewrite feed_cons.
    fold (intersections n). cbn [advance].
    destruct (IH (dispatch (Intersection (Some true)) w)) as [C N].
    rewrite C, N, catalog_dispatch. split; [reflexivity|].
    destruct (sentinelRendered w) eqn:R.
    + rewrite (count_intersection w R).
      unfold sentinelRendered in R. apply Nat.ltb_lt in R. lia.
    + rewrite (count_intersection_hidden w R).
      unfold sentinelRendered in R. apply Nat.ltb_ge in R. lia.
Qed.

End Reveal.

(** After [n] intersections of the sentinel the count is the count
    before plus [n], but not above the number of category groups, and
    never below the count before.  Once that number is reached the
    sentinel is gone and the feed shows every group. *)
Theorem intersections_reveal (w : World) (n : nat) :
  visibleCategoryCount (state (feed (intersections n) w))
  = Nat.max (visibleCategoryCount (state w))
      (Nat.min (visibleCategoryCount (state w) + n)
         (List.length (categoryGroups (catalog w))))
  /\ ((List.length (categoryGroups (catalog w))
       <= visibleCategoryCount (state w) + n)%nat ->
      sentinelRendered (feed (intersections n) w) = false
      /\ firstn (visibleCategoryCount (state (feed (intersections n) w)))
           (categoryGroups (catalog (feed (intersections n) w)))
         = categoryGroups (catalog w)).
Proof.
  destruct (count_intersections n w) as [C N].
  split; [exact N|]. intros L. unfold sentinelRendered. rewrite C, N. split.
  - apply Nat.ltb_ge. lia.
  - apply firstn_all2. lia.
Qed.

(** ** Loading the player API *)

Section LoadApi.

Lemma find_app_found (l : list ScriptElement) (x : ScriptElement) :
  hasDataYtApi x = true -> find hasDataYtApi (l ++ [x]) <> None.
Proof.
  intros H. induction l as [|a l IH]; cbn [app find].
  - now rewrite H.
  - destruct (hasDataYtApi a); [discriminate|exact IH].
Qed.

Lemma filter_none (l : list ScriptElement) :
  find hasDataYtApi l = None -> filter hasDataYtApi l = [].
Proof.
  induction l as [|a l IH]; cbn [find filter]; [reflexivity|].
  destruct (hasDataYtApi a); [discriminate|exact IH].
Qed.

Lemma filter_some (l : list ScriptElement) (x : ScriptElement) :
  find hasDataYtApi l = Some x -> filter hasDataYtApi l <> [].
Proof.
  induction l as [|a l IH]; cbn [find filter]; [discriminate|].
  destruct (hasDataYtApi a); [discriminate|exact IH].
Qed.

End LoadApi.

(** The effect that loads the player API, run when the component
    mounts.  With the API on the page it sets [ytReady] and touches
    nothing.  Otherwise it sets the ready callback and leaves exactly
    one more API script than before when there was none, and as many as
    before when there was one.  So running it again, as a second mount
    does, adds no second script. *)
Theorem loadApiEffect_once (p : Page) :
  snd (loadApiEffect p) = ytPlayerDefined p
  /\ (ytPlayerDefined p = true -> fst (loadApiEffect p) = p)
  /\ (ytPlayerDefined p = false ->
      readyCallbackSet (fst (loadApiEffect p)) = true
      /\ apiScripts (fst (loadApiEffect p)) = Nat.max 1 (apiScripts p)
      /\ querySelector (fst (loadApiEffect p)) <> None)
  /\ fst (loadApiEffect (fst (loadApiEffect p))) = fst (loadApiEffect p)
  /\ (forall c h, ytReady (state (snd (mount c h p))) = ytPlayerDefined p).
Proof.
  unfold mount, loadApiEffect, querySelector, apiScripts.
  destruct p as [d l r]. cbn [ytPlayerDefined scriptElements].
  destruct d.
  { cbn [fst snd]. split; [reflexivity|]. split; [reflexivity|].
    split; [discriminate|]. split; reflexivity. }
  destruct (find hasDataYtApi l) as [x|] eqn:F;
    cbn [fst snd ytPlayerDefined scriptElements readyCallbackSet].
  - rewrite F. cbn [fst].
    split; [reflexivity|]. split; [discriminate|].
    split; [|split; reflexivity].
    intros _. split; [reflexivity|]. split; [|congruence].
    pose proof (filter_some l x F) as N.
    destruct (filter hasDataYtApi l); [contradiction|cbn; lia].
  - pose proof (find_app_found l apiScript eq_refl) as N.
    destruct (find hasDataYtApi (l ++ [apiScript])) as [y|] eqn:G;
      [|contradiction].
    cbn [fst].
    split; [reflexivity|]. split; [discriminate|].
    split; [|split; reflexivity].
    intros _. split; [reflexivity|]. split; [|discriminate].
    rewrite filter_app, (filter_none l F). reflexivity.
Qed.

(** ** Picture-in-picture *)

Section PictureInPicture.

Variable d : Document.

(** One run of the effect after a render. *)
Lemma pipEffect_announced (prev cur : World) (p : PipCells) :
  mounted cur ->
  (activeVideo (state prev) = activeVideo (state cur) -> announced d cur p) ->
  announced d cur (pipEffect d prev cur p).
Proof.
  intros M K active A. unfold pipEffect.
  destruct (sameVideo _ _) eqn:V; cbn [andb].
  - apply sameVideo_eq in V.
    rewrite (isYouTube_same _ _ V), eqb_reflx. now apply (K V active).
  - unfold mounted in M. rewrite A in M.
    destruct (isYouTube (state cur)); [reflexivity|].
    destruct (videoRef (refs cur)); [reflexivity|contradiction].
Qed.

Lemma announced_same (w w' : World) (p : PipCells) :
  activeVideo (state w') = activeVideo (state w) ->
  announced d w p -> announced d w' p.
Proof.
  intros A K active E. rewrite (isYouTube_same _ _ A).
  apply (K active). congruence.
Qed.

Lemma pipCommit_announced (prev cur : World) (p : PipCells) :
  announced d prev p ->
  announced d (commit prev cur) (pipCommit d prev cur p).
Proof.
  intros K. unfold pipCommit.
  apply (announced_same (render (pass prev cur)));
    [now rewrite commit_state, state_render|].
  apply pipEffect_announced; [apply render_mounted|].
  rewrite !state_render. intros A.
  apply (announced_same (render cur)); [now rewrite !state_render|].
  apply pipEffect_announced; [apply render_mounted|].
  rewrite state_render. intros A'.
  apply (announced_same prev); [now rewrite state_render|exact K].
Qed.

Lemma dispatchPip_announced (e : Event) (x : World * PipCells) :
  announced d (fst x) (snd x) ->
  announced d (fst (dispatchPip d e x)) (snd (dispatchPip d e x)).
Proof.
  intros K. unfold dispatchPip. cbn [fst snd].
  now apply pipCommit_announced.
Qed.

Lemma reachablePip_announced (c : Catalog) (h : Q) (api : bool)
  (x : World * PipCells) :
  ReachablePip d c h api x -> announced d (fst x) (snd x).
Proof.
  induction 1 as [|x i R IH].
  - intros active A. discriminate A.
  - destruct i as [[e|]| |]; cbn [advancePip].
    + now apply dispatchPip_announced.
    + unfold tickPip. cbv zeta.
      assert (forall handles y,
                 announced d (fst y) (snd y) ->
                 announced d
                   (fst (fold_left
                           (fun acc handle =>
                              dispatchPip d (TimerFires handle) acc)
                           handles y))
                   (snd (fold_left
                           (fun acc handle =>
                              dispatchPip d (TimerFires handle) acc)
                           handles y))) as F.
      { induction handles as [|j r IHr]; intros y K; [exact K|].
        cbn [fold_left]. apply IHr. now apply dispatchPip_announced. }
      apply F. exact IH.
    + unfold setIsPiP. destruct (videoRef (refs (fst x))); exact IH.
    + unfold setIsPiP. destruct (videoRef (refs (fst x))); exact IH.
Qed.

(** The component's world is the one of the run without the
    controller. *)
Lemma reachablePip_world (c : Catalog) (h : Q) (api : bool)
  (x : World * PipCells) :
  ReachablePip d c h api x -> Reachable c h api (fst x).
Proof.
  induction 1 as [|x i R IH]; [constructor|].
  destruct i as [[e|]| |]; cbn [advancePip].
  - exact (ReachAdvance c h api _ (Happens e) IH).
  - assert (fst (tickPip d x) = tick (fst x)) as ->.
    { unfold tickPip, tick, fireAll. cbv zeta.
      generalize (dueHandles (withNow (now (fst x) + 1) (fst x))).
      generalize (withNow (now (fst x) + 1) (fst x)).
      generalize (snd x).
      intros p v handles. revert p v.
      induction handles as [|j r IHr]; intros p v; [reflexivity|].
      cbn [fold_left]. unfold dispatchPip at 2. cbn [fst snd].
      apply IHr. }
    exact (ReachAdvance c h api _ Millisecond IH).
  - unfold setIsPiP. destruct (videoRef (refs (fst x))); exact IH.
  - unfold setIsPiP. destruct (videoRef (refs (fst x))); exact IH.
Qed.

End PictureInPicture.

(** The picture-in-picture controller, in every world that can be
    reached with it: the component runs as it does without the
    controller, and while there is a session, [pipSupported] is what
    the document says for a native item and false for an embedded one.
    So for an embedded item the button is not rendered, and
    [handleTogglePiP] would ask nothing of the browser. *)
Theorem pipSupported_native_only (d : Document) (c : Catalog) (h : Q)
  (api : bool) (x : World * PipCells) (active : VideoItem) :
  ReachablePip d c h api x ->
  activeVideo (state (fst x)) = Some active ->
  Reachable c h api (fst x)
  /\ pipSupported (snd x) = negb (isYouTube (state (fst x))) && supported d
  /\ (isYouTube (state (fst x)) = true ->
      pipButtonRendered x = false
      /\ handleTogglePiP d (fst x) (snd x) = NoRequest)
  /\ (pictureInPictureEnabled d = None -> pipButtonRendered x = false).
Proof.
  intros R A.
  pose proof (reachablePip_announced d c h api x R active A) as K.
  split; [now apply (reachablePip_world d)|]. split; [exact K|]. split.
  - intros Y. rewrite Y in K. cbn [negb andb] in K.
    unfold pipButtonRendered, handleTogglePiP. rewrite K.
    split; [apply andb_false_r|]. now destruct (videoRef (refs (fst x))).
  - intros N. unfold pipButtonRendered. rewrite K. unfold supported.
    rewrite N. now rewrite !andb_false_r.
Qed.

Lemma pipSupported_native_only_witness :
  pipSupported
    (snd (advancePip
            {| pictureInPictureEnabled := Some true;
               pictureInPictureElement := false |}
            (OfComponent (Happens (ClickCard Demo.rex)))
            (Demo.start, {| pipSupported := false; isPiP := false |})))
  = true.
Proof.
  assert (ReachablePip
            {| pictureInPictureEnabled := Some true;
               pictureInPictureElement := false |}
            Demo.shelf 1000 true
            (advancePip
               {| pictureInPictureEnabled := Some true;
                  pictureInPictureElement := false |}
               (OfComponent (Happens (ClickCard Demo.rex)))
               (Demo.start, {| pipSupported := false; isPiP := false |})))
    as R by (apply ReachPipAdvance; constructor).
  assert (activeVideo
            (state
               (fst (advancePip
                       {| pictureInPictureEnabled := Some true;
                          pictureInPictureElement := false |}
                       (OfComponent (Happens (ClickCard Demo.rex)))
                       (Demo.start,
                        {| pipSupported := false; isPiP := false |}))))
          = Some Demo.rex) as A by (vm_compute; reflexivity).
  rewrite (proj1 (proj2 (pipSupported_native_only _ _ _ _ _ _ R A))).
  vm_compute. reflexivity.
Defined.
